(** * GMFlow (gmflow_minimal.py): the scale loop and the flow upsampler

    A shallow embedding of [GMFlow.extract_feature], [GMFlow.upsample_flow] and
    [GMFlow.forward_image] of [src/gmflow/gmflow_minimal.py].

    - A tensor is a shape and its row-major contents.  Elements are real
      numbers: the arithmetic of the source is read as exact arithmetic.
    - A Python exception is an [Err] result; the exception classes that the
      modelled code can raise are the constructors of [PyError].
    - Every torch call and every call of a collaborator (the backbone, the
      correlation functions, the warp, the propagation module, the upsampler
      network) is recorded in a trace, and collaborators thread an opaque
      world (random generator state and the like). *)

From Stdlib Require Import List ZArith Lia Reals Lra Bool Arith PeanoNat.
From Stdlib Require Import RList.
Import ListNotations.

Set Implicit Arguments.

(** ** Python exceptions and results *)

Inductive PyError : Type :=
| AssertionError
| TypeError
| IndexError
| ValueError
| RuntimeError
| NotImplementedError
| AttributeError.

Inductive Result (A : Type) : Type :=
| Ok (a : A)
| Err (e : PyError).

Arguments Ok {A} a.
Arguments Err {A} e.

(** ** Tensors *)

Module Tensor.

Record Tensor : Type := mkTensor { shape : list nat; data : list R }.

Fixpoint numel (sh : list nat) : nat :=
  match sh with
  | [] => 1
  | d :: sh' => d * numel sh'
  end.

(** Row-major offset of an index, and the index of an offset. *)
Fixpoint ravel (sh idx : list nat) : nat :=
  match sh, idx with
  | _ :: sh', i :: idx' => i * numel sh' + ravel sh' idx'
  | _, _ => 0
  end.

Fixpoint unravel (sh : list nat) (off : nat) : list nat :=
  match sh with
  | [] => []
  | _ :: sh' => (off / numel sh') :: unravel sh' (off mod numel sh')
  end.

Definition valid_index (sh idx : list nat) : Prop := Forall2 lt idx sh.

Definition get (t : Tensor) (idx : list nat) : R :=
  nth (ravel (shape t) idx) (data t) 0%R.

Definition tabulate (sh : list nat) (f : list nat -> R) : Tensor :=
  mkTensor sh (map (fun off => f (unravel sh off)) (seq 0 (numel sh))).

Definition rank (t : Tensor) : nat := length (shape t).

Definition shape_eqb (s1 s2 : list nat) : bool :=
  if list_eq_dec Nat.eq_dec s1 s2 then true else false.

(** Replace position [d] of a list. *)
Fixpoint set_nth (d : nat) (x : nat) (l : list nat) : list nat :=
  match l, d with
  | [], _ => []
  | _ :: l', O => x :: l'
  | y :: l', S d' => y :: set_nth d' x l'
  end.

(** Remove position [d] of a list. *)
Fixpoint drop_nth (d : nat) (l : list nat) : list nat :=
  match l, d with
  | [], _ => []
  | _ :: l', O => l'
  | y :: l', S d' => y :: drop_nth d' l'
  end.

(** Insert [x] before position [d] of a list. *)
Fixpoint insert_nth (d : nat) (x : nat) (l : list nat) : list nat :=
  match d, l with
  | O, _ => x :: l
  | S d', y :: l' => y :: insert_nth d' x l'
  | S _, [] => [x]
  end.

Fixpoint index_of (x : nat) (l : list nat) : nat :=
  match l with
  | [] => 0
  | y :: l' => if Nat.eqb x y then 0 else S (index_of x l')
  end.

Fixpoint sumR (l : list R) : R :=
  match l with
  | [] => 0%R
  | x :: l' => (x + sumR l')%R
  end.

(** [b, c, h, w = t.shape]: the unpacking raises [ValueError] unless the
    tensor has exactly four dimensions. *)
Definition shape4 (t : Tensor) : Result (nat * nat * nat * nat) :=
  match shape t with
  | [b; c; h; w] => Ok (b, c, h, w)
  | _ => Err ValueError
  end.

(** [torch.stack((a, b), dim=1)]: the position 1 is first checked against
    the rank of the first tensor ([IndexError] for a 0-dimensional one), then
    both tensors must have the same shape ([RuntimeError]), and a new
    dimension of size 2 is inserted at position 1. *)
Definition stack1 (a b : Tensor) : Result Tensor :=
  match shape a with
  | [] => Err IndexError
  | d0 :: rest =>
      if negb (shape_eqb (shape a) (shape b)) then Err RuntimeError
      else
        Ok (tabulate (d0 :: 2 :: rest)
              (fun idx => match idx with
                          | i0 :: j :: r =>
                              get (if Nat.eqb j 0 then a else b) (i0 :: r)
                          | _ => 0%R
                          end))
  end.

Definition is_permutation (n : nat) (perm : list nat) : bool :=
  Nat.eqb (length perm) n &&
  forallb (fun d => existsb (Nat.eqb d) perm) (seq 0 n).

(** [t.permute(perm)]: output dimension [j] is input dimension [perm[j]]. *)
Definition permute (t : Tensor) (perm : list nat) : Result Tensor :=
  if negb (is_permutation (rank t) perm) then Err RuntimeError
  else Ok (tabulate (map (fun p => nth p (shape t) 0) perm)
             (fun idx' =>
                get t (map (fun d => nth (index_of d perm) idx' 0)
                           (seq 0 (rank t))))).

(** [t.narrow(dim, start, len)], used by [chunk]. *)
Definition narrow (dim start len : nat) (t : Tensor) : Tensor :=
  tabulate (set_nth dim len (shape t))
    (fun idx => get t (set_nth dim (start + nth dim idx 0) idx)).

(** [torch.chunk(t, chunks=2, dim=1)]: pieces of [ceil(n/2)] along dimension
    1; a dimension of size 1 gives a single piece, one of size 0 two empty
    pieces.  A 0-dimensional tensor is refused ([RuntimeError]), and a
    1-dimensional one has no dimension 1 ([IndexError]). *)
Definition chunk2_dim1 (t : Tensor) : Result (list Tensor) :=
  match shape t with
  | [] => Err RuntimeError
  | [_] => Err IndexError
  | _ :: n :: _ =>
      let cs := (n + 1) / 2 in
      if Nat.eqb n 0 then Ok [t; t]
      else if Nat.ltb cs n then Ok [narrow 1 0 cs t; narrow 1 cs (n - cs) t]
      else Ok [narrow 1 0 cs t]
  end.

(** All dimensions but [dim] agree. *)
Definition cat_compatible (dim : nat) (s1 s2 : list nat) : bool :=
  Nat.eqb (length s1) (length s2) && Nat.ltb dim (length s1) &&
  shape_eqb (drop_nth dim s1) (drop_nth dim s2).

(** The operand [torch.cat] leaves out: a 1-dimensional tensor without
    elements. *)
Definition cat_skipped (t : Tensor) : bool := shape_eqb (shape t) [0].

(** [torch.cat((a, b), dim)], in the order of torch's checks: a
    0-dimensional operand is refused ([RuntimeError]); 1-dimensional empty
    operands are left out, and if both are the result is empty; the dimension
    is checked against the rank of the first operand that is kept
    ([IndexError]); the operands that are kept must have the same rank and
    agree outside [dim] ([RuntimeError]). *)
Definition cat (dim : nat) (a b : Tensor) : Result Tensor :=
  if (Nat.eqb (rank a) 0 || Nat.eqb (rank b) 0)%bool then Err RuntimeError
  else if (cat_skipped a && cat_skipped b)%bool then Ok (mkTensor [0] [])
  else if cat_skipped a then
    if Nat.leb (rank b) dim then Err IndexError else Ok b
  else if Nat.leb (rank a) dim then Err IndexError
  else if cat_skipped b then Ok a
  else if negb (cat_compatible dim (shape a) (shape b)) then Err RuntimeError
  else
    let na := nth dim (shape a) 0 in
    let nb := nth dim (shape b) 0 in
    Ok (tabulate (set_nth dim (na + nb) (shape a))
          (fun idx =>
             let i := nth dim idx 0 in
             if Nat.ltb i na then get a idx
             else get b (set_nth dim (i - na) idx))).

(** [k * t] for a Python integer [k]. *)
Definition scale (k : Z) (t : Tensor) : Tensor :=
  mkTensor (shape t) (map (fun x => (IZR k * x)%R) (data t)).

(** Broadcasting of two shapes of the same rank: sizes agree or one is 1. *)
Fixpoint broadcast_shapes (s1 s2 : list nat) : option (list nat) :=
  match s1, s2 with
  | [], [] => Some []
  | d1 :: r1, d2 :: r2 =>
      match broadcast_shapes r1 r2 with
      | None => None
      | Some r =>
          if Nat.eqb d1 d2 then Some (d1 :: r)
          else if Nat.eqb d1 1 then Some (d2 :: r)
          else if Nat.eqb d2 1 then Some (d1 :: r)
          else None
      end
  | _, _ => None
  end.

(** The index a broadcast operand is read at: 0 along its size-1 dimensions. *)
Fixpoint broadcast_index (sh idx : list nat) : list nat :=
  match sh, idx with
  | d :: sh', i :: idx' =>
      (if Nat.eqb d 1 then 0 else i) :: broadcast_index sh' idx'
  | _, _ => []
  end.

(** Left-pad a shape with 1s up to rank [n]. *)
Definition pad_shape (n : nat) (sh : list nat) : list nat :=
  repeat 1 (n - length sh) ++ sh.

(** An elementwise binary operation with torch broadcasting. *)
Definition binop (f : R -> R -> R) (a b : Tensor) : Result Tensor :=
  let n := Nat.max (rank a) (rank b) in
  let sa := pad_shape n (shape a) in
  let sb := pad_shape n (shape b) in
  match broadcast_shapes sa sb with
  | None => Err RuntimeError
  | Some sh =>
      Ok (tabulate sh
            (fun idx =>
               f (nth (ravel sa (broadcast_index sa idx)) (data a) 0%R)
                 (nth (ravel sb (broadcast_index sb idx)) (data b) 0%R)))
  end.

Definition add : Tensor -> Tensor -> Result Tensor := binop Rplus.
Definition mul : Tensor -> Tensor -> Result Tensor := binop Rmult.

(** [t.view(dims)] and [t.reshape(dims)] with explicit sizes: the contents
    are kept, the element count must agree.  A negative size is refused (the
    one inferred size that torch writes -1 never occurs alone in the modelled
    calls). *)
Definition view (t : Tensor) (dims : list Z) : Result Tensor :=
  if negb (forallb (fun d => Z.leb 0 d) dims) then Err RuntimeError
  else
    let sh := map Z.to_nat dims in
    if Nat.eqb (numel sh) (numel (shape t)) then Ok (mkTensor sh (data t))
    else Err RuntimeError.

(** [torch.softmax(t, dim)]. *)
Definition softmax (dim : nat) (t : Tensor) : Result Tensor :=
  if negb (Nat.ltb dim (rank t)) then Err IndexError
  else
    let n := nth dim (shape t) 0 in
    Ok (tabulate (shape t)
          (fun idx =>
             (exp (get t idx) /
              sumR (map (fun j => exp (get t (set_nth dim j idx)))
                        (seq 0 n)))%R)).

(** [torch.sum(t, dim)]: the dimension is removed. *)
Definition sum (dim : nat) (t : Tensor) : Result Tensor :=
  if negb (Nat.ltb dim (rank t)) then Err IndexError
  else
    let n := nth dim (shape t) 0 in
    Ok (tabulate (drop_nth dim (shape t))
          (fun idx =>
             sumR (map (fun j => get t (insert_nth dim j idx)) (seq 0 n)))).

(** The value of a 4-dimensional tensor at a position that may lie one step
    outside the grid: zero padding. *)
Definition padded (t : Tensor) (b c : nat) (y x : Z) : R :=
  match shape t with
  | [_; _; h; w] =>
      if (Z.leb 0 y && Z.ltb y (Z.of_nat h) &&
          Z.leb 0 x && Z.ltb x (Z.of_nat w))%bool
      then get t [b; c; Z.to_nat y; Z.to_nat x]
      else 0%R
  | _ => 0%R
  end.

(** [F.unfold(t, [3, 3], padding=1)]: [B, C, H, W] to [B, C*9, H*W]; channel
    [c*9 + ki*3 + kj] at block [y*W + x] holds the zero-padded input at
    [(y + ki - 1, x + kj - 1)].  The batch may be empty, the other three
    sizes may not ([RuntimeError]).  A 3-dimensional input [C, H, W] is
    treated as a batch of one and answered without the batch dimension; any
    other rank is refused. *)
Definition unfold3 (t : Tensor) : Result Tensor :=
  match shape t with
  | [b; c; h; w] =>
      if (Nat.eqb c 0 || Nat.eqb h 0 || Nat.eqb w 0)%bool
      then Err RuntimeError
      else
      Ok (tabulate [b; c * 9; h * w]
            (fun idx =>
               match idx with
               | [ib; ic; l] =>
                   let tap := ic mod 9 in
                   padded t ib (ic / 9)
                     (Z.of_nat (l / w) + Z.of_nat (tap / 3) - 1)
                     (Z.of_nat (l mod w) + Z.of_nat (tap mod 3) - 1)
               | _ => 0%R
               end))
  | [c; h; w] =>
      if (Nat.eqb c 0 || Nat.eqb h 0 || Nat.eqb w 0)%bool
      then Err RuntimeError
      else
      Ok (tabulate [c * 9; h * w]
            (fun idx =>
               match idx with
               | [ic; l] =>
                   let tap := ic mod 9 in
                   padded (mkTensor [1; c; h; w] (data t)) 0 (ic / 9)
                     (Z.of_nat (l / w) + Z.of_nat (tap / 3) - 1)
                     (Z.of_nat (l mod w) + Z.of_nat (tap mod 3) - 1)
               | _ => 0%R
               end))
  | _ => Err RuntimeError
  end.

(** Source position of output index [i] on an axis resampled from [n_in] to
    [n_out] points with [align_corners=True]: the lower neighbour and the
    weight of the upper one. *)
Definition source_index (n_in n_out i : nat) : nat * R :=
  if Nat.leb n_out 1 then (0, 0%R)
  else
    let num := i * (n_in - 1) in
    let den := n_out - 1 in
    (num / den, (INR (num mod den) / INR den)%R).

Definition upper_index (n_in i0 : nat) : nat :=
  if Nat.ltb i0 (n_in - 1) then i0 + 1 else i0.

(** The bilinear sample of [t] at output position [(y, x)] of an [ho x wo]
    grid. *)
Definition bilinear_at (t : Tensor) (h w ho wo : nat) (b c y x : nat) : R :=
  let '(y0, ly) := source_index h ho y in
  let '(x0, lx) := source_index w wo x in
  let y1 := upper_index h y0 in
  let x1 := upper_index w x0 in
  ((1 - ly) * ((1 - lx) * get t [b; c; y0; x0] + lx * get t [b; c; y0; x1]) +
   ly * ((1 - lx) * get t [b; c; y1; x0] + lx * get t [b; c; y1; x1]))%R.

(** [F.interpolate(t, scale_factor=k, mode='bilinear', align_corners=True)]
    for a Python integer [k]. *)
Definition interpolate_bilinear (t : Tensor) (k : Z) : Result Tensor :=
  match shape t with
  | [b; c; h; w] =>
      if (Z.leb k 0 || Nat.eqb c 0 || Nat.eqb h 0 || Nat.eqb w 0)%bool
      then Err RuntimeError
      else
        let ho := h * Z.to_nat k in
        let wo := w * Z.to_nat k in
        Ok (tabulate [b; c; ho; wo]
              (fun idx =>
                 match idx with
                 | [ib; ic; y; x] => bilinear_at t h w ho wo ib ic y x
                 | _ => 0%R
                 end))
  | _ => Err NotImplementedError
  end.

End Tensor.

Import Tensor.

(** ** Traces, worlds and the computation monad *)

(** One event per torch call and per collaborator call, in program order. *)
Inductive Event : Type :=
| EvStack
| EvPermute
| EvChunk
| EvCat (dim : nat)
| EvInterpolate (k : Z)
| EvScale (k : Z)
| EvDetach
| EvAdd
| EvMul
| EvView
| EvReshape
| EvSoftmax
| EvUnfold
| EvSum
| EvBackbone
| EvWarp
| EvGlobalCorr (bidir : bool)
| EvLocalCorr (radius : Z)
| EvAttn (local_window : bool) (radius : Z)
| EvUpsampler.

Section Model.

(** Whatever the collaborators read besides their arguments. *)
Variable World : Type.

Record State : Type := mkState { world : World; trace : list Event }.

Definition M (A : Type) : Type := State -> Result A * State.

Definition ret {A : Type} (a : A) : M A := fun s => (Ok a, s).

Definition raise {A : Type} (e : PyError) : M A := fun s => (Err e, s).

Definition bind {A B : Type} (m : M A) (f : A -> M B) : M B :=
  fun s =>
    match m s with
    | (Ok a, s') => f a s'
    | (Err e, s') => (Err e, s')
    end.

Definition log (ev : Event) (s : State) : State :=
  mkState (world s) (trace s ++ [ev]).

(** A torch call: recorded, its result does not depend on the world. *)
Definition torch {A : Type} (ev : Event) (r : Result A) : M A :=
  fun s => (r, log ev s).

(** A collaborator: a function of its arguments and of the world. *)
Definition Extern (A : Type) : Type := World -> Result A * World.

Definition call {A : Type} (ev : Event) (c : Extern A) : M A :=
  fun s =>
    let (r, w') := c (world s) in
    (r, mkState w' (trace s ++ [ev])).

(** A Python-level step that may raise: nothing is recorded. *)
Definition lift {A : Type} (r : Result A) : M A := fun s => (r, s).

End Model.

Arguments ret {World A} a.
Arguments raise {World A} e.
Arguments lift {World A} r.
Arguments torch {World A} ev r.

Declare Scope gm_scope.
Delimit Scope gm_scope with gm.
Notation "x <- m ;; k" := (bind m (fun x => k))
  (at level 61, m at next level, right associativity) : gm_scope.
Notation "' pat <- m ;; k" := (bind m (fun x => match x with pat => k end))
  (at level 61, pat pattern, m at next level, right associativity) : gm_scope.
Open Scope gm_scope.

(** ** The model object and the imported functions *)

Section GMFlow.

Variable World : Type.

(** [self]: the attributes [__init__] stores that the modelled methods read,
    and [nn.Module]'s [training] flag.  The three sub-modules are
    collaborators; [backbone] is [None] unless the caller passes one. *)
Record GMFlow : Type := mkGMFlow {
  num_scales : Z;
  upsample_factor : Z;
  training : bool;
  backbone : option (Tensor -> Extern World Tensor);
  feature_flow_attn : Tensor -> Tensor -> bool -> Z -> Extern World Tensor;
  upsampler : Tensor -> Extern World Tensor
}.

(** The functions imported from [.matching] and [.geometry]; the two
    correlation functions stand for the first component of the pair the
    source indexes with [[0]]. *)
Record Imports : Type := mkImports {
  global_correlation_softmax : Tensor -> Tensor -> bool -> Extern World Tensor;
  local_correlation_softmax : Tensor -> Tensor -> Z -> Extern World Tensor;
  flow_warp : Tensor -> Tensor -> Extern World Tensor
}.

Variable self : GMFlow.
Variable env : Imports.

Local Abbreviation M := (M World).

(** [l[i]] on a Python list, for an index that is not negative. *)
Definition py_index {A : Type} (l : list A) (i : nat) : M A :=
  match nth_error l i with
  | Some x => ret x
  | None => raise IndexError
  end.

(** [len(l)] where [l] may be [None]. *)
Definition py_len {A : Type} (l : option (list A)) : M Z :=
  match l with
  | Some l' => ret (Z.of_nat (length l'))
  | None => raise TypeError
  end.

(** [l[i]] where [l] may be [None]. *)
Definition py_getitem {A : Type} (l : option (list A)) (i : nat) : M A :=
  match l with
  | Some l' => py_index l' i
  | None => raise TypeError
  end.

(** [t.detach()]. *)
Definition detach (t : Tensor) : M Tensor := torch EvDetach (Ok t).

(** *** [extract_feature] (lines 43-52) *)
Definition extract_feature (img0 img1 : Tensor)
  : M (list Tensor * list Tensor) :=
  stacked <- torch EvStack (stack1 img0 img1) ;;
  concat <- torch EvPermute (permute stacked [0; 1; 3; 4; 2]) ;;
  features <- match backbone self with
              | Some net => call EvBackbone (net concat)
              | None => raise TypeError
              end ;;
  chunks <- torch EvChunk (chunk2_dim1 features) ;;
  c0 <- py_index chunks 0 ;;
  c1 <- py_index chunks 1 ;;
  ret ([c0], [c1]).

(** *** [upsample_flow] (lines 54-77) *)
Definition upsample_flow (flow : Tensor) (feature : option Tensor)
  (bilinear : bool) (upsample_factor_arg : Z) : M Tensor :=
  if bilinear then
    up <- torch (EvInterpolate upsample_factor_arg)
            (interpolate_bilinear flow upsample_factor_arg) ;;
    torch (EvScale upsample_factor_arg) (Ok (scale upsample_factor_arg up))
  else
    (* convex upsampling *)
    concat <- torch (EvCat 1)
                (match feature with
                 | Some f => cat 1 flow f
                 | None => Err TypeError
                 end) ;;
    mask <- call EvUpsampler (upsampler self concat) ;;
    '(b, flow_channel, h, w) <- lift (shape4 flow) ;;
    let k := upsample_factor self in
    mask <- torch EvView
              (view mask [Z.of_nat b; 1; 9; k; k; Z.of_nat h; Z.of_nat w]%Z) ;;
    mask <- torch EvSoftmax (softmax 2 mask) ;;
    scaled <- torch (EvScale k) (Ok (scale k flow)) ;;
    up_flow <- torch EvUnfold (unfold3 scaled) ;;
    up_flow <- torch EvView
                 (view up_flow [Z.of_nat b; Z.of_nat flow_channel; 9; 1; 1;
                                Z.of_nat h; Z.of_nat w]%Z) ;;
    prod <- torch EvMul (mul mask up_flow) ;;
    up_flow <- torch EvSum (sum 2 prod) ;;
    up_flow <- torch EvPermute (permute up_flow [0; 1; 4; 2; 5; 3]) ;;
    torch EvReshape
      (view up_flow [Z.of_nat b; Z.of_nat flow_channel;
                     k * Z.of_nat h; k * Z.of_nat w]%Z).

(** *** [forward_image] (lines 79-165) *)

(** Line 97: the chained comparison evaluates its operands left to right and
    stops at the first pair that differs. *)
Definition check_lengths (attn_splits_list corr_radius_list
  prop_radius_list : option (list Z)) : M unit :=
  la <- py_len attn_splits_list ;;
  lb <- py_len corr_radius_list ;;
  if negb (Z.eqb la lb) then raise AssertionError
  else
    lc <- py_len prop_radius_list ;;
    if negb (Z.eqb lb lc) then raise AssertionError
    else if negb (Z.eqb lc (num_scales self)) then raise AssertionError
    else ret tt.

(** Line 108.  For an index of [range(self.num_scales)] the exponent is not
    negative, so Python's [**] is the integer power. *)
Definition scale_upsample_factor (scale_idx : nat) : Z :=
  (upsample_factor self * 2 ^ (num_scales self - 1 - Z.of_nat scale_idx))%Z.

Section Scale.

Variables feature0_list feature1_list : list Tensor.
Variables attn_splits_list corr_radius_list prop_radius_list : option (list Z).
Variable pred_bidir_flow : bool.
Variable scale_idx : nat.

(** Lines 101-133: the features of the scale, the running flow brought to
    this resolution, the warp, the correlation and the accumulation.
    Returns [feature0], [feature1], the radius of the propagation and the
    accumulated flow. *)
Definition scale_match (flow : option Tensor)
  : M (Tensor * Tensor * Z * Tensor) :=
  feature0 <- py_index feature0_list scale_idx ;;
  feature1 <- py_index feature1_list scale_idx ;;
  '(feature0, feature1) <-
     (if pred_bidir_flow && Nat.ltb 0 scale_idx then
        a <- torch (EvCat 0) (cat 0 feature0 feature1) ;;
        b <- torch (EvCat 0) (cat 0 feature1 feature0) ;;
        ret (a, b)
      else ret (feature0, feature1)) ;;
  flow <- (if Nat.ltb 0 scale_idx then
             match flow with
             | Some fl =>
                 up <- torch (EvInterpolate 2) (interpolate_bilinear fl 2) ;;
                 up2 <- torch (EvScale 2) (Ok (scale 2 up)) ;;
                 ret (Some up2)
             | None => raise AttributeError
             end
           else ret flow) ;;
  '(flow, feature1) <-
     match flow with
     | Some fl =>
         fl' <- detach fl ;;
         warped <- call EvWarp (flow_warp env feature1 fl') ;;
         ret (Some fl', warped)
     | None => ret (None, feature1)
     end ;;
  attn_splits <- py_getitem attn_splits_list scale_idx ;;
  corr_radius <- py_getitem corr_radius_list scale_idx ;;
  prop_radius <- py_getitem prop_radius_list scale_idx ;;
  flow_pred <-
     (if Z.eqb corr_radius (-1) then
        call (EvGlobalCorr pred_bidir_flow)
          (global_correlation_softmax env feature0 feature1 pred_bidir_flow)
      else
        call (EvLocalCorr corr_radius)
          (local_correlation_softmax env feature0 feature1 corr_radius)) ;;
  flow <- match flow with
          | Some fl => torch EvAdd (add fl flow_pred)
          | None => ret flow_pred
          end ;;
  ret (feature0, feature1, prop_radius, flow).

Definition is_last_scale : bool :=
  Z.eqb (Z.of_nat scale_idx) (num_scales self - 1).

Definition is_training_intermediate : bool :=
  training self && Z.ltb (Z.of_nat scale_idx) (num_scales self - 1).

(** Lines 138-144: the predictions appended before the propagation. *)
Definition upsample_before_propagation (flow feature0 : Tensor)
  (flow_preds : list Tensor) : M (list Tensor) :=
  flow_preds <-
     (if is_training_intermediate then
        flow_bilinear <- upsample_flow flow None true
                           (scale_upsample_factor scale_idx) ;;
        ret (flow_preds ++ [flow_bilinear])
      else ret flow_preds) ;;
  if is_last_scale then
    flow_convex <- upsample_flow flow (Some feature0) false 8 ;;
    ret (flow_preds ++ [flow_convex])
  else ret flow_preds.

(** Lines 147-151: the propagation; returns [feature0] as rebound on line
    148 and the propagated flow. *)
Definition propagate (feature0 feature1 : Tensor) (prop_radius : Z)
  (flow : Tensor) : M (Tensor * Tensor) :=
  feature0 <- (if pred_bidir_flow && Nat.eqb scale_idx 0 then
                 torch (EvCat 0) (cat 0 feature0 feature1)
               else ret feature0) ;;
  detached <- detach flow ;;
  flow <- call (EvAttn (Z.ltb 0 prop_radius) prop_radius)
            (feature_flow_attn self feature0 detached
               (Z.ltb 0 prop_radius) prop_radius) ;;
  ret (feature0, flow).

(** Lines 155-161: the predictions appended after the propagation. *)
Definition upsample_after_propagation (flow feature0 : Tensor)
  (flow_preds : list Tensor) : M (list Tensor) :=
  flow_preds <-
     (if is_training_intermediate then
        flow_up <- upsample_flow flow (Some feature0) true
                     (scale_upsample_factor scale_idx) ;;
        ret (flow_preds ++ [flow_up])
      else ret flow_preds) ;;
  if is_last_scale then
    flow_up <- upsample_flow flow (Some feature0) false 8 ;;
    ret (flow_preds ++ [flow_up])
  else ret flow_preds.

(** One iteration of the loop of line 99: from the running flow and the
    predictions so far to the running flow and the predictions after it. *)
Definition scale_iter (st : option Tensor * list Tensor)
  : M (option Tensor * list Tensor) :=
  let '(flow, flow_preds) := st in
  '(feature0, feature1, prop_radius, flow) <- scale_match flow ;;
  flow_preds <- upsample_before_propagation flow feature0 flow_preds ;;
  '(feature0, flow) <- propagate feature0 feature1 prop_radius flow ;;
  flow_preds <- upsample_after_propagation flow feature0 flow_preds ;;
  ret (Some flow, flow_preds).

End Scale.

(** The loop of line 99 over the given scale indices. *)
Fixpoint scale_loop (feature0_list feature1_list : list Tensor)
  (attn_splits_list corr_radius_list prop_radius_list : option (list Z))
  (pred_bidir_flow : bool) (scales : list nat)
  (st : option Tensor * list Tensor) : M (option Tensor * list Tensor) :=
  match scales with
  | [] => ret st
  | scale_idx :: rest =>
      st' <- scale_iter feature0_list feature1_list attn_splits_list
               corr_radius_list prop_radius_list pred_bidir_flow scale_idx st ;;
      scale_loop feature0_list feature1_list attn_splits_list
        corr_radius_list prop_radius_list pred_bidir_flow rest st'
  end.

(** [range(self.num_scales)]. *)
Definition scale_range : list nat := seq 0 (Z.to_nat (num_scales self)).

(** Lines 95-163 on given feature lists: the assertion, the loop from
    [flow = None] and no prediction, and the list stored under
    ['flow_preds']. *)
Definition forward_scales (feature0_list feature1_list : list Tensor)
  (attn_splits_list corr_radius_list prop_radius_list : option (list Z))
  (pred_bidir_flow : bool) : M (list Tensor) :=
  _ <- check_lengths attn_splits_list corr_radius_list prop_radius_list ;;
  st <- scale_loop feature0_list feature1_list attn_splits_list
          corr_radius_list prop_radius_list pred_bidir_flow scale_range
          (None, []) ;;
  ret (snd st).

Definition forward_image (img0 img1 : Tensor)
  (attn_splits_list corr_radius_list prop_radius_list : option (list Z))
  (pred_bidir_flow : bool) : M (list Tensor) :=
  '(feature0_list, feature1_list) <- extract_feature img0 img1 ;;
  forward_scales feature0_list feature1_list attn_splits_list
    corr_radius_list prop_radius_list pred_bidir_flow.

End GMFlow.

(** ** Vocabulary of the statements *)

(** Tap [j] (row [j / 3], column [j mod 3]) of the zero-padded 3x3
    neighbourhood of [t] around the coarse position [(y, x)]. *)
Definition neighbourhood_tap (t : Tensor) (ib ic y x j : nat) : R :=
  padded t ib ic (Z.of_nat y + Z.of_nat (j / 3) - 1)
    (Z.of_nat x + Z.of_nat (j mod 3) - 1).

(** The weight of tap [j] that a mask of shape [B, 1, 9, K, K, H, W] gives
    to sub-pixel [(kh, kw)] of the coarse position [(y, x)]. *)
Definition mask_weight (mask : Tensor) (ib kh kw y x j : nat) : R :=
  get mask [ib; 0; j; kh; kw; y; x].

(** An event that names a factor (an interpolation or a multiplication by a
    Python integer) names the factor [f]. *)
Definition uses_factor (f : Z) (e : Event) : Prop :=
  match e with
  | EvInterpolate k | EvScale k => k = f
  | _ => True
  end.

(** The number of predictions of scale [s] of [n] scales, as the spec
    counts them: 2 at the last scale, and at any other scale 2 in training
    mode and none in inference mode. *)
Definition entries_at_scale (train : bool) (n : Z) (s : nat) : nat :=
  if Z.eqb (Z.of_nat s) (n - 1) then 2
  else if train then 2 else 0.

(** A collaborator whose result does not depend on the world. *)
Definition deterministic {World A : Type} (c : Extern World A) : Prop :=
  forall w1 w2, fst (c w1) = fst (c w2).

(** No stochastic element: every collaborator of the model and every
    imported function is deterministic. *)
Definition no_stochastic_elements {World : Type} (self : GMFlow World)
  (env : Imports World) : Prop :=
  (forall net, backbone self = Some net -> forall t, deterministic (net t)) /\
  (forall f x lw r, deterministic (feature_flow_attn self f x lw r)) /\
  (forall t, deterministic (upsampler self t)) /\
  (forall f0 f1 bd, deterministic (global_correlation_softmax env f0 f1 bd)) /\
  (forall f0 f1 r, deterministic (local_correlation_softmax env f0 f1 r)) /\
  (forall f x, deterministic (flow_warp env f x)).

(** ** Contracts of the collaborators in bidirectional mode *)

(** Modelled from the spec: [global_correlation_softmax] of [.matching],
    which is not among the sources.  The spec has it return a flow field of
    2 channels at the resolution of its inputs, and, asked for symmetric
    output, a batch twice that of the inputs whose first half is the flow
    from [feature0] to [feature1] and whose second half is the flow from
    [feature1] to [feature0].  [flow_of a b] stands for the flow from [a] to
    [b]. *)
Definition bidirectional_correlation_contract {World : Type}
  (env : Imports World) (flow_of : Tensor -> Tensor -> Tensor) : Prop :=
  forall (f0 f1 : Tensor) (b c h w : nat) (wd wd' : World) (r : Tensor),
    shape f0 = [b; c; h; w] -> shape f1 = [b; c; h; w] ->
    global_correlation_softmax env f0 f1 true wd = (Ok r, wd') ->
    shape (flow_of f0 f1) = [b; 2; h; w] /\
    shape (flow_of f1 f0) = [b; 2; h; w] /\
    cat 0 (flow_of f0 f1) (flow_of f1 f0) = Ok r.

(** Modelled from the spec: the shape half of the contract above, the
    doubled batch. *)
Definition bidirectional_correlation_doubles_batch {World : Type}
  (env : Imports World) : Prop :=
  forall (f0 f1 : Tensor) (b c h w : nat) (wd wd' : World) (r : Tensor),
    shape f0 = [b; c; h; w] -> shape f1 = [b; c; h; w] ->
    global_correlation_softmax env f0 f1 true wd = (Ok r, wd') ->
    shape r = [2 * b; 2; h; w].

(** Modelled from the spec: the forward pass of [FeatureFlowAttention] of
    [.transformer], which is not among the sources.  The spec has its output
    at the resolution and with the channels of the flow it is given; it
    treats the elements of a batch one by one, so on two batches joined
    along the batch dimension it answers the two propagated flows joined the
    same way.  [propagated f x local radius] stands for the flow [x]
    propagated on the features [f]. *)
Definition batchwise_propagation_contract {World : Type}
  (self : GMFlow World)
  (propagated : Tensor -> Tensor -> bool -> Z -> Tensor) : Prop :=
  forall (fa fb xa xb fcat xcat out : Tensor) (b c h w : nat)
    (local_window : bool) (radius : Z) (wd wd' : World),
    shape fa = [b; c; h; w] -> shape fb = [b; c; h; w] ->
    shape xa = [b; 2; h; w] -> shape xb = [b; 2; h; w] ->
    cat 0 fa fb = Ok fcat -> cat 0 xa xb = Ok xcat ->
    feature_flow_attn self fcat xcat local_window radius wd = (Ok out, wd') ->
    shape (propagated fa xa local_window radius) = [b; 2; h; w] /\
    shape (propagated fb xb local_window radius) = [b; 2; h; w] /\
    cat 0 (propagated fa xa local_window radius)
          (propagated fb xb local_window radius) = Ok out.

(** Every event the computation appends satisfies [P]. *)
Definition emits {World A : Type} (P : Event -> Prop) (m : M World A) : Prop :=
  forall st, exists evs,
    trace (snd (m st)) = trace st ++ evs /\ Forall P evs.

(** The result does not depend on the world the computation starts in, nor
    on what was recorded before. *)
Definition world_independent {World A : Type} (m : M World A) : Prop :=
  forall s1 s2, fst (m s1) = fst (m s2).

(** ** The calls of a run, in program order *)

(** The calls of the convex branch of [upsample_flow] (lines 62-75). *)
Definition convex_events (k : Z) : list Event :=
  [EvCat 1; EvUpsampler; EvView; EvSoftmax; EvScale k; EvUnfold;
   EvView; EvMul; EvSum; EvPermute; EvReshape].

(** The correlation call of lines 127-130: global for a radius of -1, local
    otherwise. *)
Definition correlation_event (corr_radius : Z) (bidir : bool) : Event :=
  if Z.eqb corr_radius (-1) then EvGlobalCorr bidir
  else EvLocalCorr corr_radius.

(** The calls of the loop of line 99 for a single scale in one direction: the
    correlation, the convex upsampling of line 143, the propagation of the
    detached flow, and the convex upsampling of line 160. *)
Definition one_scale_events (k corr_radius prop_radius : Z) : list Event :=
  [correlation_event corr_radius false] ++ convex_events k ++
  [EvDetach; EvAttn (Z.ltb 0 prop_radius) prop_radius] ++ convex_events k.

(** An event other than a call of the upsampler network. *)
Definition not_upsampler (e : Event) : Prop := e <> EvUpsampler.

(** If the event is a bilinear interpolation, it is the twofold one. *)
Definition interpolates_by_two (e : Event) : Prop :=
  match e with
  | EvInterpolate k => k = 2%Z
  | _ => True
  end.

(** ** The iterations of the loop *)

(** What one iteration of the loop of line 99 went through: [feature0] and
    [feature1] as lines 101-116 leave them, the propagation radius of the
    scale, the flow accumulated on line 133, the state after line 133 and the
    state after the predictions of lines 138-144, [feature0] as line 148
    leaves it, the flow propagated on line 149 and the state after it, the
    state after the predictions of lines 155-161, and the predictions the
    iteration appended to [flow_preds], in order. *)
Record Iteration (World : Type) : Type := mkIteration {
  matched_feature0 : Tensor;
  matched_feature1 : Tensor;
  matched_prop_radius : Z;
  accumulated_flow : Tensor;
  state_matched : State World;
  state_before : State World;
  propagation_feature0 : Tensor;
  propagated_flow : Tensor;
  state_propagated : State World;
  state_after : State World;
  entries : list Tensor
}.

(** [p] is the bilinear upsample of [x] by [k] that [upsample_flow] returned
    from the state [st], leaving [st']: [k] times the interpolation of [x]. *)
Definition bilinear_upsample_of {World : Type} (self : GMFlow World)
  (x : Tensor) (feature : option Tensor) (k : Z) (st : State World)
  (p : Tensor) (st' : State World) : Prop :=
  upsample_flow self x feature true k st = (Ok p, st') /\
  exists up, interpolate_bilinear x k = Ok up /\ p = scale k up.

(** [p] is the convex upsample of [x] that [upsample_flow] returned from the
    state [st] for the feature map [f], leaving [st']: the eleven calls of
    lines 62-75 were made, the upsampler network among them, and [p] has
    [self.upsample_factor] times the resolution of [x]. *)
Definition convex_upsample_of {World : Type} (self : GMFlow World)
  (x f : Tensor) (st : State World) (p : Tensor) (st' : State World) : Prop :=
  upsample_flow self x (Some f) false 8 st = (Ok p, st') /\
  trace st' = trace st ++ convex_events (upsample_factor self) /\
  exists b c h w,
    shape x = [b; c; h; w] /\
    shape p = [b; c; Z.to_nat (upsample_factor self) * h;
               Z.to_nat (upsample_factor self) * w].

(** The iteration before iteration [s], if there is one. *)
Definition previous {A : Type} (iterations : list A) (s : nat) : option A :=
  match s with
  | 0 => None
  | S s' => nth_error iterations s'
  end.

(** ** A concrete model

    A small instance on which the statements below are exercised.  Its world
    counts the collaborator calls; the backbone keeps the first colour
    channel of each image, the correlation answers the difference of the two
    feature maps, the warp and the propagation return their tensor unchanged,
    and the upsampler network answers a zero mask of the right size. *)

Module Demo.

Definition constant (sh : list nat) (v : R) : Tensor :=
  tabulate sh (fun _ => v).

Definition backbone (t : Tensor) : Extern nat Tensor :=
  fun calls =>
    (match shape t with
     | [b; n; h; w; _] =>
         Ok (tabulate [b; n; h; w] (fun idx => get t (idx ++ [0])))
     | _ => Err RuntimeError
     end, S calls).

Definition flow_between (a b : Tensor) : Tensor :=
  match shape a with
  | [n; _; h; w] =>
      tabulate [n; 2; h; w]
        (fun idx =>
           match idx with
           | [i; _; y; x] => Rminus (get b [i; 0; y; x]) (get a [i; 0; y; x])
           | _ => 0%R
           end)
  | _ => constant [0] 0
  end.

Definition global_correlation (f0 f1 : Tensor) (bidir : bool)
  : Extern nat Tensor :=
  fun calls =>
    (if bidir then cat 0 (flow_between f0 f1) (flow_between f1 f0)
     else Ok (flow_between f0 f1), S calls).

Definition local_correlation (f0 f1 : Tensor) (radius : Z)
  : Extern nat Tensor :=
  fun calls => (Ok (flow_between f0 f1), S calls).

Definition warp (f flow : Tensor) : Extern nat Tensor :=
  fun calls => (Ok f, S calls).

Definition attention (feature flow : Tensor) (local_window : bool)
  (radius : Z) : Extern nat Tensor :=
  fun calls => (Ok flow, S calls).

Definition network (k : nat) (concat : Tensor) : Extern nat Tensor :=
  fun calls =>
    (match shape concat with
     | [b; _; h; w] => Ok (constant [b; 9 * k * k; h; w] 0)
     | _ => Err RuntimeError
     end, S calls).

Definition model (n k : Z) (train : bool) : GMFlow nat :=
  mkGMFlow n k train (Some backbone) attention (network (Z.to_nat k)).

Definition imports : Imports nat :=
  mkImports global_correlation local_correlation warp.

(** A 1x1 image pair, one feature map per scale for two scales, and a flow
    field. *)
Definition image0 : Tensor := mkTensor [1; 3; 1; 1] [1; 2; 3]%R.
Definition image1 : Tensor := mkTensor [1; 3; 1; 1] [4; 5; 6]%R.
Definition coarse0 : Tensor := mkTensor [1; 1; 1; 1] [1]%R.
Definition coarse1 : Tensor := mkTensor [1; 1; 1; 1] [4]%R.
Definition fine0 : Tensor := mkTensor [1; 1; 2; 2] [1; 2; 3; 4]%R.
Definition fine1 : Tensor := mkTensor [1; 1; 2; 2] [2; 4; 6; 8]%R.
Definition flow0 : Tensor := mkTensor [1; 2; 1; 1] [3; 5]%R.

Definition start : State nat := mkState 0 [].

End Demo.

(** * Properties and claims *)

Unset Implicit Arguments.

(** ** Indexing *)

Module TensorFacts.

Lemma ravel_lt (sh idx : list nat) :
  valid_index sh idx -> ravel sh idx < numel sh.
Proof.
  unfold valid_index. intros H.
  induction H as [|i d idx' sh' Hid _ IH]; simpl; [lia|nia].
Qed.

Lemma unravel_ravel (sh idx : list nat) :
  valid_index sh idx -> unravel sh (ravel sh idx) = idx.
Proof.
  unfold valid_index. intros H.
  induction H as [|i d idx' sh' Hid Hrest IH]; simpl; [reflexivity|].
  pose proof (ravel_lt _ _ Hrest) as Hlt.
  assert (Hn : numel sh' <> 0) by lia.
  rewrite Nat.div_add_l by exact Hn.
  rewrite (Nat.div_small _ _ Hlt), Nat.add_0_r.
  rewrite Nat.add_comm, Nat.Div0.mod_add, (Nat.mod_small _ _ Hlt).
  now rewrite IH.
Qed.

Lemma nth_tabulated (n : nat) (g : nat -> R) (i : nat) :
  i < n -> nth i (map g (seq 0 n)) 0%R = g i.
Proof.
  intros Hi.
  rewrite (nth_indep _ 0%R (g 0)) by now rewrite length_map, length_seq.
  rewrite map_nth, seq_nth by exact Hi. reflexivity.
Qed.

Lemma get_tabulate (sh : list nat) (f : list nat -> R) (idx : list nat) :
  valid_index sh idx -> get (tabulate sh f) idx = f idx.
Proof.
  intros H. unfold get, tabulate; simpl.
  rewrite nth_tabulated by now apply ravel_lt.
  now rewrite unravel_ravel.
Qed.

Lemma get_scale (k : Z) (t : Tensor) (idx : list nat) :
  get (scale k t) idx = (IZR k * get t idx)%R.
Proof.
  unfold get, scale; simpl.
  rewrite <- (Rmult_0_r (IZR k)) at 1.
  now rewrite (map_nth (fun x => (IZR k * x)%R)).
Qed.

(** A view reads the same row-major contents. *)
Lemma get_view (t v : Tensor) (dims : list Z) (idx : list nat) :
  view t dims = Ok v ->
  get v idx = nth (ravel (shape v) idx) (data t) 0%R.
Proof.
  unfold view. destruct (negb _); [discriminate|].
  destruct (Nat.eqb _ _); [|discriminate].
  intros [= <-]. reflexivity.
Qed.

Lemma shape_view (t v : Tensor) (dims : list Z) :
  view t dims = Ok v ->
  shape v = map Z.to_nat dims /\ numel (shape v) = numel (shape t) /\
  Forall (fun d => (0 <= d)%Z) dims.
Proof.
  unfold view. destruct (forallb _ dims) eqn:Hall; simpl; [|discriminate].
  destruct (Nat.eqb _ _) eqn:Hn; [|discriminate].
  intros [= <-]. simpl. repeat split.
  - now apply Nat.eqb_eq.
  - rewrite forallb_forall in Hall. apply Forall_forall.
    intros d Hd. apply Z.leb_le. now apply Hall.
Qed.

Lemma valid_index_cons (d i : nat) (sh idx : list nat) :
  i < d -> valid_index sh idx -> valid_index (d :: sh) (i :: idx).
Proof. intros; now constructor. Qed.

Lemma valid_index_nil : valid_index [] [].
Proof. constructor. Qed.

Lemma get_view_tabulate (sh : list nat) (f : list nat -> R) (dims : list Z)
  (v : Tensor) (idx : list nat) :
  view (tabulate sh f) dims = Ok v ->
  valid_index (shape v) idx ->
  get v idx = f (unravel sh (ravel (shape v) idx)).
Proof.
  intros Hv Hidx.
  rewrite (get_view _ _ _ idx Hv).
  destruct (shape_view _ _ _ Hv) as (_ & Hn & _). simpl in Hn.
  unfold tabulate; simpl.
  rewrite nth_tabulated; [reflexivity|].
  rewrite <- Hn. now apply ravel_lt.
Qed.

Lemma softmax_inv (dim : nat) (t m : Tensor) :
  softmax dim t = Ok m ->
  m = tabulate (shape t)
        (fun idx =>
           (exp (get t idx) /
            sumR (map (fun j => exp (get t (set_nth dim j idx)))
                      (seq 0%nat (nth dim (shape t) 0%nat))))%R).
Proof.
  unfold softmax. destruct (negb _); [discriminate|]. now intros [= <-].
Qed.

Lemma sum_inv (dim : nat) (t m : Tensor) :
  sum dim t = Ok m ->
  m = tabulate (drop_nth dim (shape t))
        (fun idx =>
           sumR (map (fun j => get t (insert_nth dim j idx))
                     (seq 0 (nth dim (shape t) 0)))).
Proof.
  unfold sum. destruct (negb _); [discriminate|]. now intros [= <-].
Qed.

Lemma permute_inv (t m : Tensor) (perm : list nat) :
  permute t perm = Ok m ->
  m = tabulate (map (fun p => nth p (shape t) 0) perm)
        (fun idx' =>
           get t (map (fun d => nth (index_of d perm) idx' 0)
                      (seq 0 (rank t)))).
Proof.
  unfold permute. destruct (negb _); [discriminate|]. now intros [= <-].
Qed.

Lemma mul_inv (a b m : Tensor) :
  mul a b = Ok m ->
  let n := Nat.max (rank a) (rank b) in
  exists sh,
    broadcast_shapes (pad_shape n (shape a)) (pad_shape n (shape b)) = Some sh /\
    m = tabulate sh
          (fun idx =>
             (nth (ravel (pad_shape n (shape a))
                     (broadcast_index (pad_shape n (shape a)) idx))
                  (data a) 0 *
              nth (ravel (pad_shape n (shape b))
                     (broadcast_index (pad_shape n (shape b)) idx))
                  (data b) 0)%R).
Proof.
  unfold mul, binop. cbv zeta.
  destruct (broadcast_shapes _ _) as [sh|]; [|discriminate].
  intros [= <-]. now exists sh.
Qed.

Lemma unfold3_inv (t u : Tensor) (b c h w : nat) :
  shape t = [b; c; h; w] ->
  unfold3 t = Ok u ->
  h * w <> 0 /\
  u = tabulate [b; c * 9; h * w]
        (fun idx =>
           match idx with
           | [ib; ic; l] =>
               padded t ib (ic / 9)
                 (Z.of_nat (l / w) + Z.of_nat ((ic mod 9) / 3) - 1)
                 (Z.of_nat (l mod w) + Z.of_nat ((ic mod 9) mod 3) - 1)
           | _ => 0%R
           end).
Proof.
  unfold unfold3. intros ->.
  destruct (Nat.eqb_spec c 0) as [Ec|Ec]; [discriminate|].
  destruct (Nat.eqb_spec h 0) as [Eh|Eh]; [discriminate|].
  destruct (Nat.eqb_spec w 0) as [Ew|Ew]; [discriminate|].
  intros [= <-]. split; [nia|reflexivity].
Qed.

(** [F.unfold] refuses an input without channels. *)
Lemma unfold3_channels (t u : Tensor) (b c h w : nat) :
  shape t = [b; c; h; w] -> unfold3 t = Ok u -> 0 < c.
Proof.
  unfold unfold3. intros ->.
  destruct (Nat.eqb_spec c 0) as [Ec|Ec]; [discriminate|]. lia.
Qed.

Lemma unfold3_ok (t : Tensor) (b c h w : nat) :
  shape t = [b; c; h; w] -> 0 < c -> 0 < h -> 0 < w ->
  exists u, unfold3 t = Ok u /\ shape u = [b; c * 9; h * w].
Proof.
  intros Hs Hc Hh Hw. unfold unfold3. rewrite Hs.
  destruct (Nat.eqb_spec c 0) as [Ec|Ec]; [lia|].
  destruct (Nat.eqb_spec h 0) as [Eh|Eh]; [lia|].
  destruct (Nat.eqb_spec w 0) as [Ew|Ew]; [lia|].
  eexists. split; reflexivity.
Qed.

(** Concatenation of two operands of rank 4, neither of which is left
    out. *)
Lemma cat_rank4 (dim : nat) (a b : Tensor) (n c h w n' c' h' w' : nat) :
  shape a = [n; c; h; w] -> shape b = [n'; c'; h'; w'] -> dim < 4 ->
  cat dim a b
  = if negb (cat_compatible dim (shape a) (shape b)) then Err RuntimeError
    else
      Ok (tabulate
            (set_nth dim (nth dim (shape a) 0 + nth dim (shape b) 0) (shape a))
            (fun idx =>
               if Nat.ltb (nth dim idx 0) (nth dim (shape a) 0) then get a idx
               else get b (set_nth dim (nth dim idx 0 - nth dim (shape a) 0)
                             idx))).
Proof.
  intros Ha Hb Hd. unfold cat, cat_skipped, rank, shape_eqb.
  rewrite Ha, Hb. cbn [length Nat.eqb orb].
  destruct (list_eq_dec Nat.eq_dec [n; c; h; w] [0]) as [E|_];
    [discriminate E|].
  destruct (list_eq_dec Nat.eq_dec [n'; c'; h'; w'] [0]) as [E|_];
    [discriminate E|].
  cbn [andb].
  destruct (Nat.leb_spec 4 dim) as [Hle|_]; [lia|]. reflexivity.
Qed.

(** A concatenation that succeeds with a first operand of rank 4: the second
    operand is the 1-dimensional empty tensor and is left out, or it has rank
    4 too and agrees with the first outside [dim]. *)
Lemma cat_ok_rank4 (dim : nat) (a b t : Tensor) (n c h w : nat) :
  shape a = [n; c; h; w] -> cat dim a b = Ok t ->
  dim < 4 /\
  ((shape b = [0] /\ t = a) \/
   (rank b = 4 /\ cat_compatible dim (shape a) (shape b) = true /\
    shape t
    = set_nth dim (nth dim (shape a) 0 + nth dim (shape b) 0) (shape a))).
Proof.
  intros Ha. unfold cat, cat_skipped, rank, shape_eqb. rewrite Ha.
  cbn [length Nat.eqb orb].
  destruct (Nat.eqb (length (shape b)) 0); [discriminate|].
  destruct (list_eq_dec Nat.eq_dec [n; c; h; w] [0]) as [E|_];
    [discriminate E|].
  cbn [andb].
  destruct (Nat.leb_spec 4 dim) as [Hle|Hlt]; [discriminate|].
  intros Hcat. split; [exact Hlt|]. revert Hcat.
  destruct (list_eq_dec Nat.eq_dec (shape b) [0]) as [E|_].
  - intros [= <-]. left. now split.
  - destruct (cat_compatible dim [n; c; h; w] (shape b)) eqn:Ec;
      cbn [negb]; [|discriminate].
    intros [= <-]. right. split; [|split; [reflexivity|reflexivity]].
    unfold cat_compatible in Ec.
    apply andb_true_iff in Ec. destruct Ec as [Ec _].
    apply andb_true_iff in Ec. destruct Ec as [Ec _].
    apply Nat.eqb_eq in Ec. cbn [length] in Ec. now rewrite <- Ec.
Qed.

Lemma broadcast_keep (d i : nat) : i < d -> (if Nat.eqb d 1 then 0 else i) = i.
Proof. intros H. destruct (Nat.eqb_spec d 1); lia. Qed.

Lemma sumR_div (e : nat -> R) (s : R) (l : list nat) :
  sumR (map (fun t => (e t / s)%R) l) = (sumR (map e l) / s)%R.
Proof.
  induction l as [|t l IH]; simpl; [lra|]. rewrite IH. lra.
Qed.

Lemma sumR_exp_pos (e : nat -> R) (l : list nat) :
  l <> [] -> (0 < sumR (map (fun t => exp (e t)) l))%R.
Proof.
  intros Hl. destruct l as [|t l]; [congruence|]. clear Hl.
  revert t. induction l as [|u l IH]; intros t; simpl.
  - pose proof (exp_pos (e t)). lra.
  - pose proof (exp_pos (e t)). specialize (IH u). simpl in IH. lra.
Qed.

Lemma weighted_sum_bounds (wt tap : nat -> R) (l : list nat) (lo hi : R) :
  (forall t, In t l -> (0 <= wt t)%R) ->
  (forall t, In t l -> (lo <= tap t <= hi)%R) ->
  (lo * sumR (map wt l) <= sumR (map (fun t => wt t * tap t) l)
   <= hi * sumR (map wt l))%R.
Proof.
  induction l as [|t l IH]; intros Hw Ht; simpl; [lra|].
  assert (H0 := Hw t (or_introl eq_refl)).
  assert (H1 := Ht t (or_introl eq_refl)).
  destruct IH as [IHl IHh].
  - intros u Hu. apply Hw. now right.
  - intros u Hu. apply Ht. now right.
  - split; nra.
Qed.

Lemma convex_shapes (K : Z) (flow raw viewed mask unf upv prod summed perm out : Tensor)
  (b c h w : nat) :
  shape flow = [b; c; h; w] ->
  view raw [Z.of_nat b; 1; 9; K; K; Z.of_nat h; Z.of_nat w]%Z = Ok viewed ->
  softmax 2 viewed = Ok mask ->
  unfold3 (scale K flow) = Ok unf ->
  view unf [Z.of_nat b; Z.of_nat c; 9; 1; 1; Z.of_nat h; Z.of_nat w]%Z = Ok upv ->
  mul mask upv = Ok prod ->
  sum 2 prod = Ok summed ->
  permute summed [0; 1; 4; 2; 5; 3] = Ok perm ->
  view perm [Z.of_nat b; Z.of_nat c; K * Z.of_nat h; K * Z.of_nat w]%Z = Ok out ->
  let Kn := Z.to_nat K in
  (0 <= K)%Z /\
  shape viewed = [b; 1; 9; Kn; Kn; h; w] /\
  shape mask = [b; 1; 9; Kn; Kn; h; w] /\
  shape upv = [b; c; 9; 1; 1; h; w] /\
  shape prod = [b; c; 9; Kn; Kn; h; w] /\
  shape summed = [b; c; Kn; Kn; h; w] /\
  shape perm = [b; c; h; Kn; w; Kn] /\
  shape out = [b; c; Kn * h; Kn * w].
Proof.
  intros Hflow Hviewed Hmask Hunf Hupv Hprod Hsum Hperm Hout Kn.
  destruct (shape_view _ _ _ Hviewed) as (Hsv & _ & Hpos).
  assert (HK : (0 <= K)%Z).
  { rewrite Forall_forall in Hpos. apply Hpos. simpl. tauto. }
  cbn [map] in Hsv. rewrite !Nat2Z.id in Hsv. fold Kn in Hsv.
  change (Z.to_nat 1) with 1 in Hsv. change (Z.to_nat 9) with 9 in Hsv.
  assert (Hsm : shape mask = [b; 1; 9; Kn; Kn; h; w]).
  { rewrite (softmax_inv _ _ _ Hmask). simpl. exact Hsv. }
  destruct (shape_view _ _ _ Hupv) as (Hsu & _ & _).
  cbn [map] in Hsu. rewrite !Nat2Z.id in Hsu.
  change (Z.to_nat 1) with 1 in Hsu. change (Z.to_nat 9) with 9 in Hsu.
  assert (Hsp : shape prod = [b; c; 9; Kn; Kn; h; w]).
  { destruct (mul_inv _ _ _ Hprod) as (sh & Hb & ->). simpl.
    unfold rank in Hb. rewrite Hsm, Hsu in Hb. cbn -[Nat.eqb] in Hb.
    rewrite !Nat.eqb_refl in Hb. revert Hb.
    destruct (Nat.eqb_spec 1 c) as [Ec|Ec];
      destruct (Nat.eqb_spec Kn 1) as [Ek|Ek]; simpl; intros [= <-];
      rewrite ?Ek; try rewrite <- Ec; reflexivity. }
  assert (Hss : shape summed = [b; c; Kn; Kn; h; w]).
  { rewrite (sum_inv _ _ _ Hsum). simpl. now rewrite Hsp. }
  assert (Hsq : shape perm = [b; c; h; Kn; w; Kn]).
  { rewrite (permute_inv _ _ _ Hperm). simpl. now rewrite Hss. }
  destruct (shape_view _ _ _ Hout) as (Hso & _ & _).
  cbn [map] in Hso. rewrite !Nat2Z.id in Hso.
  rewrite !Z2Nat.inj_mul, !Nat2Z.id in Hso by lia. fold Kn in Hso.
  repeat split; assumption.
Qed.

Ltac valid_tac :=
  repeat (apply valid_index_cons; [lia || nia|]); apply valid_index_nil.

Lemma convex_value (K : Z) (flow raw viewed mask unf upv prod summed perm out : Tensor)
  (b c h w : nat) :
  shape flow = [b; c; h; w] ->
  view raw [Z.of_nat b; 1; 9; K; K; Z.of_nat h; Z.of_nat w]%Z = Ok viewed ->
  softmax 2 viewed = Ok mask ->
  unfold3 (scale K flow) = Ok unf ->
  view unf [Z.of_nat b; Z.of_nat c; 9; 1; 1; Z.of_nat h; Z.of_nat w]%Z = Ok upv ->
  mul mask upv = Ok prod ->
  sum 2 prod = Ok summed ->
  permute summed [0; 1; 4; 2; 5; 3] = Ok perm ->
  view perm [Z.of_nat b; Z.of_nat c; K * Z.of_nat h; K * Z.of_nat w]%Z = Ok out ->
  forall ib ic y x kh kw,
    ib < b -> ic < c -> y < h -> x < w ->
    kh < Z.to_nat K -> kw < Z.to_nat K ->
    get out [ib; ic; y * Z.to_nat K + kh; x * Z.to_nat K + kw] =
    sumR (map (fun j =>
                 (mask_weight mask ib kh kw y x j *
                  neighbourhood_tap (scale K flow) ib ic y x j)%R)
              (seq 0 9)).
Proof.
  intros Hflow Hviewed Hmask Hunf Hupv Hprod Hsum Hperm Hout.
  destruct (convex_shapes _ _ _ _ _ _ _ _ _ _ _ _ _ _ _ Hflow Hviewed Hmask Hunf Hupv Hprod
              Hsum Hperm Hout) as (HK & Hsv & Hsm & Hsu & Hsp & Hss & Hsq & Hso).
  cbv zeta in *. set (Kn := Z.to_nat K) in *.
  intros ib ic y x kh kw Hib Hic Hy Hx Hkh Hkw.
  (* the last reshape *)
  pose proof (permute_inv _ _ _ Hperm) as Eperm.
  rewrite Hss in Eperm. unfold rank in Eperm. rewrite Hss in Eperm.
  cbn [map nth length seq] in Eperm.
  rewrite Eperm in Hout.
  rewrite (get_view_tabulate _ _ _ _ _ Hout) by (rewrite Hso; valid_tac).
  rewrite Hso.
  replace (ravel [b; c; Kn * h; Kn * w] [ib; ic; y * Kn + kh; x * Kn + kw])
    with (ravel [b; c; h; Kn; w; Kn] [ib; ic; y; kh; x; kw])
    by (cbn [ravel numel]; ring).
  rewrite unravel_ravel by valid_tac.
  cbn [index_of Nat.eqb nth].
  (* the sum over the taps *)
  rewrite (sum_inv _ _ _ Hsum), Hsp. cbn [drop_nth nth].
  rewrite get_tabulate by valid_tac.
  cbn [insert_nth].
  f_equal. apply map_ext_in. intros j Hj. apply in_seq in Hj.
  (* the product *)
  destruct (mul_inv _ _ _ Hprod) as (sh & Hb & Eprod).
  assert (Hsh : sh = [b; c; 9; Kn; Kn; h; w]) by (now rewrite Eprod in Hsp).
  rewrite Eprod, Hsh. rewrite get_tabulate by valid_tac.
  unfold rank. rewrite Hsm, Hsu.
  cbn [length Nat.max pad_shape Nat.sub repeat app broadcast_index].
  rewrite Nat.eqb_refl.
  rewrite (broadcast_keep 9 j), (broadcast_keep Kn kh), (broadcast_keep Kn kw),
    (broadcast_keep h y), (broadcast_keep w x), (broadcast_keep c ic),
    (broadcast_keep b ib) by lia.
  rewrite <- Hsm at 1. rewrite <- Hsu at 1.
  change (nth (ravel (shape mask) [ib; 0; j; kh; kw; y; x]) (data mask) 0%R)
    with (mask_weight mask ib kh kw y x j).
  f_equal.
  change (nth (ravel (shape upv) [ib; ic; j; 0; 0; y; x]) (data upv) 0%R)
    with (get upv [ib; ic; j; 0; 0; y; x]).
  (* the unfolded neighbourhood *)
  assert (Hsf : shape (scale K flow) = [b; c; h; w]) by exact Hflow.
  destruct (unfold3_inv _ _ _ _ _ _ Hsf Hunf) as (Hhw & Eunf).
  rewrite Eunf in Hupv.
  rewrite (get_view_tabulate _ _ _ _ _ Hupv) by (rewrite Hsu; valid_tac).
  rewrite Hsu.
  replace (ravel [b; c; 9; 1; 1; h; w] [ib; ic; j; 0; 0; y; x])
    with (ravel [b; c * 9; h * w] [ib; ic * 9 + j; y * w + x])
    by (cbn [ravel numel]; ring).
  rewrite unravel_ravel by valid_tac.
  unfold neighbourhood_tap.
  replace ((ic * 9 + j) / 9) with ic
    by (apply Nat.div_unique with j; lia).
  replace ((ic * 9 + j) mod 9) with j
    by (apply Nat.mod_unique with ic; lia).
  replace ((y * w + x) / w) with y
    by (apply Nat.div_unique with x; lia).
  replace ((y * w + x) mod w) with x
    by (apply Nat.mod_unique with y; lia).
  reflexivity.
Qed.

End TensorFacts.

Import TensorFacts.

(** ** Stepping through a computation *)

Section Stepping.

Variable World : Type.
Local Abbreviation M := (M World).

Lemma bind_ok {A B : Type} (m : M A) (f : A -> M B) s b s' :
  bind m f s = (Ok b, s') ->
  exists a s1, m s = (Ok a, s1) /\ f a s1 = (Ok b, s').
Proof.
  unfold bind. destruct (m s) as [[a|e] s1]; intros H; [|discriminate].
  now exists a, s1.
Qed.

Lemma bind_eq_ok {A B : Type} (m : M A) (f : A -> M B) s a s1 :
  m s = (Ok a, s1) -> bind m f s = f a s1.
Proof. unfold bind. now intros ->. Qed.

Lemma bind_eq_err {A B : Type} (m : M A) (f : A -> M B) s e s1 :
  m s = (Err e, s1) -> bind m f s = (Err e, s1).
Proof. unfold bind. now intros ->. Qed.

Lemma ret_ok {A : Type} (a b : A) (s s' : State World) :
  ret a s = (Ok b, s') -> b = a /\ s' = s.
Proof. unfold ret. now intros [= -> ->]. Qed.

Lemma lift_ok {A : Type} (r : Result A) (b : A) (s s' : State World) :
  lift r s = (Ok b, s') -> r = Ok b /\ s' = s.
Proof. unfold lift. now intros [= -> ->]. Qed.

Lemma torch_ok {A : Type} ev (r : Result A) (b : A) (s s' : State World) :
  torch ev r s = (Ok b, s') -> r = Ok b /\ s' = log ev s.
Proof. unfold torch. now intros [= -> <-]. Qed.

Lemma call_ok {A : Type} ev (c : Extern World A) (b : A) s s' :
  call ev c s = (Ok b, s') ->
  exists w', c (world s) = (Ok b, w') /\ s' = mkState w' (trace s ++ [ev]).
Proof.
  unfold call. destruct (c (world s)) as [r w'] eqn:Hc.
  intros [= -> <-]. now exists w'.
Qed.

Lemma raise_ok {A : Type} e (b : A) (s s' : State World) :
  raise e s = (Ok b, s') -> False.
Proof. discriminate. Qed.

End Stepping.

(** Invert a successful run down to the equations of its steps. *)
Ltac run_ok :=
  repeat match goal with
  | H : bind _ _ _ = (Ok _, _) |- _ =>
      let Hm := fresh "Hm" in
      apply bind_ok in H; destruct H as (? & ? & Hm & H); cbv beta in H
  | H : ret _ _ = (Ok _, _) |- _ =>
      apply ret_ok in H; destruct H as [? ?]; subst
  | H : lift _ _ = (Ok _, _) |- _ =>
      apply lift_ok in H; destruct H as [H ?]; subst
  | H : torch _ _ _ = (Ok _, _) |- _ =>
      apply torch_ok in H; destruct H as [H ?]; subst
  | H : call _ _ _ = (Ok _, _) |- _ =>
      apply call_ok in H; destruct H as (? & H & ?); subst
  | H : raise _ _ = (Ok _, _) |- _ => now apply raise_ok in H
  | H : Ok _ = Ok _ |- _ => injection H as H; try subst
  | H : (let (_, _) := ?x in _) _ = (Ok _, _) |- _ => destruct x
  end.

(** Evaluate a closed run of the concrete model, leaving real arithmetic
    alone. *)
Ltac evaluate :=
  cbv -[Rplus Rmult Rminus Rdiv Rinv Ropp exp IZR INR]; reflexivity.

(** ** The tensor operations on small inputs *)

Example cat_batch_example :
  cat 0 (mkTensor [1; 2] [1; 2]%R) (mkTensor [2; 2] [3; 4; 5; 6]%R)
  = Ok (mkTensor [3; 2] [1; 2; 3; 4; 5; 6]%R).
Proof. evaluate. Qed.

Example cat_channel_example :
  cat 1 (mkTensor [2; 1] [1; 2]%R) (mkTensor [2; 2] [3; 4; 5; 6]%R)
  = Ok (mkTensor [2; 3] [1; 3; 4; 2; 5; 6]%R).
Proof. evaluate. Qed.

Example cat_mismatch_example :
  cat 1 (mkTensor [2; 1] [1; 2]%R) (mkTensor [1; 1] [3]%R)
  = Err RuntimeError.
Proof. evaluate. Qed.

(** A 1-dimensional empty operand is left out; the dimension is checked
    against the rank of the operand that is kept; a 0-dimensional operand is
    refused. *)
Example cat_skipped_example :
  cat 1 (mkTensor [1; 2] [1; 2]%R) (mkTensor [0] [])
  = Ok (mkTensor [1; 2] [1; 2]%R) /\
  cat 1 (mkTensor [0] []) (mkTensor [1; 2] [1; 2]%R)
  = Ok (mkTensor [1; 2] [1; 2]%R) /\
  cat 1 (mkTensor [0] []) (mkTensor [0] []) = Ok (mkTensor [0] []) /\
  cat 1 (mkTensor [2] [1; 2]%R) (mkTensor [2] [3; 4]%R) = Err IndexError /\
  cat 0 (mkTensor [] [1]%R) (mkTensor [1] [2]%R) = Err RuntimeError.
Proof. repeat split; evaluate. Qed.

(** The position of the new dimension is checked before the shapes. *)
Example stack_rank_example :
  stack1 (mkTensor [] [1]%R) (mkTensor [2] [1; 2]%R) = Err IndexError /\
  stack1 (mkTensor [1] [1]%R) (mkTensor [2] [1; 2]%R) = Err RuntimeError.
Proof. split; evaluate. Qed.

Example chunk_rank_example :
  chunk2_dim1 (mkTensor [] [1]%R) = Err RuntimeError /\
  chunk2_dim1 (mkTensor [2] [1; 2]%R) = Err IndexError.
Proof. split; evaluate. Qed.

(** [F.unfold] accepts an empty batch and refuses an input without
    channels. *)
Example unfold_empty_example :
  unfold3 (mkTensor [1; 0; 1; 1] []) = Err RuntimeError /\
  exists u, unfold3 (mkTensor [0; 1; 1; 1] []) = Ok u /\ shape u = [0; 9; 1].
Proof. split; [evaluate|]. eexists. split; evaluate. Qed.

Example permute_example :
  permute (mkTensor [2; 3] [1; 2; 3; 4; 5; 6]%R) [1; 0]
  = Ok (mkTensor [3; 2] [1; 4; 2; 5; 3; 6]%R).
Proof. evaluate. Qed.

Example stack_example :
  stack1 (mkTensor [2; 1] [1; 2]%R) (mkTensor [2; 1] [3; 4]%R)
  = Ok (mkTensor [2; 2; 1] [1; 3; 2; 4]%R).
Proof. evaluate. Qed.

Example chunk_example :
  chunk2_dim1 (mkTensor [1; 3] [1; 2; 3]%R)
  = Ok [mkTensor [1; 2] [1; 2]%R; mkTensor [1; 1] [3]%R].
Proof. evaluate. Qed.

Example chunk_single_example :
  chunk2_dim1 (mkTensor [2; 1] [1; 2]%R) = Ok [mkTensor [2; 1] [1; 2]%R].
Proof. evaluate. Qed.

Example view_example :
  view (mkTensor [2; 3] [1; 2; 3; 4; 5; 6]%R) [3; 2]%Z
  = Ok (mkTensor [3; 2] [1; 2; 3; 4; 5; 6]%R) /\
  view (mkTensor [2; 3] [1; 2; 3; 4; 5; 6]%R) [4; 2]%Z = Err RuntimeError /\
  view (mkTensor [2; 3] [1; 2; 3; 4; 5; 6]%R) [-1; -1]%Z = Err RuntimeError.
Proof. repeat split; evaluate. Qed.

Example add_broadcast_example :
  add (mkTensor [2; 2] [1; 2; 3; 4]%R) (mkTensor [1; 2] [10; 20]%R)
  = Ok (mkTensor [2; 2] [1 + 10; 2 + 20; 3 + 10; 4 + 20]%R) /\
  add (mkTensor [2; 2] [1; 2; 3; 4]%R) (mkTensor [3; 2] [1; 2; 3; 4; 5; 6]%R)
  = Err RuntimeError.
Proof. split; evaluate. Qed.

Example sum_example :
  sum 0 (mkTensor [2; 2] [1; 2; 3; 4]%R)
  = Ok (mkTensor [2] [1 + (3 + 0); 2 + (4 + 0)]%R).
Proof. evaluate. Qed.

(** The nine taps of the upper left pixel of a 2x2 field: the pixel itself is
    tap 4, its right, lower and lower right neighbours are taps 5, 7 and 8,
    and the rest is padding. *)
Example unfold_example :
  exists u,
    unfold3 (mkTensor [1; 1; 2; 2] [1; 2; 3; 4]%R) = Ok u /\
    shape u = [1; 9; 4] /\
    map (fun j => get u [0; j; 0]) (seq 0 9) = [0; 0; 0; 0; 1; 2; 0; 3; 4]%R.
Proof. eexists. repeat split; evaluate. Qed.

(** A row of two values resampled to four points with aligned corners: the
    two corners are kept and the points between them are a third and two
    thirds of the way. *)
Example interpolate_example :
  exists u,
    interpolate_bilinear (mkTensor [1; 1; 1; 2] [0; 3]%R) 2 = Ok u /\
    shape u = [1; 1; 2; 4] /\
    get u [0; 0; 0; 0] = 0%R /\ get u [0; 0; 0; 1] = 1%R /\
    get u [0; 0; 0; 2] = 2%R /\ get u [0; 0; 0; 3] = 3%R.
Proof.
  eexists. split; [evaluate|]. split; [reflexivity|].
  cbv -[Rplus Rmult Rminus Rdiv Rinv Ropp exp IZR INR].
  change (INR 0) with 0%R. change (INR 1) with 1%R.
  replace (INR 3) with 3%R by (simpl; lra).
  replace (INR 2) with 2%R by (simpl; lra).
  repeat split; field.
Qed.

(** ** What a computation records, and what it depends on *)

Section Logic.

Variable World : Type.
Local Abbreviation M := (M World).

Lemma emits_ret {A : Type} P (a : A) : emits (World:=World) P (ret a).
Proof. intros st. exists []. simpl. now rewrite app_nil_r. Qed.

Lemma emits_raise {A : Type} P e : emits P (@raise World A e).
Proof. intros st. exists []. simpl. now rewrite app_nil_r. Qed.

Lemma emits_lift {A : Type} P (r : Result A) : emits (World:=World) P (lift r).
Proof. intros st. exists []. simpl. now rewrite app_nil_r. Qed.

Lemma emits_torch {A : Type} (P : Event -> Prop) ev (r : Result A) :
  P ev -> emits (World:=World) P (torch ev r).
Proof. intros H st. exists [ev]. simpl. split; [reflexivity|]. now constructor. Qed.

Lemma emits_call {A : Type} (P : Event -> Prop) ev (c : Extern World A) :
  P ev -> emits P (call ev c).
Proof.
  intros H st. exists [ev]. unfold call.
  destruct (c (world st)) as [r w']. simpl. split; [reflexivity|].
  now constructor.
Qed.

Lemma emits_bind {A B : Type} P (m : M A) (f : A -> M B) :
  emits P m -> (forall a, emits P (f a)) -> emits P (bind m f).
Proof.
  intros Hm Hf st. unfold bind.
  destruct (Hm st) as (evs1 & E1 & F1).
  destruct (m st) as [[a|e] s1]; simpl in E1.
  - destruct (Hf a s1) as (evs2 & E2 & F2).
    exists (evs1 ++ evs2). rewrite E2, E1, app_assoc.
    split; [reflexivity|]. now apply Forall_app.
  - exists evs1. now split.
Qed.

Lemma independent_ret {A : Type} (a : A) : world_independent (World:=World) (ret a).
Proof. now intros s1 s2. Qed.

Lemma independent_raise {A : Type} e : world_independent (@raise World A e).
Proof. now intros s1 s2. Qed.

Lemma independent_lift {A : Type} (r : Result A) : world_independent (World:=World) (lift r).
Proof. now intros s1 s2. Qed.

Lemma independent_torch {A : Type} ev (r : Result A) :
  world_independent (World:=World) (torch ev r).
Proof. now intros s1 s2. Qed.

Lemma independent_call {A : Type} ev (c : Extern World A) :
  deterministic c -> world_independent (call ev c).
Proof.
  intros H s1 s2. unfold call.
  specialize (H (world s1) (world s2)).
  destruct (c (world s1)), (c (world s2)). exact H.
Qed.

Lemma independent_bind {A B : Type} (m : M A) (f : A -> M B) :
  world_independent m -> (forall a, world_independent (f a)) ->
  world_independent (bind m f).
Proof.
  intros Hm Hf s1 s2. unfold bind.
  specialize (Hm s1 s2).
  destruct (m s1) as [[a1|e1] t1], (m s2) as [[a2|e2] t2]; simpl in Hm;
    try discriminate.
  - injection Hm as ->. apply Hf.
  - simpl. now injection Hm as ->.
Qed.

End Logic.

(** ** Convex upsampling *)

Section Convex.

Variable World : Type.
Variable self : GMFlow World.

(** What a successful run of the convex branch of [upsample_flow] did. *)
Lemma upsample_flow_convex_inv (flow : Tensor) (feature : option Tensor)
  (karg : Z) (st st' : State World) (out : Tensor) :
  upsample_flow self flow feature false karg st = (Ok out, st') ->
  let k := upsample_factor self in
  exists f concat raw w1 b c h w viewed mask unf upv prod summed perm,
    feature = Some f /\
    cat 1 flow f = Ok concat /\
    upsampler self concat (world st) = (Ok raw, w1) /\
    shape flow = [b; c; h; w] /\
    view raw [Z.of_nat b; 1; 9; k; k; Z.of_nat h; Z.of_nat w]%Z = Ok viewed /\
    softmax 2 viewed = Ok mask /\
    unfold3 (scale k flow) = Ok unf /\
    view unf [Z.of_nat b; Z.of_nat c; 9; 1; 1; Z.of_nat h; Z.of_nat w]%Z
      = Ok upv /\
    mul mask upv = Ok prod /\
    sum 2 prod = Ok summed /\
    permute summed [0; 1; 4; 2; 5; 3] = Ok perm /\
    view perm [Z.of_nat b; Z.of_nat c; k * Z.of_nat h; k * Z.of_nat w]%Z
      = Ok out /\
    st' = mkState w1
            (trace st ++
             [EvCat 1; EvUpsampler; EvView; EvSoftmax; EvScale k; EvUnfold;
              EvView; EvMul; EvSum; EvPermute; EvReshape]).
Proof.
  intros H k. unfold upsample_flow in H. cbv beta iota in H. fold k in H.
  run_ok.
  destruct feature as [f|]; [|discriminate].
  match goal with
  | Hs : shape4 flow = Ok (?b, ?c, ?h, ?w) |- _ =>
      assert (Hshape : shape flow = [b; c; h; w])
  end.
  { unfold shape4 in *.
    destruct (shape flow) as [|? [|? [|? [|? [|? ?]]]]]; try discriminate.
    congruence. }
  do 15 eexists. split; [reflexivity|].
  repeat (split; [eassumption|]).
  unfold log; simpl. rewrite <- !app_assoc. reflexivity.
Qed.

(** The softmax over the tap dimension gives a probability distribution. *)
Lemma softmax_weights (viewed mask : Tensor) (b kn h w : nat) :
  shape viewed = [b; 1; 9; kn; kn; h; w] ->
  softmax 2 viewed = Ok mask ->
  forall ib kh kw y x,
    ib < b -> kh < kn -> kw < kn -> y < h -> x < w ->
    (forall j, j < 9 -> (0 <= mask_weight mask ib kh kw y x j)%R) /\
    sumR (map (mask_weight mask ib kh kw y x) (seq 0 9)) = 1%R.
Proof.
  intros Hsv Hmask ib kh kw y x Hib Hkh Hkw Hy Hx.
  pose (e := fun j => get viewed [ib; 0; j; kh; kw; y; x]).
  pose (total := sumR (map (fun j => exp (e j)) (seq 0 9))).
  assert (Htotal : (0 < total)%R) by (apply sumR_exp_pos; discriminate).
  assert (Hw : forall j, j < 9 ->
            mask_weight mask ib kh kw y x j = (exp (e j) / total)%R).
  { intros j Hj. unfold mask_weight.
    rewrite (softmax_inv _ _ _ Hmask), Hsv.
    rewrite get_tabulate by valid_tac. reflexivity. }
  split.
  - intros j Hj. rewrite (Hw j Hj).
    apply Rlt_le, Rdiv_lt_0_compat; [apply exp_pos|exact Htotal].
  - rewrite (map_ext_in _ (fun j => (exp (e j) / total)%R)).
    + rewrite sumR_div. fold total. field. lra.
    + intros j Hj. apply in_seq in Hj. apply Hw. lia.
Qed.

End Convex.

(** C1.  Convex upsampling ([upsample_flow] with [bilinear=False]).  Whenever
    the call returns, the mask it used is the softmax over the tap dimension
    of the reshaped output of the upsampler network; at every output location
    [(Y, X)] the nine weights of that mask are non-negative and sum to 1, the
    output value is the weighted sum of the nine taps of the 3x3
    neighbourhood, around the coarse position [(Y / K, X / K)], of the flow
    multiplied by the factor [K = self.upsample_factor] (zero outside the
    grid, as [F.unfold] pads), and so it lies between the least and the
    greatest of the nine taps.  Tensor elements are real numbers. *)
Theorem convex_upsample_is_convex_combination :
  forall (World : Type) (self : GMFlow World) (flow : Tensor)
    (feature : option Tensor) (karg : Z) (st st' : State World)
    (out : Tensor),
    upsample_flow self flow feature false karg st = (Ok out, st') ->
    let k := upsample_factor self in
    let kn := Z.to_nat k in
    exists (f concat raw : Tensor) (w1 : World) (b c h w : nat)
      (viewed mask : Tensor),
      feature = Some f /\
      cat 1 flow f = Ok concat /\
      upsampler self concat (world st) = (Ok raw, w1) /\
      shape flow = [b; c; h; w] /\
      view raw [Z.of_nat b; 1; 9; k; k; Z.of_nat h; Z.of_nat w]%Z
        = Ok viewed /\
      softmax 2 viewed = Ok mask /\
      shape mask = [b; 1; 9; kn; kn; h; w] /\
      shape out = [b; c; kn * h; kn * w] /\
      forall ib ic Y X,
        ib < b -> ic < c -> Y < kn * h -> X < kn * w ->
        let weight :=
          mask_weight mask ib (Y mod kn) (X mod kn) (Y / kn) (X / kn) in
        let tap :=
          neighbourhood_tap (scale k flow) ib ic (Y / kn) (X / kn) in
        (forall j, j < 9 -> (0 <= weight j)%R) /\
        sumR (map weight (seq 0 9)) = 1%R /\
        get out [ib; ic; Y; X]
          = sumR (map (fun j => (weight j * tap j)%R) (seq 0 9)) /\
        (MinRlist (map tap (seq 0 9)) <= get out [ib; ic; Y; X]
         <= MaxRlist (map tap (seq 0 9)))%R.
Proof.
  intros World self flow feature karg st st' out Hrun k kn.
  destruct (upsample_flow_convex_inv _ _ _ _ _ _ _ _ Hrun)
    as (f & concat & raw & w1 & b & c & h & w & viewed & mask & unf & upv &
        prod & summed & perm & Hf & Hcat & Hnet & Hflow & Hviewed & Hmask &
        Hunf & Hupv & Hprod & Hsum & Hperm & Hout & _).
  fold k in Hviewed, Hunf, Hout.
  destruct (convex_shapes _ _ _ _ _ _ _ _ _ _ _ _ _ _ _ Hflow Hviewed Hmask
              Hunf Hupv Hprod Hsum Hperm Hout)
    as (Hk & Hsv & Hsm & _ & _ & _ & _ & Hso).
  cbv zeta in Hsv, Hsm, Hso. fold kn in Hsv, Hsm, Hso.
  exists f, concat, raw, w1, b, c, h, w, viewed, mask.
  repeat (split; [assumption|]).
  intros ib ic Y X Hib Hic HY HX weight tap.
  assert (Hkn : kn <> 0) by (intros E; rewrite E in HY; simpl in HY; lia).
  assert (Hy : Y / kn < h) by (apply Nat.Div0.div_lt_upper_bound; lia).
  assert (Hx : X / kn < w) by (apply Nat.Div0.div_lt_upper_bound; lia).
  assert (Hkh : Y mod kn < kn) by (now apply Nat.mod_upper_bound).
  assert (Hkw : X mod kn < kn) by (now apply Nat.mod_upper_bound).
  destruct (softmax_weights _ _ _ _ _ _ Hsv Hmask ib (Y mod kn) (X mod kn)
              (Y / kn) (X / kn) Hib Hkh Hkw Hy Hx) as [Hpos Hone].
  fold weight in Hpos, Hone.
  assert (Hval : get out [ib; ic; Y; X]
                 = sumR (map (fun j => (weight j * tap j)%R) (seq 0 9))).
  { pose proof (convex_value _ _ _ _ _ _ _ _ _ _ _ _ _ _ _ Hflow Hviewed
                  Hmask Hunf Hupv Hprod Hsum Hperm Hout ib ic (Y / kn)
                  (X / kn) (Y mod kn) (X mod kn) Hib Hic Hy Hx Hkh Hkw)
      as Hv.
    fold kn in Hv.
    replace (Y / kn * kn + Y mod kn) with Y in Hv
      by (rewrite (Nat.div_mod_eq Y kn) at 1; lia).
    replace (X / kn * kn + X mod kn) with X in Hv
      by (rewrite (Nat.div_mod_eq X kn) at 1; lia).
    exact Hv. }
  repeat split; try assumption.
  - rewrite Hval.
    pose proof (weighted_sum_bounds weight tap (seq 0 9)
                  (MinRlist (map tap (seq 0 9)))
                  (MaxRlist (map tap (seq 0 9)))) as Hb.
    rewrite Hone in Hb.
    destruct Hb as [Hlo _].
    + intros j Hj. apply Hpos. apply in_seq in Hj. lia.
    + intros j Hj. split.
      * apply MinRlist_P1. now apply in_map.
      * apply MaxRlist_P1. now apply in_map.
    + lra.
  - rewrite Hval.
    pose proof (weighted_sum_bounds weight tap (seq 0 9)
                  (MinRlist (map tap (seq 0 9)))
                  (MaxRlist (map tap (seq 0 9)))) as Hb.
    rewrite Hone in Hb.
    destruct Hb as [_ Hhi].
    + intros j Hj. apply Hpos. apply in_seq in Hj. lia.
    + intros j Hj. split.
      * apply MinRlist_P1. now apply in_map.
      * apply MaxRlist_P1. now apply in_map.
    + lra.
Qed.

Lemma convex_upsample_witness :
  exists out st',
    upsample_flow (Demo.model 1 2 false) Demo.flow0 (Some Demo.coarse0)
      false 8 Demo.start = (Ok out, st') /\
    shape out = [1; 2; 2; 2] /\
    (0 <= get out [0; 0; 1; 1]%nat <= 6)%R.
Proof.
  eexists. eexists. split; [evaluate|].
  edestruct (convex_upsample_is_convex_combination nat
               (Demo.model 1 2 false) Demo.flow0 (Some Demo.coarse0) 8
               Demo.start)
    as (f & concat & raw & w1 & b & c & h & w & viewed & mask & _ & _ & _ &
        Hflow & _ & _ & _ & Hout & Hval); [evaluate|].
  injection Hflow as <- <- <- <-.
  split; [exact Hout|].
  destruct (Hval 0 0 1 1) as (_ & _ & _ & Hb); [simpl; lia ..|].
  match type of Hb with (_ <= ?v <= _)%R => generalize dependent v end.
  intros v Hb. clear Hval.
  cbv -[Rplus Rmult Rminus Rdiv Rinv exp IZR INR Rmin Rmax Rle Rlt] in Hb.
  destruct Hb as [Hlo Hhi]. split.
  - eapply Rle_trans; [|exact Hlo].
    repeat (apply Rmin_glb; [lra|]). lra.
  - eapply Rle_trans; [exact Hhi|].
    repeat (apply Rmax_lub; [lra|]). lra.
Defined.

(** C10.  In convex mode [upsample_flow] never reads its [upsample_factor]
    argument: the run is the same for every value of it, the mask is
    reshaped with [self.upsample_factor], the flow is multiplied by
    [self.upsample_factor], and the output has [self.upsample_factor] times
    the resolution of the flow. *)
Theorem convex_upsample_ignores_factor_argument :
  forall (World : Type) (self : GMFlow World) (flow : Tensor)
    (feature : option Tensor) (karg : Z) (st st' : State World)
    (out : Tensor),
    upsample_flow self flow feature false karg st = (Ok out, st') ->
    let k := upsample_factor self in
    (forall karg' st0,
        upsample_flow self flow feature false karg' st0
        = upsample_flow self flow feature false karg st0) /\
    exists (b c h w : nat) (raw viewed unf : Tensor) (w1 : World),
      shape flow = [b; c; h; w] /\
      view raw [Z.of_nat b; 1; 9; k; k; Z.of_nat h; Z.of_nat w]%Z
        = Ok viewed /\
      unfold3 (scale k flow) = Ok unf /\
      shape out = [b; c; Z.to_nat k * h; Z.to_nat k * w] /\
      st' = mkState w1
              (trace st ++
               [EvCat 1; EvUpsampler; EvView; EvSoftmax; EvScale k; EvUnfold;
                EvView; EvMul; EvSum; EvPermute; EvReshape]).
Proof.
  intros World self flow feature karg st st' out Hrun k.
  split; [reflexivity|].
  destruct (upsample_flow_convex_inv _ _ _ _ _ _ _ _ Hrun)
    as (f & concat & raw & w1 & b & c & h & w & viewed & mask & unf & upv &
        prod & summed & perm & Hf & Hcat & Hnet & Hflow & Hviewed & Hmask &
        Hunf & Hupv & Hprod & Hsum & Hperm & Hout & Hst).
  fold k in Hviewed, Hunf, Hout, Hst.
  destruct (convex_shapes _ _ _ _ _ _ _ _ _ _ _ _ _ _ _ Hflow Hviewed Hmask
              Hunf Hupv Hprod Hsum Hperm Hout)
    as (_ & _ & _ & _ & _ & _ & _ & Hso).
  exists b, c, h, w, raw, viewed, unf, w1. now repeat split.
Qed.

Lemma convex_upsample_ignores_factor_argument_witness :
  exists out st',
    upsample_flow (Demo.model 1 2 false) Demo.flow0 (Some Demo.coarse0)
      false 8 Demo.start = (Ok out, st') /\
    upsample_flow (Demo.model 1 2 false) Demo.flow0 (Some Demo.coarse0)
      false 3 Demo.start = (Ok out, st') /\
    shape out = [1; 2; 2; 2].
Proof.
  eexists. eexists. split; [evaluate|].
  edestruct (convex_upsample_ignores_factor_argument nat
               (Demo.model 1 2 false) Demo.flow0 (Some Demo.coarse0) 8
               Demo.start)
    as (Hany & b & c & h & w & raw & viewed & unf & w1 & Hflow & _ & _ &
        Hout & _); [evaluate|].
  injection Hflow as <- <- <- <-.
  split; [|exact Hout].
  rewrite (Hany 3%Z Demo.start). evaluate.
Defined.

(** ** Bilinear upsampling *)

Lemma interpolate_bilinear_ok (flow : Tensor) (k : Z) (b c h w : nat) :
  shape flow = [b; c; h; w] -> 0 < c -> 0 < h -> 0 < w -> (1 <= k)%Z ->
  interpolate_bilinear flow k
  = Ok (tabulate [b; c; h * Z.to_nat k; w * Z.to_nat k]
          (fun idx =>
             match idx with
             | [ib; ic; y; x] =>
                 bilinear_at flow h w (h * Z.to_nat k) (w * Z.to_nat k)
                   ib ic y x
             | _ => 0%R
             end)).
Proof.
  intros Hs Hc Hh Hw Hk. unfold interpolate_bilinear. rewrite Hs.
  destruct (Z.leb_spec k 0); [lia|].
  destruct c; [lia|]. destruct h; [lia|]. destruct w; [lia|].
  reflexivity.
Qed.

(** With [align_corners=True] the corners of the output are the corners of
    the input. *)
Lemma source_index_first (n_in n_out : nat) :
  fst (source_index n_in n_out 0) = 0 /\
  snd (source_index n_in n_out 0) = 0%R.
Proof.
  unfold source_index. destruct (Nat.leb n_out 1); [now split|].
  cbn [Nat.mul fst snd]. rewrite Nat.Div0.div_0_l, Nat.Div0.mod_0_l.
  split; [reflexivity|]. change (INR 0) with 0%R. unfold Rdiv. ring.
Qed.

Lemma source_index_last (n_in n_out : nat) :
  0 < n_in -> n_in <= n_out ->
  fst (source_index n_in n_out (n_out - 1)) = n_in - 1 /\
  snd (source_index n_in n_out (n_out - 1)) = 0%R.
Proof.
  intros Hin Hout. unfold source_index.
  destruct (Nat.leb_spec n_out 1) as [Hle|Hgt]; cbn [fst snd].
  - split; [lia|reflexivity].
  - rewrite Nat.mul_comm, Nat.div_mul, Nat.Div0.mod_mul by lia.
    split; [reflexivity|]. change (INR 0) with 0%R. unfold Rdiv. ring.
Qed.

Lemma bilinear_at_corners (t : Tensor) (h w ho wo b c : nat) :
  0 < h -> h <= ho -> 0 < w -> w <= wo ->
  bilinear_at t h w ho wo b c 0 0 = get t [b; c; 0; 0] /\
  bilinear_at t h w ho wo b c (ho - 1) (wo - 1) = get t [b; c; h - 1; w - 1].
Proof.
  intros Hh Hho Hw Hwo. unfold bilinear_at. split.
  - destruct (source_index_first h ho) as [Ey El].
    destruct (source_index_first w wo) as [Ex Em].
    destruct (source_index h ho 0) as [y0 ly].
    destruct (source_index w wo 0) as [x0 lx].
    cbn [fst snd] in *. subst. ring.
  - destruct (source_index_last h ho Hh Hho) as [Ey El].
    destruct (source_index_last w wo Hw Hwo) as [Ex Em].
    destruct (source_index h ho (ho - 1)) as [y0 ly].
    destruct (source_index w wo (wo - 1)) as [x0 lx].
    cbn [fst snd] in *. subst. ring.
Qed.

(** C6.  Bilinear upsampling ([upsample_flow] with [bilinear=True]) of a
    flow field of shape [B, C, H, W] by an integer factor [k >= 1] returns a
    field of shape [B, C, H*k, W*k] whose value at every position is [k]
    times the bilinear sample of the input there.  Only the interpolation and
    the multiplication happen: the upsampler network is not called, the
    world is left as it was, and neither the model nor the feature argument
    is read.  In particular the two corners of the output are [k] times the
    two corners of the input. *)
Theorem bilinear_upsample_scales_resolution_and_values :
  forall (World : Type) (self : GMFlow World) (flow : Tensor)
    (feature : option Tensor) (k : Z) (st : State World) (b c h w : nat),
    shape flow = [b; c; h; w] -> 0 < c -> 0 < h -> 0 < w -> (1 <= k)%Z ->
    let kn := Z.to_nat k in
    exists interp out,
      interpolate_bilinear flow k = Ok interp /\
      out = scale k interp /\
      upsample_flow self flow feature true k st
      = (Ok out,
         mkState (world st) (trace st ++ [EvInterpolate k; EvScale k])) /\
      shape out = [b; c; h * kn; w * kn] /\
      (forall ib ic y x,
          ib < b -> ic < c -> y < h * kn -> x < w * kn ->
          get out [ib; ic; y; x]
          = (IZR k * bilinear_at flow h w (h * kn) (w * kn) ib ic y x)%R) /\
      (forall ib ic,
          ib < b -> ic < c ->
          get out [ib; ic; 0; 0] = Rmult (IZR k) (get flow [ib; ic; 0; 0]) /\
          get out [ib; ic; h * kn - 1; w * kn - 1]
          = Rmult (IZR k) (get flow [ib; ic; h - 1; w - 1])).
Proof.
  intros World self flow feature k st b c h w Hs Hc Hh Hw Hk kn.
  pose proof (interpolate_bilinear_ok flow k b c h w Hs Hc Hh Hw Hk) as Hi.
  fold kn in Hi.
  eexists. eexists. split; [exact Hi|]. split; [reflexivity|].
  split; [|split].
  - unfold upsample_flow, bind, torch, log. rewrite Hi. simpl.
    now rewrite <- app_assoc.
  - reflexivity.
  - assert (Hkn : 1 <= kn) by (unfold kn; lia).
    assert (Hval : forall ib ic y x,
               ib < b -> ic < c -> y < h * kn -> x < w * kn ->
               get (scale k
                      (tabulate [b; c; h * kn; w * kn]
                         (fun idx =>
                            match idx with
                            | [ib; ic; y; x] =>
                                bilinear_at flow h w (h * kn) (w * kn)
                                  ib ic y x
                            | _ => 0%R
                            end))) [ib; ic; y; x]
               = (IZR k * bilinear_at flow h w (h * kn) (w * kn) ib ic y x)%R).
    { intros ib ic y x Hib Hic Hy Hx.
      rewrite get_scale, get_tabulate by valid_tac. reflexivity. }
    split; [exact Hval|].
    intros ib ic Hib Hic.
    destruct (bilinear_at_corners flow h w (h * kn) (w * kn) ib ic)
      as [H0 H1]; [lia | nia | lia | nia |].
    rewrite !Hval by nia. now rewrite H0, H1.
Qed.

Lemma bilinear_upsample_witness :
  exists out,
    upsample_flow (Demo.model 2 2 true) Demo.flow0 None true 4 Demo.start
    = (Ok out, mkState 0 [EvInterpolate 4; EvScale 4]) /\
    shape out = [1; 2; 4; 4] /\
    get out [0; 1; 3; 2] = (4 * 5)%R.
Proof.
  destruct (bilinear_upsample_scales_resolution_and_values nat
              (Demo.model 2 2 true) Demo.flow0 None 4 Demo.start 1 2 1 1)
    as (interp & out & _ & _ & Hrun & Hshape & Hval & _);
    [reflexivity | lia | lia | lia | lia |].
  exists out. split; [exact Hrun|]. split; [exact Hshape|].
  rewrite (Hval 0 1 3 2) by (simpl; lia).
  cbv -[Rplus Rmult Rminus Rdiv Rinv Ropp exp IZR INR].
  change (INR 0) with 0%R. lra.
Defined.

(** ** The factor of each scale *)

Ltac emits_step :=
  match goal with
  | |- emits _ (bind _ _) => apply emits_bind; [|intros ?]
  | |- emits _ (ret _) => apply emits_ret
  | |- emits _ (raise _) => apply emits_raise
  | |- emits _ (lift _) => apply emits_lift
  | |- emits _ (torch _ _) => apply emits_torch
  | |- emits _ (call _ _) => apply emits_call
  | |- emits _ (detach _) => apply emits_torch
  | |- emits _ (match ?x with _ => _ end) => destruct x
  end.

Section Factor.

Variable World : Type.
Variable self : GMFlow World.

Lemma upsample_flow_emits (flow : Tensor) (feature : option Tensor)
  (bilinear : bool) (karg : Z) :
  emits (uses_factor (if bilinear then karg else upsample_factor self))
    (upsample_flow self flow feature bilinear karg).
Proof.
  unfold upsample_flow. destruct bilinear; cbv zeta.
  - repeat emits_step; reflexivity.
  - repeat emits_step; exact I || reflexivity.
Qed.

Lemma last_scale_factor (s : nat) :
  is_last_scale self s = true ->
  upsample_factor self = scale_upsample_factor self s.
Proof.
  unfold is_last_scale, scale_upsample_factor. intros H.
  apply Z.eqb_eq in H. rewrite <- H, Z.sub_diag. simpl. lia.
Qed.

Lemma upsample_before_propagation_emits (s : nat) (flow feature0 : Tensor)
  (preds : list Tensor) :
  emits (uses_factor (scale_upsample_factor self s))
    (upsample_before_propagation self s flow feature0 preds).
Proof.
  unfold upsample_before_propagation.
  apply emits_bind.
  - destruct (is_training_intermediate self s); [|apply emits_ret].
    apply emits_bind; [|intros; apply emits_ret].
    apply (upsample_flow_emits flow None true).
  - intros preds'.
    destruct (is_last_scale self s) eqn:Hlast; [|apply emits_ret].
    apply emits_bind; [|intros; apply emits_ret].
    rewrite <- (last_scale_factor s Hlast).
    apply (upsample_flow_emits flow (Some feature0) false).
Qed.

Lemma upsample_after_propagation_emits (s : nat) (flow feature0 : Tensor)
  (preds : list Tensor) :
  emits (uses_factor (scale_upsample_factor self s))
    (upsample_after_propagation self s flow feature0 preds).
Proof.
  unfold upsample_after_propagation.
  apply emits_bind.
  - destruct (is_training_intermediate self s); [|apply emits_ret].
    apply emits_bind; [|intros; apply emits_ret].
    apply (upsample_flow_emits flow (Some feature0) true).
  - intros preds'.
    destruct (is_last_scale self s) eqn:Hlast; [|apply emits_ret].
    apply emits_bind; [|intros; apply emits_ret].
    rewrite <- (last_scale_factor s Hlast).
    apply (upsample_flow_emits flow (Some feature0) false).
Qed.

End Factor.

(** C5.  At every scale index [s] of [range(num_scales)] the upsample factor
    of the scale is the base factor times [2 ^ (num_scales - 1 - s)], a
    genuine power of two; with one scale it is the base factor itself.  It is
    the factor in use at that scale: every interpolation and every
    multiplication by a factor that the two upsampling steps of the scale
    perform, bilinear or convex, is by exactly this number. *)
Theorem scale_upsample_factor_used :
  forall (World : Type) (self : GMFlow World) (s : nat)
    (flow feature0 : Tensor) (preds : list Tensor) (st : State World),
    (Z.of_nat s < num_scales self)%Z ->
    let f := (upsample_factor self
              * 2 ^ (num_scales self - 1 - Z.of_nat s))%Z in
    scale_upsample_factor self s = f /\
    f = (upsample_factor self
         * Z.of_nat (2 ^ Z.to_nat (num_scales self - 1 - Z.of_nat s)))%Z /\
    (num_scales self = 1%Z -> f = upsample_factor self) /\
    (exists evs,
        trace (snd (upsample_before_propagation self s flow feature0 preds
                      st)) = trace st ++ evs /\
        Forall (uses_factor f) evs) /\
    (exists evs,
        trace (snd (upsample_after_propagation self s flow feature0 preds
                      st)) = trace st ++ evs /\
        Forall (uses_factor f) evs).
Proof.
  intros World self s flow feature0 preds st Hs f.
  split; [reflexivity|]. split; [|split; [|split]].
  - unfold f. f_equal.
    rewrite Nat2Z.inj_pow, Z2Nat.id by lia. reflexivity.
  - intros H1. unfold f. rewrite H1.
    assert (s = 0) as -> by lia. simpl. lia.
  - apply upsample_before_propagation_emits.
  - apply upsample_after_propagation_emits.
Qed.

Lemma scale_upsample_factor_witness :
  (Z.of_nat 0 < num_scales (Demo.model 2 2 true))%Z /\
  scale_upsample_factor (Demo.model 2 2 true) 0 = 4%Z /\
  trace (snd (upsample_before_propagation (Demo.model 2 2 true) 0 Demo.flow0
                Demo.coarse0 [] Demo.start))
  = [EvInterpolate 4; EvScale 4].
Proof.
  split; [reflexivity|].
  destruct (scale_upsample_factor_used nat (Demo.model 2 2 true) 0
              Demo.flow0 Demo.coarse0 [] Demo.start)
    as (Hf & _ & _ & _ & _); [reflexivity|].
  split; [exact Hf|reflexivity].
Defined.

(** ** The predictions of each scale *)

Section Predictions.

Variable World : Type.
Variable self : GMFlow World.
Variable env : Imports World.

Lemma upsample_before_propagation_appends (s : nat) (flow feature0 : Tensor)
  (preds preds' : list Tensor) (st st' : State World) :
  upsample_before_propagation self s flow feature0 preds st = (Ok preds', st') ->
  exists new,
    preds' = preds ++ new /\
    length new = (if is_training_intermediate self s then 1 else 0)
                 + (if is_last_scale self s then 1 else 0).
Proof.
  unfold upsample_before_propagation. intros H.
  destruct (is_training_intermediate self s), (is_last_scale self s);
    run_ok.
  - eexists [_; _]. now rewrite <- app_assoc.
  - eexists [_]. now split.
  - eexists [_]. now split.
  - exists []. now rewrite app_nil_r.
Qed.

Lemma upsample_after_propagation_appends (s : nat) (flow feature0 : Tensor)
  (preds preds' : list Tensor) (st st' : State World) :
  upsample_after_propagation self s flow feature0 preds st = (Ok preds', st') ->
  exists new,
    preds' = preds ++ new /\
    length new = (if is_training_intermediate self s then 1 else 0)
                 + (if is_last_scale self s then 1 else 0).
Proof.
  unfold upsample_after_propagation. intros H.
  destruct (is_training_intermediate self s), (is_last_scale self s);
    run_ok.
  - eexists [_; _]. now rewrite <- app_assoc.
  - eexists [_]. now split.
  - eexists [_]. now split.
  - exists []. now rewrite app_nil_r.
Qed.

Lemma gates_count (s : nat) :
  (Z.of_nat s < num_scales self)%Z ->
  2 * ((if is_training_intermediate self s then 1 else 0)
       + (if is_last_scale self s then 1 else 0))
  = entries_at_scale (training self) (num_scales self) s.
Proof.
  intros Hs. unfold is_training_intermediate, is_last_scale, entries_at_scale.
  destruct (Z.eqb_spec (Z.of_nat s) (num_scales self - 1)) as [E|E].
  - rewrite E, Z.ltb_irrefl, andb_false_r. reflexivity.
  - destruct (Z.ltb_spec (Z.of_nat s) (num_scales self - 1)); [|lia].
    rewrite andb_true_r. now destruct (training self).
Qed.

Variables feature0_list feature1_list : list Tensor.
Variables attn_splits_list corr_radius_list prop_radius_list : option (list Z).
Variable pred_bidir_flow : bool.

Lemma scale_iter_appends (s : nat) (flow : option Tensor)
  (preds : list Tensor) (st st' : State World) (r : option Tensor * list Tensor) :
  (Z.of_nat s < num_scales self)%Z ->
  scale_iter self env feature0_list feature1_list attn_splits_list
    corr_radius_list prop_radius_list pred_bidir_flow s (flow, preds) st
  = (Ok r, st') ->
  exists fl new,
    r = (Some fl, preds ++ new) /\
    length new = entries_at_scale (training self) (num_scales self) s.
Proof.
  intros Hs H. unfold scale_iter in H. run_ok.
  match goal with
  | Hb : upsample_before_propagation _ _ _ _ _ _ = _ |- _ =>
      destruct (upsample_before_propagation_appends _ _ _ _ _ _ _ Hb)
        as (new1 & -> & Hn1)
  end.
  match goal with
  | Ha : upsample_after_propagation _ _ _ _ _ _ = _ |- _ =>
      destruct (upsample_after_propagation_appends _ _ _ _ _ _ _ Ha)
        as (new2 & -> & Hn2)
  end.
  eexists. exists (new1 ++ new2). split.
  - now rewrite app_assoc.
  - rewrite length_app, Hn1, Hn2, <- (gates_count s Hs). lia.
Qed.

End Predictions.

Section Assertion.

Variable World : Type.
Variable self : GMFlow World.

Lemma check_lengths_ok (a c p : option (list Z)) (st st' : State World) (u : unit) :
  check_lengths self a c p st = (Ok u, st') ->
  st' = st /\
  exists la lc lp,
    a = Some la /\ c = Some lc /\ p = Some lp /\
    Z.of_nat (length la) = num_scales self /\
    length lc = length la /\ length lp = length la.
Proof.
  unfold check_lengths, py_len. intros H.
  destruct a as [la|]; [|run_ok]. destruct c as [lc|]; [|run_ok].
  run_ok.
  destruct (Z.eqb_spec (Z.of_nat (length la)) (Z.of_nat (length lc)));
    simpl in H; [|run_ok].
  destruct p as [lp|]; [|run_ok]. run_ok.
  destruct (Z.eqb_spec (Z.of_nat (length lc)) (Z.of_nat (length lp)));
    simpl in H; [|run_ok].
  destruct (Z.eqb_spec (Z.of_nat (length lp)) (num_scales self));
    simpl in H; [|run_ok].
  run_ok. split; [reflexivity|].
  exists la, lc, lp. repeat split; lia.
Qed.

(** Lists, but not all of the length [num_scales]: the assertion fails and
    nothing is recorded. *)
Lemma check_lengths_mismatch (la lc lp : list Z) (st : State World) :
  ~ (Z.of_nat (length la) = num_scales self /\
     length lc = length la /\ length lp = length la) ->
  check_lengths self (Some la) (Some lc) (Some lp) st
  = (Err AssertionError, st).
Proof.
  intros Hne. unfold check_lengths, py_len, bind, ret, raise.
  destruct (Z.eqb_spec (Z.of_nat (length la)) (Z.of_nat (length lc)));
    simpl; [|reflexivity].
  destruct (Z.eqb_spec (Z.of_nat (length lc)) (Z.of_nat (length lp)));
    simpl; [|reflexivity].
  destruct (Z.eqb_spec (Z.of_nat (length lp)) (num_scales self));
    simpl; [|reflexivity].
  exfalso. apply Hne. repeat split; lia.
Qed.

End Assertion.

(** ** The predictions of each iteration *)

Lemma previous_cons {A : Type} (x : A) (l : list A) (i : nat) :
  previous (x :: l) (S i)
  = match i with
    | 0 => Some x
    | S _ => previous l i
    end.
Proof. destruct i; reflexivity. Qed.

Section Entries.

Variable World : Type.
Variable self : GMFlow World.
Variable env : Imports World.

Lemma bilinear_upsample_intro (x : Tensor) (feature : option Tensor) (k : Z)
  (st st' : State World) (p : Tensor) :
  upsample_flow self x feature true k st = (Ok p, st') ->
  bilinear_upsample_of self x feature k st p st'.
Proof.
  intros H. split; [exact H|].
  unfold upsample_flow in H. run_ok.
  eexists. split; [eassumption|reflexivity].
Qed.

Lemma convex_upsample_intro (x f : Tensor) (st st' : State World)
  (p : Tensor) :
  upsample_flow self x (Some f) false 8 st = (Ok p, st') ->
  convex_upsample_of self x f st p st'.
Proof.
  intros H. split; [exact H|].
  destruct (upsample_flow_convex_inv _ _ _ _ _ _ _ _ H)
    as (f' & concat & raw & w1 & b & c & h & w & viewed & mask & unf & upv &
        prod & summed & perm & _ & _ & _ & Hflow & Hviewed & Hmask &
        Hunf & Hupv & Hprod & Hsum & Hperm & Hout & Hst).
  destruct (convex_shapes _ _ _ _ _ _ _ _ _ _ _ _ _ _ _ Hflow Hviewed Hmask
              Hunf Hupv Hprod Hsum Hperm Hout)
    as (_ & _ & _ & _ & _ & _ & _ & Hso).
  split; [rewrite Hst; reflexivity|].
  exists b, c, h, w. split; [exact Hflow|exact Hso].
Qed.

Variables feature0_list feature1_list : list Tensor.
Variables attn_splits_list corr_radius_list prop_radius_list : option (list Z).
Variable pred_bidir_flow : bool.

(** What iteration [s] did, started with the running flow [flow] in the
    state [st]. *)
Local Abbreviation iteration_at s flow st it :=
  (scale_match env feature0_list feature1_list attn_splits_list
     corr_radius_list prop_radius_list pred_bidir_flow s flow st
   = (Ok (matched_feature0 it, matched_feature1 it, matched_prop_radius it,
          accumulated_flow it), state_matched it) /\
   propagate self pred_bidir_flow s (matched_feature0 it)
     (matched_feature1 it) (matched_prop_radius it) (accumulated_flow it)
     (state_before it)
   = (Ok (propagation_feature0 it, propagated_flow it),
      state_propagated it) /\
   (Z.of_nat s = (num_scales self - 1)%Z ->
    exists p1 p2,
      entries it = [p1; p2] /\
      convex_upsample_of self (accumulated_flow it) (matched_feature0 it)
        (state_matched it) p1 (state_before it) /\
      convex_upsample_of self (propagated_flow it) (propagation_feature0 it)
        (state_propagated it) p2 (state_after it)) /\
   (Z.of_nat s <> (num_scales self - 1)%Z -> training self = true ->
    exists p1 p2,
      entries it = [p1; p2] /\
      bilinear_upsample_of self (accumulated_flow it) None
        (scale_upsample_factor self s) (state_matched it) p1
        (state_before it) /\
      bilinear_upsample_of self (propagated_flow it)
        (Some (propagation_feature0 it)) (scale_upsample_factor self s)
        (state_propagated it) p2 (state_after it)) /\
   (Z.of_nat s <> (num_scales self - 1)%Z -> training self = false ->
    entries it = [] /\ state_before it = state_matched it /\
    state_after it = state_propagated it)).

Lemma scale_iter_iteration (s : nat) (flow : option Tensor)
  (preds : list Tensor) (st st' : State World)
  (r : option Tensor * list Tensor) :
  (Z.of_nat s < num_scales self)%Z ->
  scale_iter self env feature0_list feature1_list attn_splits_list
    corr_radius_list prop_radius_list pred_bidir_flow s (flow, preds) st
  = (Ok r, st') ->
  exists it : Iteration World,
    r = (Some (propagated_flow it), preds ++ entries it) /\
    st' = state_after it /\
    iteration_at s flow st it.
Proof.
  intros Hs H. unfold scale_iter in H.
  apply bind_ok in H. destruct H as ([[[f0 f1] radius] acc] & s1 & Hm & H).
  apply bind_ok in H. destruct H as (preds1 & s2 & Hb & H).
  apply bind_ok in H. destruct H as ([f0' prop] & s3 & Hp & H).
  apply bind_ok in H. destruct H as (preds2 & s4 & Ha & H).
  apply ret_ok in H. destruct H as [-> ->].
  unfold upsample_before_propagation in Hb.
  unfold upsample_after_propagation in Ha.
  unfold is_training_intermediate, is_last_scale in Hb, Ha.
  destruct (Z.eqb_spec (Z.of_nat s) (num_scales self - 1)) as [Elast|Elast].
  - (* the last scale *)
    assert (Hi : Z.ltb (Z.of_nat s) (num_scales self - 1) = false)
      by (apply Z.ltb_ge; lia).
    rewrite Hi, andb_false_r in Hb, Ha.
    apply bind_ok in Hb. destruct Hb as (q & sq & Hq & Hb).
    apply ret_ok in Hq. destruct Hq as [-> ->].
    apply bind_ok in Hb. destruct Hb as (p1 & sb & Hu1 & Hb).
    apply ret_ok in Hb. destruct Hb as [-> ->].
    apply bind_ok in Ha. destruct Ha as (q & sq & Hq & Ha).
    apply ret_ok in Hq. destruct Hq as [-> ->].
    apply bind_ok in Ha. destruct Ha as (p2 & sa & Hu2 & Ha).
    apply ret_ok in Ha. destruct Ha as [-> ->].
    match type of Hm with _ = (_, ?sm) =>
    match type of Hp with propagate _ _ _ _ _ _ _ ?sb = (_, ?sp) =>
    match type of Hu2 with _ = (_, ?sa) =>
      exists (mkIteration f0 f1 radius acc sm sb f0' prop sp sa [p1; p2])
    end end end.
    cbn [matched_feature0 matched_feature1 matched_prop_radius
         accumulated_flow state_matched state_before propagation_feature0
         propagated_flow state_propagated state_after entries].
    split; [now rewrite <- app_assoc|]. split; [reflexivity|].
    split; [exact Hm|]. split; [exact Hp|].
    split; [|split; [intros Hne; contradiction|intros Hne; contradiction]].
    intros _. exists p1, p2. split; [reflexivity|].
    split; now apply convex_upsample_intro.
  - (* a scale before the last *)
    assert (Hi : Z.ltb (Z.of_nat s) (num_scales self - 1) = true)
      by (apply Z.ltb_lt; lia).
    rewrite Hi, andb_true_r in Hb, Ha.
    destruct (training self) eqn:Etrain.
    + apply bind_ok in Hb. destruct Hb as (q & sq & Hq & Hb).
      apply ret_ok in Hb. destruct Hb as [-> ->].
      apply bind_ok in Hq. destruct Hq as (p1 & sb & Hu1 & Hq).
      apply ret_ok in Hq. destruct Hq as [-> ->].
      apply bind_ok in Ha. destruct Ha as (q & sq & Hq & Ha).
      apply ret_ok in Ha. destruct Ha as [-> ->].
      apply bind_ok in Hq. destruct Hq as (p2 & sa & Hu2 & Hq).
      apply ret_ok in Hq. destruct Hq as [-> ->].
      match type of Hm with _ = (_, ?sm) =>
      match type of Hp with propagate _ _ _ _ _ _ _ ?sb = (_, ?sp) =>
      match type of Hu2 with _ = (_, ?sa) =>
        exists (mkIteration f0 f1 radius acc sm sb f0' prop sp sa [p1; p2])
      end end end.
      cbn [matched_feature0 matched_feature1 matched_prop_radius
           accumulated_flow state_matched state_before propagation_feature0
           propagated_flow state_propagated state_after entries].
      split; [now rewrite <- app_assoc|]. split; [reflexivity|].
      split; [exact Hm|]. split; [exact Hp|].
      split; [intros E; contradiction|].
      split; [|intros _ Hf; discriminate Hf].
      intros _ _. exists p1, p2. split; [reflexivity|].
      split; now apply bilinear_upsample_intro.
    + apply bind_ok in Hb. destruct Hb as (q & sq & Hq & Hb).
      apply ret_ok in Hb. destruct Hb as [-> ->].
      apply ret_ok in Hq. destruct Hq as [-> ->].
      apply bind_ok in Ha. destruct Ha as (q & sq & Hq & Ha).
      apply ret_ok in Ha. destruct Ha as [-> ->].
      apply ret_ok in Hq. destruct Hq as [-> ->].
      match type of Hm with _ = (_, ?sm) =>
      match type of Hp with propagate _ _ _ _ _ _ _ ?sb = (_, ?sp) =>
        exists (mkIteration f0 f1 radius acc sm sb f0' prop sp sp [])
      end end.
      cbn [matched_feature0 matched_feature1 matched_prop_radius
           accumulated_flow state_matched state_before propagation_feature0
           propagated_flow state_propagated state_after entries].
      split; [now rewrite app_nil_r|]. split; [reflexivity|].
      split; [exact Hm|]. split; [exact Hp|].
      split; [intros E; contradiction|].
      split; [intros _ Hf; discriminate Hf|].
      intros _ _. repeat split.
Qed.

Lemma scale_loop_iterations (n : nat) :
  forall (start : nat) (flow : option Tensor) (preds : list Tensor)
    (st st' : State World) (r : option Tensor * list Tensor),
    (Z.of_nat (start + n) <= num_scales self)%Z ->
    scale_loop self env feature0_list feature1_list attn_splits_list
      corr_radius_list prop_radius_list pred_bidir_flow (seq start n)
      (flow, preds) st = (Ok r, st') ->
    exists iterations : list (Iteration World),
      length iterations = n /\
      snd r = preds ++ concat (map (@entries World) iterations) /\
      st' = match previous iterations n with
            | Some q => state_after q
            | None => st
            end /\
      forall i it,
        nth_error iterations i = Some it ->
        iteration_at (start + i)
          (match previous iterations i with
           | Some q => Some (propagated_flow q)
           | None => flow
           end)
          (match previous iterations i with
           | Some q => state_after q
           | None => st
           end) it.
Proof.
  induction n as [|n IH]; intros start flow preds st st' r Hn H.
  - cbn [seq scale_loop] in H. apply ret_ok in H. destruct H as [-> ->].
    exists []. split; [reflexivity|]. split; [now rewrite app_nil_r|].
    split; [reflexivity|]. intros [|i] it Hi; discriminate Hi.
  - cbn [seq scale_loop] in H.
    apply bind_ok in H. destruct H as (r0 & s0 & Hi & H).
    apply scale_iter_iteration in Hi; [|lia].
    destruct Hi as (it0 & -> & -> & Hstep).
    apply IH in H; [|lia].
    destruct H as (its & Hlen & Hsnd & Hst & Hall).
    exists (it0 :: its). split; [cbn [length]; now rewrite Hlen|].
    split; [rewrite Hsnd; cbn [map concat]; now rewrite app_assoc|].
    split.
    + rewrite previous_cons, Hst. clear IH. destruct n as [|n']; [reflexivity|].
      cbn [previous]. destruct (nth_error its n') eqn:E; [reflexivity|].
      apply nth_error_None in E. lia.
    + intros [|i] it Hnth.
      * cbn [nth_error] in Hnth. injection Hnth as <-.
        rewrite Nat.add_0_r. exact Hstep.
      * cbn [nth_error] in Hnth. specialize (Hall i it Hnth).
        rewrite previous_cons. rewrite Nat.add_succ_r.
        destruct i as [|i]; [exact Hall|].
        cbn [previous] in Hall |- *.
        destruct (nth_error its i) eqn:E; [exact Hall|].
        exfalso. apply nth_error_None in E.
        assert (S i < length its) by (apply nth_error_Some; congruence).
        lia.
Qed.

End Entries.

(** C2.  The predictions returned by the scale loop of [forward_image] (the
    assertion and the loop of lines 97-163, on the feature lists of the call)
    are, in order, the predictions of iteration 0, of iteration 1, and so on,
    one iteration per scale, each iteration starting from the flow and the
    state the one before left.  The last iteration appended exactly 2
    entries whatever the mode: the convex upsample of the flow accumulated
    on line 133, with [feature0], and after the propagation the convex
    upsample of the propagated flow, with [feature0] as the propagation used
    it.  An iteration before the last appended, in training mode, exactly 2
    entries: the bilinear upsample of the accumulated flow and, after the
    propagation, the bilinear upsample of the propagated flow, both by the
    factor of the scale; in inference mode it appended nothing and called no
    upsampling at all.  Each entry is what [upsample_flow] returned at that
    point of the run.  With one scale the sequence has exactly 2 entries. *)
Theorem prediction_sequence_entries :
  forall (World : Type) (self : GMFlow World) (env : Imports World)
    (feature0_list feature1_list : list Tensor)
    (attn_splits_list corr_radius_list prop_radius_list : option (list Z))
    (pred_bidir_flow : bool) (st st' : State World) (preds : list Tensor),
    forward_scales self env feature0_list feature1_list attn_splits_list
      corr_radius_list prop_radius_list pred_bidir_flow st = (Ok preds, st') ->
    exists iterations : list (Iteration World),
      let groups := map (@entries World) iterations in
      preds = concat groups /\
      length groups = Z.to_nat (num_scales self) /\
      st' = match previous iterations (length iterations) with
            | Some q => state_after q
            | None => st
            end /\
      (forall s it,
          nth_error iterations s = Some it ->
          nth s groups [] = entries it /\
          scale_match env feature0_list feature1_list attn_splits_list
            corr_radius_list prop_radius_list pred_bidir_flow s
            (option_map (@propagated_flow World) (previous iterations s))
            (match previous iterations s with
             | Some q => state_after q
             | None => st
             end)
          = (Ok (matched_feature0 it, matched_feature1 it,
                 matched_prop_radius it, accumulated_flow it),
             state_matched it) /\
          propagate self pred_bidir_flow s (matched_feature0 it)
            (matched_feature1 it) (matched_prop_radius it)
            (accumulated_flow it)
            (state_before it)
          = (Ok (propagation_feature0 it, propagated_flow it),
             state_propagated it) /\
          (Z.of_nat s = (num_scales self - 1)%Z ->
           exists p1 p2,
             entries it = [p1; p2] /\
             convex_upsample_of self (accumulated_flow it)
               (matched_feature0 it) (state_matched it) p1 (state_before it) /\
             convex_upsample_of self (propagated_flow it)
               (propagation_feature0 it) (state_propagated it) p2
               (state_after it)) /\
          (Z.of_nat s <> (num_scales self - 1)%Z -> training self = true ->
           exists p1 p2,
             entries it = [p1; p2] /\
             bilinear_upsample_of self (accumulated_flow it) None
               (scale_upsample_factor self s) (state_matched it) p1
               (state_before it) /\
             bilinear_upsample_of self (propagated_flow it)
               (Some (propagation_feature0 it))
               (scale_upsample_factor self s) (state_propagated it) p2
               (state_after it)) /\
          (Z.of_nat s <> (num_scales self - 1)%Z -> training self = false ->
           entries it = [] /\ state_before it = state_matched it /\
           state_after it = state_propagated it)) /\
      (forall s, s < length groups ->
         length (nth s groups [])
         = entries_at_scale (training self) (num_scales self) s) /\
      (forall s, s < length groups ->
         Z.of_nat s <> (num_scales self - 1)%Z ->
         length (nth s groups []) = if training self then 2 else 0) /\
      (forall s, Z.of_nat s = (num_scales self - 1)%Z ->
         length (nth s groups []) = 2) /\
      (num_scales self = 1%Z -> length preds = 2).
Proof.
  intros World self env f0l f1l a c p bidir st st' preds H.
  unfold forward_scales in H.
  apply bind_ok in H. destruct H as (u & s0 & Hc & H).
  apply bind_ok in H. destruct H as (r & s1 & Hl & H).
  apply ret_ok in H. destruct H as [-> ->].
  apply check_lengths_ok in Hc.
  destruct Hc as (-> & la & lc & lp & _ & _ & _ & HN & _).
  unfold scale_range in Hl.
  apply scale_loop_iterations in Hl; [|cbn [Nat.add]; lia].
  destruct Hl as (its & Hlen & Hsnd & Hst & Hall).
  cbn [app] in Hsnd.
  exists its. cbv zeta.
  assert (Hnth : forall s it, nth_error its s = Some it ->
                   nth s (map (@entries World) its) [] = entries it).
  { intros s it Hs.
    rewrite (nth_indep _ [] (entries it))
      by (rewrite length_map; apply nth_error_Some; congruence).
    rewrite map_nth. f_equal. now apply nth_error_nth. }
  assert (Hcount : forall s, s < length (map (@entries World) its) ->
            length (nth s (map (@entries World) its) [])
            = entries_at_scale (training self) (num_scales self) s).
  { intros s Hs. rewrite length_map in Hs.
    destruct (nth_error its s) as [it|] eqn:Es;
      [|apply nth_error_None in Es; lia].
    rewrite (Hnth s it Es).
    destruct (Hall s it Es) as (_ & _ & Hlast & Htrain & Hinf).
    cbn [Nat.add] in Hlast, Htrain, Hinf.
    unfold entries_at_scale.
    destruct (Z.eqb_spec (Z.of_nat s) (num_scales self - 1)) as [E|E].
    - destruct (Hlast E) as (p1 & p2 & -> & _). reflexivity.
    - destruct (training self) eqn:Et.
      + destruct (Htrain E eq_refl) as (p1 & p2 & -> & _). reflexivity.
      + destruct (Hinf E eq_refl) as (-> & _). reflexivity. }
  split; [exact Hsnd|]. split; [now rewrite length_map|].
  split; [now rewrite Hlen|].
  split; [|split; [exact Hcount|split; [|split]]].
  - intros s it Hs. split; [now apply Hnth|].
    specialize (Hall s it Hs). cbn [Nat.add] in Hall.
    destruct Hall as (Hm & Hp & Hrest).
    split; [|split; [exact Hp|exact Hrest]].
    destruct (previous its s); exact Hm.
  - intros s Hs Hne. rewrite (Hcount s Hs). unfold entries_at_scale.
    destruct (Z.eqb_spec (Z.of_nat s) (num_scales self - 1)); [lia|].
    reflexivity.
  - intros s Hs. rewrite Hcount by (rewrite length_map; lia).
    unfold entries_at_scale. now rewrite Hs, Z.eqb_refl.
  - intros H1. rewrite H1 in Hlen, Hcount.
    destruct its as [|it [|it' its']]; try discriminate Hlen.
    rewrite Hsnd. cbn [map concat]. rewrite app_nil_r.
    apply (Hcount 0). cbn. lia.
Qed.

Lemma prediction_sequence_witness :
  exists preds st',
    forward_scales (Demo.model 2 2 true) Demo.imports
      [Demo.coarse0; Demo.fine0] [Demo.coarse1; Demo.fine1]
      (Some [2; 8]%Z) (Some [-1; 4]%Z) (Some [0; 1]%Z) false Demo.start
    = (Ok preds, st') /\
    length preds = 4 /\
    exists b1 b2 c1 c2 feature0 feature1 radius acc st1 up h w,
      preds = [b1; b2; c1; c2] /\
      scale_match Demo.imports [Demo.coarse0; Demo.fine0]
        [Demo.coarse1; Demo.fine1] (Some [2; 8]%Z) (Some [-1; 4]%Z)
        (Some [0; 1]%Z) false 0 None Demo.start
      = (Ok (feature0, feature1, radius, acc), st1) /\
      interpolate_bilinear acc 4 = Ok up /\
      b1 = scale 4 up /\
      shape c1 = [1; 2; 2 * h; 2 * w].
Proof.
  eexists. eexists. split; [evaluate|].
  edestruct (prediction_sequence_entries nat (Demo.model 2 2 true)
               Demo.imports [Demo.coarse0; Demo.fine0]
               [Demo.coarse1; Demo.fine1] (Some [2; 8]%Z) (Some [-1; 4]%Z)
               (Some [0; 1]%Z) false Demo.start)
    as (its & Hg & Hlen & _ & Hall & _); [evaluate|].
  cbv zeta in Hg, Hlen, Hall. rewrite length_map in Hlen.
  destruct its as [|it0 [|it1 [|it2 its]]]; try discriminate Hlen.
  destruct (Hall 0 it0 eq_refl) as (_ & Hm0 & _ & _ & Htrain & _).
  destruct (Htrain ltac:(discriminate) eq_refl)
    as (b1 & b2 & E0 & (_ & up & Hup & Hb1) & _).
  destruct (Hall 1 it1 eq_refl) as (_ & _ & _ & Hlast & _).
  destruct (Hlast eq_refl)
    as (c1 & c2 & E1 & (_ & _ & b & c & h & w & Hacc & Hc1) & _).
  cbn [map concat] in Hg. rewrite E0, E1 in Hg. cbn [app] in Hg.
  (* the batch and the channels of the last predictions *)
  assert (Hbc : b = 1 /\ c = 2).
  { assert (Hs : shape (nth 2 [b1; b2; c1; c2] b1) = [1; 2; 4; 4])
      by (rewrite <- Hg; reflexivity).
    cbn [nth] in Hs. rewrite Hc1 in Hs. now injection Hs as -> ->. }
  destruct Hbc as [-> ->].
  split; [rewrite Hg; reflexivity|].
  exists b1, b2, c1, c2, (matched_feature0 it0), (matched_feature1 it0),
    (matched_prop_radius it0), (accumulated_flow it0), (state_matched it0),
    up, h, w.
  split; [exact Hg|]. split; [exact Hm0|]. split; [exact Hup|].
  split; [exact Hb1|exact Hc1].
Defined.

(** ** The assertion on the lengths *)

(** The events of [extract_feature]. *)
Lemma extract_feature_emits (World : Type) (self : GMFlow World)
  (img0 img1 : Tensor) :
  emits (fun e => In e [EvStack; EvPermute; EvBackbone; EvChunk])
    (extract_feature self img0 img1).
Proof.
  unfold extract_feature, py_index.
  repeat emits_step; simpl; tauto.
Qed.

(** C3, as the code has it.  When the three per-scale parameters are lists
    that do not all have the length [num_scales], [forward_image] first runs
    the feature extraction; if that succeeds it fails with [AssertionError]
    in the state the extraction left, and if the extraction fails its error
    is the result.  Either way the stack, the permutation, the backbone and
    the chunking are the only calls made: no correlation, warp, propagation
    or upsampling happens and no prediction is produced. *)
Theorem forward_image_length_mismatch :
  forall (World : Type) (self : GMFlow World) (env : Imports World)
    (img0 img1 : Tensor) (la lc lp : list Z) (pred_bidir_flow : bool)
    (st : State World),
    ~ (Z.of_nat (length la) = num_scales self /\
       length lc = length la /\ length lp = length la) ->
    forward_image self env img0 img1 (Some la) (Some lc) (Some lp)
      pred_bidir_flow st
    = match extract_feature self img0 img1 st with
      | (Ok _, st1) => (Err AssertionError, st1)
      | (Err e, st1) => (Err e, st1)
      end /\
    exists evs,
      trace (snd (forward_image self env img0 img1 (Some la) (Some lc)
                    (Some lp) pred_bidir_flow st)) = trace st ++ evs /\
      Forall (fun e => In e [EvStack; EvPermute; EvBackbone; EvChunk]) evs.
Proof.
  intros World self env img0 img1 la lc lp bidir st Hne.
  assert (E : forward_image self env img0 img1 (Some la) (Some lc) (Some lp)
                bidir st
              = match extract_feature self img0 img1 st with
                | (Ok _, st1) => (Err AssertionError, st1)
                | (Err e, st1) => (Err e, st1)
                end).
  { unfold forward_image, bind at 1.
    destruct (extract_feature self img0 img1 st) as [[[f0l f1l]|e] st1];
      [|reflexivity].
    unfold forward_scales, bind.
    now rewrite (check_lengths_mismatch World self la lc lp st1 Hne). }
  split; [exact E|].
  rewrite E.
  destruct (extract_feature_emits World self img0 img1 st) as (evs & Ht & Hf).
  exists evs. split; [|exact Hf].
  destruct (extract_feature self img0 img1 st) as [[?|?] ?]; exact Ht.
Qed.

Lemma forward_image_length_mismatch_witness :
  ~ (Z.of_nat (length [2%Z]) = num_scales (Demo.model 1 2 false) /\
     length (@nil Z) = length [2%Z] /\ length [0%Z] = length [2%Z]) /\
  forward_image (Demo.model 1 2 false) Demo.imports Demo.image0 Demo.image1
    (Some [2%Z]) (Some []) (Some [0%Z]) false Demo.start
  = match extract_feature (Demo.model 1 2 false) Demo.image0 Demo.image1
            Demo.start with
    | (Ok _, st1) => (Err AssertionError, st1)
    | (Err e, st1) => (Err e, st1)
    end.
Proof.
  assert (Hne : ~ (Z.of_nat (length [2%Z]) = num_scales (Demo.model 1 2 false)
                   /\ length (@nil Z) = length [2%Z]
                   /\ length [0%Z] = length [2%Z])).
  { simpl. intros (_ & H & _). discriminate H. }
  split; [exact Hne|].
  exact (proj1 (forward_image_length_mismatch nat (Demo.model 1 2 false)
                  Demo.imports Demo.image0 Demo.image1 [2%Z] [] [0%Z] false
                  Demo.start Hne)).
Defined.

(** C3, as the claim has it, fails: with lists of lengths 1, 0 and 1 for one
    scale, the call fails only after four tensor computations, one of them
    the backbone; the state it leaves is not the state it started in. *)
Lemma forward_image_extracts_before_assertion :
  forward_image (Demo.model 1 2 false) Demo.imports Demo.image0 Demo.image1
    (Some [2%Z]) (Some []) (Some [0%Z]) false Demo.start
  = (Err AssertionError,
     mkState 1 [EvStack; EvPermute; EvBackbone; EvChunk]) /\
  mkState 1 [EvStack; EvPermute; EvBackbone; EvChunk] <> Demo.start.
Proof.
  split; [evaluate|]. discriminate.
Qed.

(** ** Determinism *)

Ltac independent_step :=
  match goal with
  | |- world_independent (bind _ _) => apply independent_bind; [|intros ?]
  | |- world_independent (ret _) => apply independent_ret
  | |- world_independent (raise _) => apply independent_raise
  | |- world_independent (lift _) => apply independent_lift
  | |- world_independent (torch _ _) => apply independent_torch
  | |- world_independent (detach _) => apply independent_torch
  | |- world_independent (call _ _) => apply independent_call
  | |- world_independent (match ?x with _ => _ end) => destruct x eqn:?
  end.

Section Determinism.

Variable World : Type.
Variable self : GMFlow World.
Variable env : Imports World.
Hypothesis Hdet : no_stochastic_elements self env.

Lemma extract_feature_independent (img0 img1 : Tensor) :
  world_independent (extract_feature self img0 img1).
Proof.
  destruct Hdet as (Hb & _).
  unfold extract_feature, py_index.
  repeat independent_step. now apply Hb.
Qed.

Lemma upsample_flow_independent (flow : Tensor) (feature : option Tensor)
  (bilinear : bool) (karg : Z) :
  world_independent (upsample_flow self flow feature bilinear karg).
Proof.
  destruct Hdet as (_ & _ & Hu & _).
  unfold upsample_flow. cbv zeta.
  repeat independent_step. apply Hu.
Qed.

Variables feature0_list feature1_list : list Tensor.
Variables attn_splits_list corr_radius_list prop_radius_list : option (list Z).
Variable pred_bidir_flow : bool.

Lemma scale_match_independent (s : nat) (flow : option Tensor) :
  world_independent
    (scale_match env feature0_list feature1_list attn_splits_list
       corr_radius_list prop_radius_list pred_bidir_flow s flow).
Proof.
  destruct Hdet as (_ & _ & _ & Hg & Hl & Hw).
  unfold scale_match.
  repeat first [independent_step | progress unfold py_index, py_getitem];
    auto.
Qed.

Lemma scale_iter_independent (s : nat) (st : option Tensor * list Tensor) :
  world_independent
    (scale_iter self env feature0_list feature1_list attn_splits_list
       corr_radius_list prop_radius_list pred_bidir_flow s st).
Proof.
  destruct Hdet as (_ & Ha & _).
  unfold scale_iter. destruct st as [flow preds].
  apply independent_bind; [apply scale_match_independent|].
  intros [[[f0 f1] r] fl].
  unfold upsample_before_propagation, propagate, upsample_after_propagation.
  repeat first [apply upsample_flow_independent | independent_step]; auto.
Qed.

Lemma scale_loop_independent (scales : list nat) :
  forall st : option Tensor * list Tensor,
    world_independent
      (scale_loop self env feature0_list feature1_list attn_splits_list
         corr_radius_list prop_radius_list pred_bidir_flow scales st).
Proof.
  induction scales as [|s rest IH]; intros st; cbn [scale_loop].
  - apply independent_ret.
  - apply independent_bind; [apply scale_iter_independent|exact IH].
Qed.

End Determinism.

(** C8.  With no stochastic element (the result of every collaborator is a
    function of its arguments alone), the outcome of [forward_image], the
    prediction sequence or the exception, is a function of the model and of
    the arguments: two runs on the same inputs give the same outcome,
    whatever the world each starts in and whatever was computed before. *)
Theorem forward_image_deterministic :
  forall (World : Type) (self : GMFlow World) (env : Imports World)
    (img0 img1 : Tensor)
    (attn_splits_list corr_radius_list prop_radius_list : option (list Z))
    (pred_bidir_flow : bool) (st1 st2 : State World),
    no_stochastic_elements self env ->
    fst (forward_image self env img0 img1 attn_splits_list corr_radius_list
           prop_radius_list pred_bidir_flow st1)
    = fst (forward_image self env img0 img1 attn_splits_list corr_radius_list
             prop_radius_list pred_bidir_flow st2).
Proof.
  intros World self env img0 img1 a c p bidir st1 st2 Hdet.
  revert st1 st2.
  change (world_independent
            (forward_image self env img0 img1 a c p bidir)).
  unfold forward_image.
  apply independent_bind;
    [apply (extract_feature_independent World self env Hdet)|].
  intros [f0l f1l]. unfold forward_scales.
  apply independent_bind.
  - unfold check_lengths, py_len. repeat independent_step.
  - intros _. apply independent_bind; [|intros; apply independent_ret].
    apply (scale_loop_independent World self env Hdet).
Qed.

Lemma demo_no_stochastic_elements (n k : Z) (train : bool) :
  no_stochastic_elements (Demo.model n k train) Demo.imports.
Proof.
  unfold no_stochastic_elements, deterministic. simpl. repeat split; try reflexivity.
  intros net [= <-] t w1 w2. reflexivity.
Qed.

Lemma forward_image_deterministic_witness :
  no_stochastic_elements (Demo.model 1 2 false) Demo.imports /\
  fst (forward_image (Demo.model 1 2 false) Demo.imports Demo.image0
         Demo.image1 (Some [2%Z]) (Some [(-1)%Z]) (Some [0%Z]) false
         Demo.start)
  = fst (forward_image (Demo.model 1 2 false) Demo.imports Demo.image0
           Demo.image1 (Some [2%Z]) (Some [(-1)%Z]) (Some [0%Z]) false
           (mkState 7 [EvDetach])).
Proof.
  split; [apply demo_no_stochastic_elements|].
  apply forward_image_deterministic. apply demo_no_stochastic_elements.
Defined.

(** ** Residual accumulation *)

Section Accumulation.

Variable World : Type.
Variable env : Imports World.
Variables feature0_list feature1_list : list Tensor.
Variables attn_splits_list corr_radius_list prop_radius_list : option (list Z).
Variable pred_bidir_flow : bool.

Lemma py_index_ok {A : Type} (l : list A) (i : nat) (x : A) (st st' : State World) :
  py_index l i st = (Ok x, st') -> nth_error l i = Some x /\ st' = st.
Proof.
  unfold py_index. destruct (nth_error l i); intros H; run_ok; now split.
Qed.

Lemma py_getitem_ok {A : Type} (l : option (list A)) (i : nat) (x : A)
  (st st' : State World) :
  py_getitem l i st = (Ok x, st') ->
  exists l', l = Some l' /\ nth_error l' i = Some x /\ st' = st.
Proof.
  unfold py_getitem. destruct l as [l'|]; intros H; [|run_ok].
  apply py_index_ok in H. exists l'. now split.
Qed.

(** The first scale: the accumulated flow is the prediction itself. *)
Lemma scale_match_first (st st' : State World) (f0 f1 acc : Tensor) (r : Z) :
  scale_match env feature0_list feature1_list attn_splits_list
    corr_radius_list prop_radius_list pred_bidir_flow 0 None st
  = (Ok (f0, f1, r, acc), st') ->
  exists pl cl cr wd',
    prop_radius_list = Some pl /\ nth_error pl 0 = Some r /\
    nth_error feature0_list 0 = Some f0 /\
    nth_error feature1_list 0 = Some f1 /\
    corr_radius_list = Some cl /\ nth_error cl 0 = Some cr /\
    (if Z.eqb cr (-1)
     then global_correlation_softmax env f0 f1 pred_bidir_flow (world st)
     else local_correlation_softmax env f0 f1 cr (world st))
    = (Ok acc, wd') /\
    st' = mkState wd'
            (trace st ++ [if Z.eqb cr (-1) then EvGlobalCorr pred_bidir_flow
                          else EvLocalCorr cr]).
Proof.
  unfold scale_match. rewrite andb_false_r. cbn [Nat.ltb Nat.leb].
  intros H. run_ok.
  repeat match goal with
  | Hi : py_index _ _ _ = (Ok _, _) |- _ =>
      apply py_index_ok in Hi; destruct Hi as [? ->]
  | Hi : py_getitem _ _ _ = (Ok _, _) |- _ =>
      apply py_getitem_ok in Hi; destruct Hi as (? & ? & ? & ->)
  end.
  injection H as -> -> -> ->.
  match goal with
  | Hcorr : (if (?cr =? -1)%Z then _ else _) _ = _ |- _ =>
      destruct (Z.eqb cr (-1)) eqn:Ecr; run_ok
  end.
  all: do 4 eexists; do 6 (split; [first [reflexivity|eassumption]|]);
    rewrite Ecr; (split; [eassumption|reflexivity]).
Qed.

(** A later scale: the running flow is upsampled twofold and doubled, and
    the prediction is added to it. *)
Lemma scale_match_later (s : nat) (flow : Tensor) (st st' : State World)
  (f0 f1 acc : Tensor) (r : Z) :
  scale_match env feature0_list feature1_list attn_splits_list
    corr_radius_list prop_radius_list pred_bidir_flow (S s) (Some flow) st
  = (Ok (f0, f1, r, acc), st') ->
  exists up pred cl cr f1_in wd0 wd wd',
    interpolate_bilinear flow 2 = Ok up /\
    flow_warp env f1_in (scale 2 up) wd0 = (Ok f1, wd) /\
    corr_radius_list = Some cl /\ nth_error cl (S s) = Some cr /\
    (if Z.eqb cr (-1)
     then global_correlation_softmax env f0 f1 pred_bidir_flow wd
     else local_correlation_softmax env f0 f1 cr wd)
    = (Ok pred, wd') /\
    add (scale 2 up) pred = Ok acc.
Proof.
  unfold scale_match. cbn [Nat.ltb Nat.leb]. intros H.
  destruct pred_bidir_flow; cbn [andb] in H; run_ok;
  repeat match goal with
  | Hi : py_index _ _ _ = (Ok _, _) |- _ =>
      apply py_index_ok in Hi; destruct Hi as [? ->]
  | Hi : py_getitem _ _ _ = (Ok _, _) |- _ =>
      apply py_getitem_ok in Hi; destruct Hi as (? & ? & ? & ->)
  end;
  unfold detach in *; run_ok;
  injection H as -> -> -> ->;
  match goal with
  | Hcorr : (if (?cr =? -1)%Z then _ else _) _ = _ |- _ =>
      destruct (Z.eqb cr (-1)) eqn:Ecr; run_ok
  end;
  do 8 eexists; do 4 (split; [first [reflexivity|eassumption]|]);
    rewrite Ecr; (split; eassumption).
Qed.
End Accumulation.

Section Accumulation2.

Variable World : Type.
Variable self : GMFlow World.
Variable env : Imports World.

(** The propagation is called on the accumulated flow, with [feature0] or,
    in bidirectional mode at the first scale, with [feature0] followed by
    [feature1] along the batch. *)
Lemma propagate_inv (bidir : bool) (s : nat) (f0 f1 flow f0' fl' : Tensor)
  (r : Z) (st st' : State World) :
  propagate self bidir s f0 f1 r flow st = (Ok (f0', fl'), st') ->
  (if bidir && Nat.eqb s 0 then cat 0 f0 f1 else Ok f0) = Ok f0' /\
  exists wd wd',
    feature_flow_attn self f0' flow (Z.ltb 0 r) r wd = (Ok fl', wd') /\
    world st' = wd'.
Proof.
  unfold propagate, detach. intros H.
  destruct (bidir && Nat.eqb s 0); run_ok;
    injection H as -> ->; (split; [first [reflexivity|eassumption]|]);
    do 2 eexists; (split; [eassumption|reflexivity]).
Qed.

End Accumulation2.

(** C4.  A two-scale run whose first correlation radius is -1.  At the first
    scale the accumulated flow is the prediction of the global correlation
    itself: nothing is added, the correlation is the only call made up to
    there.  That flow is propagated, and the propagated flow is the flow the
    first scale leaves.  At the second scale the accumulated flow, before the
    propagation, is the sum of [2 * F.interpolate(flow, scale_factor=2)] of
    the flow the first scale left and of the correlation prediction of the
    second scale, computed on the features warped by that upsampled flow. *)
Theorem residual_accumulation_two_scales :
  forall (World : Type) (self : GMFlow World) (env : Imports World)
    (feature0_list feature1_list : list Tensor)
    (attn_splits_list prop_radius_list : option (list Z)) (radii : list Z)
    (pred_bidir_flow : bool) (st st' : State World) (preds : list Tensor),
    num_scales self = 2%Z ->
    forward_scales self env feature0_list feature1_list attn_splits_list
      (Some ((-1)%Z :: radii)) prop_radius_list pred_bidir_flow st
    = (Ok preds, st') ->
    exists (feature0 feature1 pred0 features flow0 : Tensor) (prop0 : Z)
      (sA sB sC : State World) (preds0 : list Tensor) (wdp wdp' : World)
      (f0' f1_in f1' acc1 up pred1 : Tensor) (prop1 cr1 : Z)
      (wd0 wd wd' : World),
      (* the first scale: the accumulated flow is the raw prediction *)
      scale_match env feature0_list feature1_list attn_splits_list
        (Some ((-1)%Z :: radii)) prop_radius_list pred_bidir_flow 0 None st
      = (Ok (feature0, feature1, prop0, pred0), sA) /\
      nth_error feature0_list 0 = Some feature0 /\
      nth_error feature1_list 0 = Some feature1 /\
      global_correlation_softmax env feature0 feature1 pred_bidir_flow
        (world st) = (Ok pred0, world sA) /\
      trace sA = trace st ++ [EvGlobalCorr pred_bidir_flow] /\
      (* it is propagated, and that is the flow the first scale leaves *)
      feature_flow_attn self features pred0 (Z.ltb 0 prop0) prop0 wdp
      = (Ok flow0, wdp') /\
      scale_iter self env feature0_list feature1_list attn_splits_list
        (Some ((-1)%Z :: radii)) prop_radius_list pred_bidir_flow 0
        (None, []) st
      = (Ok (Some flow0, preds0), sB) /\
      (* the second scale: twice the twofold upsampling, plus the prediction *)
      scale_match env feature0_list feature1_list attn_splits_list
        (Some ((-1)%Z :: radii)) prop_radius_list pred_bidir_flow 1
        (Some flow0) sB
      = (Ok (f0', f1', prop1, acc1), sC) /\
      interpolate_bilinear flow0 2 = Ok up /\
      flow_warp env f1_in (scale 2 up) wd0 = (Ok f1', wd) /\
      nth_error radii 0 = Some cr1 /\
      (if Z.eqb cr1 (-1)
       then global_correlation_softmax env f0' f1' pred_bidir_flow wd
       else local_correlation_softmax env f0' f1' cr1 wd)
      = (Ok pred1, wd') /\
      add (scale 2 up) pred1 = Ok acc1.
Proof.
  intros World self env f0l f1l a p radii bidir st st' preds HN H.
  unfold forward_scales in H. run_ok.
  match goal with
  | Hc : check_lengths _ _ _ _ _ = _ |- _ =>
      apply check_lengths_ok in Hc; destruct Hc as (-> & _)
  end.
  unfold scale_range in *. rewrite HN in *.
  change (seq 0 (Z.to_nat 2)) with [0; 1] in *.
  cbn [scale_loop] in *. run_ok.
  match goal with
  | H0 : scale_iter _ _ _ _ _ _ _ _ 0 _ _ = (Ok ?r, _) |- _ =>
      rename H0 into Hfirst; destruct r as [fl0 preds0]
  end.
  match goal with
  | H1 : scale_iter _ _ _ _ _ _ _ _ 1 _ _ = _ |- _ => rename H1 into Hsecond
  end.
  pose proof Hfirst as Hfirst'.
  unfold scale_iter in Hfirst'. run_ok.
  injection H as -> ->.
  match goal with
  | Hm : scale_match _ _ _ _ _ _ _ 0 None _ = _ |- _ =>
      rename Hm into Hmatch0
  end.
  pose proof (scale_match_first _ _ _ _ _ _ _ _ _ _ _ _ _ _ Hmatch0)
        as (pl & cl & cr & wdA & _ & _ & Hf0 & Hf1 & Hcl & Hcr & Hcorr & HsA).
  injection Hcl as <-. injection Hcr as <-.
  rewrite Z.eqb_refl in Hcorr, HsA. subst.
  match goal with
  | Hp : propagate _ _ _ _ _ _ _ _ = _ |- _ =>
      destruct (propagate_inv _ _ _ _ _ _ _ _ _ _ _ _ Hp)
        as (_ & wdp & wdp' & Hattn & _)
  end.
  unfold scale_iter in Hsecond. run_ok.
  match goal with
  | Hm : scale_match _ _ _ _ _ _ _ 1 (Some _) _ = _ |- _ =>
      pose proof (scale_match_later _ _ _ _ _ _ _ _ _ _ _ _ _ _ _ _ Hm)
        as (up & pred1 & cl & cr1 & f1_in & wd0 & wd & wd' & Hup & Hwarp &
            Hcl & Hcr1 & Hcorr1 & Hadd);
      rename Hm into Hmatch1
  end.
  injection Hcl as <-. cbn [nth_error] in Hcr1.
  do 23 eexists.
  split; [exact Hmatch0|].
  split; [exact Hf0|]. split; [exact Hf1|].
  split; [exact Hcorr|]. split; [reflexivity|].
  split; [exact Hattn|]. split; [exact Hfirst|].
  split; [exact Hmatch1|]. split; [exact Hup|]. split; [exact Hwarp|].
  split; [exact Hcr1|]. split; [exact Hcorr1|exact Hadd].
Qed.

Lemma residual_accumulation_witness :
  num_scales (Demo.model 2 2 false) = 2%Z /\
  exists preds st',
    forward_scales (Demo.model 2 2 false) Demo.imports
      [Demo.coarse0; Demo.fine0] [Demo.coarse1; Demo.fine1]
      (Some [2; 8]%Z) (Some [-1; 4]%Z) (Some [0; 1]%Z) false Demo.start
    = (Ok preds, st') /\
    exists pred0 flow0 up pred1 acc1 wd',
      global_correlation_softmax Demo.imports Demo.coarse0 Demo.coarse1
        false 0 = (Ok pred0, wd') /\
      interpolate_bilinear flow0 2 = Ok up /\
      add (scale 2 up) pred1 = Ok acc1.
Proof.
  split; [reflexivity|].
  eexists. eexists. split; [evaluate|].
  edestruct (residual_accumulation_two_scales nat (Demo.model 2 2 false)
               Demo.imports [Demo.coarse0; Demo.fine0]
               [Demo.coarse1; Demo.fine1] (Some [2; 8]%Z) (Some [0; 1]%Z)
               [4%Z] false Demo.start)
    as (feature0 & feature1 & pred0 & features & flow0 & prop0 & sA & sB &
        sC & preds0 & wdp & wdp' & f0' & f1_in & f1' & acc1 & up & pred1 &
        prop1 & cr1 & wd0 & wd & wd' & _ & Hf0 & Hf1 & Hcorr & _ & _ & _ &
        _ & Hup & _ & _ & _ & Hadd); [reflexivity | evaluate |].
  injection Hf0 as <-. injection Hf1 as <-.
  exists pred0, flow0, up, pred1, acc1, (world sA).
  split; [exact Hcorr|]. split; [exact Hup|exact Hadd].
Defined.

(** ** Bidirectional mode *)

Lemma shape_eqb_true (s1 s2 : list nat) : shape_eqb s1 s2 = true -> s1 = s2.
Proof. unfold shape_eqb. now destruct (list_eq_dec Nat.eq_dec s1 s2). Qed.

Lemma shape_eqb_refl (s : list nat) : shape_eqb s s = true.
Proof. unfold shape_eqb. now destruct (list_eq_dec Nat.eq_dec s s). Qed.

(** Joining a batch of [2B] flows and a batch of [B] feature maps along the
    channels is refused. *)
Lemma cat_channels_batch_mismatch (flow feature : Tensor) (b c h w : nat) :
  0 < b ->
  shape flow = [2 * b; 2; h; w] -> shape feature = [b; c; h; w] ->
  cat 1 flow feature = Err RuntimeError.
Proof.
  intros Hb Hf Hg.
  rewrite (cat_rank4 1 flow feature _ _ _ _ _ _ _ _ Hf Hg) by lia.
  unfold cat_compatible. rewrite Hf, Hg.
  cbn [length drop_nth Nat.eqb Nat.ltb Nat.leb andb].
  destruct (shape_eqb [2 * b; h; w] [b; h; w]) eqn:E; [|reflexivity].
  apply shape_eqb_true in E. injection E as E. lia.
Qed.

(** Joining two tensors of one shape along the batch. *)
Lemma cat_batch_same_shape (a b : Tensor) (n c h w : nat) :
  shape a = [n; c; h; w] -> shape b = [n; c; h; w] ->
  exists t, cat 0 a b = Ok t /\ shape t = [2 * n; c; h; w].
Proof.
  intros Ha Hb.
  rewrite (cat_rank4 0 a b _ _ _ _ _ _ _ _ Ha Hb) by lia.
  unfold cat_compatible. rewrite Ha, Hb.
  cbn [length drop_nth Nat.eqb Nat.ltb Nat.leb andb nth set_nth].
  rewrite shape_eqb_refl. cbn [negb].
  eexists. split; [reflexivity|]. simpl. f_equal. lia.
Qed.

Lemma cat_batch_shape (a b t : Tensor) (n m c h w : nat) :
  shape a = [n; c; h; w] -> shape b = [m; c; h; w] ->
  cat 0 a b = Ok t -> shape t = [n + m; c; h; w].
Proof.
  intros Ha Hb.
  rewrite (cat_rank4 0 a b _ _ _ _ _ _ _ _ Ha Hb) by lia.
  destruct (negb _); [discriminate|].
  intros [= <-]. rewrite Ha, Hb. reflexivity.
Qed.

(** C9.  Bidirectional mode with one scale, the global correlation
    answering a flow of doubled batch as its contract says.  The flow has
    batch [2B]; the convex upsampling before the propagation joins it along
    the channels with [feature0], still of batch [B], and that [torch.cat]
    is refused: the run fails with [RuntimeError] right after the
    correlation, before any propagation.  The feature tensor handed to the
    convex upsampling after the propagation would be the one line 148 rebinds,
    of batch [2B]: the two upsamplings are given feature tensors of
    different batch sizes.  The batch is not empty. *)
Theorem bidirectional_single_scale_fails :
  forall (World : Type) (self : GMFlow World) (env : Imports World)
    (f0 f1 pred : Tensor) (a0 p0 : Z) (st : State World) (wd' : World)
    (b c h w : nat),
    bidirectional_correlation_doubles_batch env ->
    num_scales self = 1%Z ->
    0 < b ->
    shape f0 = [b; c; h; w] -> shape f1 = [b; c; h; w] ->
    global_correlation_softmax env f0 f1 true (world st) = (Ok pred, wd') ->
    shape pred = [2 * b; 2; h; w] /\
    cat 1 pred f0 = Err RuntimeError /\
    forward_scales self env [f0] [f1] (Some [a0]) (Some [(-1)%Z])
      (Some [p0]) true st
    = (Err RuntimeError,
       mkState wd' (trace st ++ [EvGlobalCorr true; EvCat 1])) /\
    (forall flow st1 f0' fl' st2,
        propagate self true 0 f0 f1 p0 flow st1 = (Ok (f0', fl'), st2) ->
        shape f0' = [2 * b; c; h; w] /\ shape f0' <> shape f0).
Proof.
  intros World self env f0 f1 pred a0 p0 st wd' b c h w Hcontract HN Hb
    Hs0 Hs1 Hgcs.
  pose proof (Hcontract f0 f1 b c h w _ _ _ Hs0 Hs1 Hgcs) as Hsp.
  pose proof (cat_channels_batch_mismatch pred f0 b c h w Hb Hsp Hs0) as Hcat.
  split; [exact Hsp|]. split; [exact Hcat|]. split.
  - assert (Hcheck : check_lengths self (Some [a0]) (Some [(-1)%Z])
                       (Some [p0]) st = (Ok tt, st)).
    { unfold check_lengths. rewrite HN. reflexivity. }
    assert (Hmatch : scale_match env [f0] [f1] (Some [a0]) (Some [(-1)%Z])
                       (Some [p0]) true 0 None st
                     = (Ok (f0, f1, p0, pred),
                        mkState wd' (trace st ++ [EvGlobalCorr true]))).
    { unfold scale_match. cbn. unfold bind, call, ret. cbn.
      now rewrite Hgcs. }
    assert (Hup : upsample_before_propagation self 0 pred f0 []
                    (mkState wd' (trace st ++ [EvGlobalCorr true]))
                  = (Err RuntimeError,
                     mkState wd' (trace st ++ [EvGlobalCorr true; EvCat 1]))).
    { unfold upsample_before_propagation, is_training_intermediate,
        is_last_scale. rewrite HN. cbn [Z.of_nat Z.sub Z.ltb Z.eqb Z.compare
                                        Z.opp Z.add Z.pos_sub andb].
      rewrite andb_false_r.
      unfold upsample_flow, bind, torch, ret, log. cbn [trace world].
      rewrite Hcat. now rewrite <- app_assoc. }
    unfold forward_scales.
    rewrite (bind_eq_ok _ _ _ _ _ _ Hcheck).
    unfold scale_range. rewrite HN. change (seq 0 (Z.to_nat 1)) with [0].
    cbn [scale_loop]. unfold scale_iter.
    rewrite (bind_eq_err _ _ _ _ _ _
               (bind_eq_err _ _ _ _ _ _
                  (eq_trans (bind_eq_ok _ _ _ _ _ _ Hmatch)
                     (bind_eq_err _ _ _ _ _ _ Hup)))).
    reflexivity.
  - intros flow st1 f0' fl' st2 Hp.
    destruct (propagate_inv _ _ _ _ _ _ _ _ _ _ _ _ Hp) as (Hc & _).
    cbn in Hc.
    destruct (cat_batch_same_shape f0 f1 b c h w Hs0 Hs1) as (t & Ht & Hst).
    rewrite Ht in Hc. injection Hc as <-.
    split; [exact Hst|]. rewrite Hst, Hs0. intros [= E]. lia.
Qed.

Lemma contract_doubles_batch (World : Type) (env : Imports World)
  (flow_of : Tensor -> Tensor -> Tensor) :
  bidirectional_correlation_contract env flow_of ->
  bidirectional_correlation_doubles_batch env.
Proof.
  intros Hc f0 f1 b c h w wd wd' r Hs0 Hs1 Hr.
  destruct (Hc f0 f1 b c h w wd wd' r Hs0 Hs1 Hr) as (Ha & Hb & Hcat).
  rewrite (cat_batch_shape _ _ _ _ _ _ _ _ Ha Hb Hcat). f_equal. lia.
Qed.

(** C7.  Bidirectional mode at scale 0, global correlation, feature maps of
    one shape [B, C, H, W], the collaborators keeping their contracts.  The
    correlation is asked for both directions, [feature0] is joined with
    [feature1] along the batch before the propagation, and whenever the
    scale produces its flow, that flow has batch [2B]: its first half is the
    propagated flow from [feature0] to [feature1], its second half the
    propagated flow from [feature1] to [feature0]. *)
Theorem bidirectional_flow_after_propagation :
  forall (World : Type) (self : GMFlow World) (env : Imports World)
    (flow_of : Tensor -> Tensor -> Tensor)
    (propagated : Tensor -> Tensor -> bool -> Z -> Tensor)
    (feature0_list feature1_list : list Tensor)
    (attn_splits_list : option (list Z)) (radii prop_radii : list Z)
    (prop0 : Z) (feature0 feature1 : Tensor) (b c h w : nat)
    (preds : list Tensor) (st st' : State World)
    (r : option Tensor * list Tensor),
    bidirectional_correlation_contract env flow_of ->
    batchwise_propagation_contract self propagated ->
    nth_error feature0_list 0 = Some feature0 ->
    nth_error feature1_list 0 = Some feature1 ->
    shape feature0 = [b; c; h; w] -> shape feature1 = [b; c; h; w] ->
    scale_iter self env feature0_list feature1_list attn_splits_list
      (Some ((-1)%Z :: radii)) (Some (prop0 :: prop_radii)) true 0
      (None, preds) st = (Ok r, st') ->
    exists flow : Tensor,
      fst r = Some flow /\
      shape flow = [2 * b; 2; h; w] /\
      shape (propagated feature0 (flow_of feature0 feature1)
               (Z.ltb 0 prop0) prop0) = [b; 2; h; w] /\
      shape (propagated feature1 (flow_of feature1 feature0)
               (Z.ltb 0 prop0) prop0) = [b; 2; h; w] /\
      cat 0
        (propagated feature0 (flow_of feature0 feature1) (Z.ltb 0 prop0) prop0)
        (propagated feature1 (flow_of feature1 feature0) (Z.ltb 0 prop0) prop0)
      = Ok flow.
Proof.
  intros World self env flow_of propagated f0l f1l a radii prop_radii prop0
    feature0 feature1 b c h w preds st st' r Hcorr Hprop Hf0 Hf1 Hs0 Hs1 H.
  unfold scale_iter in H. run_ok.
  match goal with
  | Hm : scale_match _ _ _ _ _ _ _ 0 None _ = _ |- _ =>
      pose proof (scale_match_first _ _ _ _ _ _ _ _ _ _ _ _ _ _ Hm)
        as (pl & cl & cr & wdA & Hpl & Hpr & Hg0 & Hg1 & Hcl & Hcr & Hgcs & _)
  end.
  injection Hpl as <-. injection Hpr as <-.
  injection Hcl as <-. injection Hcr as <-.
  rewrite Z.eqb_refl in Hgcs.
  rewrite Hf0 in Hg0. injection Hg0 as <-.
  rewrite Hf1 in Hg1. injection Hg1 as <-.
  destruct (Hcorr _ _ _ _ _ _ _ _ _ Hs0 Hs1 Hgcs) as (Hfw & Hbw & Hpred).
  match goal with
  | Hp : propagate _ _ _ _ _ _ _ _ = _ |- _ =>
      destruct (propagate_inv _ _ _ _ _ _ _ _ _ _ _ _ Hp)
        as (Hfcat & wdp & wdp' & Hattn & _)
  end.
  cbn [andb Nat.eqb] in Hfcat.
  destruct (Hprop _ _ _ _ _ _ _ _ _ _ _ _ _ _ _ Hs0 Hs1 Hfw Hbw Hfcat Hpred
              Hattn) as (Hpa & Hpb & Hout).
  eexists. split; [reflexivity|].
  split; [|split; [exact Hpa|split; [exact Hpb|exact Hout]]].
  rewrite (cat_batch_shape _ _ _ _ _ _ _ _ Hpa Hpb Hout). f_equal. lia.
Qed.

Lemma demo_correlation_contract :
  bidirectional_correlation_contract Demo.imports Demo.flow_between.
Proof.
  intros f0 f1 b c h w wd wd' r Hs0 Hs1 Hr.
  simpl in Hr. unfold Demo.global_correlation in Hr.
  injection Hr as Hr _.
  unfold Demo.flow_between in *. rewrite Hs0, Hs1 in *.
  split; [reflexivity|]. split; [reflexivity|exact Hr].
Qed.

Lemma demo_propagation_contract (n k : Z) (train : bool) :
  batchwise_propagation_contract (Demo.model n k train)
    (fun _ x _ _ => x).
Proof.
  intros fa fb xa xb fcat xcat out b c h w lw r wd wd' _ _ Ha Hb _ Hx Hr.
  simpl in Hr. unfold Demo.attention in Hr. injection Hr as <- _.
  now repeat split.
Qed.

Lemma bidirectional_single_scale_witness :
  bidirectional_correlation_doubles_batch Demo.imports /\
  num_scales (Demo.model 1 2 false) = 1%Z /\
  shape Demo.coarse0 = [1; 1; 1; 1] /\ shape Demo.coarse1 = [1; 1; 1; 1] /\
  forward_scales (Demo.model 1 2 false) Demo.imports [Demo.coarse0]
    [Demo.coarse1] (Some [2%Z]) (Some [(-1)%Z]) (Some [0%Z]) true Demo.start
  = (Err RuntimeError, mkState 1 [EvGlobalCorr true; EvCat 1]).
Proof.
  pose proof (contract_doubles_batch nat Demo.imports Demo.flow_between
                demo_correlation_contract) as Hc.
  split; [exact Hc|]. split; [reflexivity|].
  split; [reflexivity|]. split; [reflexivity|].
  edestruct bidirectional_single_scale_fails
    with (self := Demo.model 1 2 false) (env := Demo.imports)
         (f0 := Demo.coarse0) (f1 := Demo.coarse1) (a0 := 2%Z) (p0 := 0%Z)
         (st := Demo.start) (b := 1) (c := 1) (h := 1) (w := 1)
    as (_ & _ & Hrun & _);
    [exact Hc | reflexivity | lia | reflexivity | reflexivity | evaluate |].
  exact Hrun.
Defined.

Lemma bidirectional_flow_witness :
  bidirectional_correlation_contract Demo.imports Demo.flow_between /\
  batchwise_propagation_contract (Demo.model 2 2 false) (fun _ x _ _ => x) /\
  exists flow preds st',
    scale_iter (Demo.model 2 2 false) Demo.imports
      [Demo.coarse0; Demo.fine0] [Demo.coarse1; Demo.fine1]
      (Some [2; 8]%Z) (Some [-1; 4]%Z) (Some [0; 1]%Z) true 0 (None, [])
      Demo.start = (Ok (Some flow, preds), st') /\
    shape flow = [2; 2; 1; 1] /\
    cat 0 (Demo.flow_between Demo.coarse0 Demo.coarse1)
          (Demo.flow_between Demo.coarse1 Demo.coarse0) = Ok flow.
Proof.
  split; [exact demo_correlation_contract|].
  split; [apply demo_propagation_contract|].
  eexists. eexists. eexists. split; [evaluate|].
  edestruct bidirectional_flow_after_propagation
    with (self := Demo.model 2 2 false) (env := Demo.imports)
         (flow_of := Demo.flow_between)
         (propagated := fun (_ x : Tensor) (_ : bool) (_ : Z) => x)
         (feature0_list := [Demo.coarse0; Demo.fine0])
         (feature1_list := [Demo.coarse1; Demo.fine1])
         (attn_splits_list := Some [2; 8]%Z) (radii := [4%Z])
         (prop_radii := [1%Z]) (prop0 := 0%Z) (feature0 := Demo.coarse0)
         (feature1 := Demo.coarse1) (b := 1) (c := 1) (h := 1) (w := 1)
         (preds := @nil Tensor) (st := Demo.start)
    as (flow & Hfl & Hshape & _ & _ & Hcat);
    [exact demo_correlation_contract
    | exact (demo_propagation_contract 2 2 false)
    | reflexivity | reflexivity | reflexivity | reflexivity | evaluate |].
  simpl in Hfl. injection Hfl as <-.
  split; [exact Hshape|exact Hcat].
Defined.

(** ** [forward_image] and the feature lists of [extract_feature] *)

Section SingleScale.

Variable World : Type.
Variable self : GMFlow World.
Variable env : Imports World.

(** [extract_feature] returns two lists of one feature map each. *)
Lemma extract_feature_singletons (img0 img1 : Tensor)
  (l0 l1 : list Tensor) (st st' : State World) :
  extract_feature self img0 img1 st = (Ok (l0, l1), st') ->
  exists c0 c1, l0 = [c0] /\ l1 = [c1].
Proof.
  unfold extract_feature. intros H. run_ok.
  injection H as -> ->. do 2 eexists. split; reflexivity.
Qed.

(** A run of [forward_image] that returns is a run of the scale loop on the
    lists of [extract_feature]. *)
Lemma forward_image_runs_forward_scales (img0 img1 : Tensor)
  (a c p : option (list Z)) (bidir : bool) (st st' : State World)
  (preds : list Tensor) :
  forward_image self env img0 img1 a c p bidir st = (Ok preds, st') ->
  exists c0 c1 st1,
    extract_feature self img0 img1 st = (Ok ([c0], [c1]), st1) /\
    forward_scales self env [c0] [c1] a c p bidir st1 = (Ok preds, st').
Proof.
  unfold forward_image. intros H.
  apply bind_ok in H. destruct H as ([l0 l1] & st1 & He & H).
  destruct (extract_feature_singletons _ _ _ _ _ _ He) as (c0 & c1 & -> & ->).
  now exists c0, c1, st1.
Qed.

(** The second scale finds no feature map in a list of one. *)
Lemma scale_iter_beyond_features (c0 c1 : Tensor)
  (a c p : option (list Z)) (bidir : bool) (s : nat)
  (acc : option Tensor * list Tensor) (st : State World) :
  scale_iter self env [c0] [c1] a c p bidir (S s) acc st
  = (Err IndexError, st).
Proof.
  unfold scale_iter. destruct acc as [flow preds].
  unfold scale_match, py_index. destruct s; reflexivity.
Qed.

(** With the feature lists that [extract_feature] builds, [forward_image]
    returns only for at most one scale: the loop of a model of two scales or
    more raises [IndexError] at line 101 of its second iteration. *)
Theorem forward_image_returns_for_one_scale_only :
  forall (img0 img1 : Tensor) (a c p : option (list Z)) (bidir : bool)
    (st st' : State World) (preds : list Tensor),
    forward_image self env img0 img1 a c p bidir st = (Ok preds, st') ->
    (num_scales self = 0%Z /\ preds = []) \/
    (num_scales self = 1%Z /\ length preds = 2).
Proof.
  intros img0 img1 a c p bidir st st' preds H.
  destruct (forward_image_runs_forward_scales _ _ _ _ _ _ _ _ _ H)
    as (c0 & c1 & st1 & _ & Hs).
  unfold forward_scales in Hs. run_ok.
  match goal with
  | Hc : check_lengths _ _ _ _ _ = _ |- _ =>
      apply check_lengths_ok in Hc;
      destruct Hc as (-> & la & lc & lp & _ & _ & _ & HN & _)
  end.
  unfold scale_range in *. rewrite <- HN in *. rewrite Nat2Z.id in *.
  destruct la as [|r0 [|r1 la]].
  - left. split; [reflexivity|]. cbn [length seq scale_loop] in *. now run_ok.
  - right. split; [reflexivity|]. cbn [length seq scale_loop] in *. run_ok.
    match goal with
    | Hi : scale_iter _ _ _ _ _ _ _ _ _ _ _ = _ |- _ =>
        apply scale_iter_appends in Hi; [|rewrite <- HN; simpl; lia];
        destruct Hi as (fl & new & E & Hn)
    end.
    rewrite E. simpl. rewrite Hn, <- HN. reflexivity.
  - exfalso. cbn [length seq scale_loop] in *. run_ok.
    match goal with
    | Hi : scale_iter _ _ [c0] [c1] _ _ _ _ 1 _ _ = _ |- _ =>
        rewrite scale_iter_beyond_features in Hi; discriminate Hi
    end.
Qed.

End SingleScale.

Lemma forward_image_one_scale_witness :
  exists preds st',
    forward_image (Demo.model 1 2 false) Demo.imports Demo.image0 Demo.image1
      (Some [2%Z]) (Some [(-1)%Z]) (Some [0%Z]) false Demo.start
    = (Ok preds, st') /\
    length preds = 2.
Proof.
  eexists. eexists. split; [evaluate|].
  edestruct forward_image_returns_for_one_scale_only
    with (self := Demo.model 1 2 false) (env := Demo.imports)
         (img0 := Demo.image0) (img1 := Demo.image1) (a := Some [2%Z])
         (c := Some [(-1)%Z]) (p := Some [0%Z]) (bidir := false)
         (st := Demo.start) as [[H0 _]|[_ H2]]; [evaluate | | exact H2].
  discriminate H0.
Defined.

(** * Further properties of the code *)

(** ** Parameter lists that are [None] *)

(** A call that leaves one of the three per-scale parameters at its default
    [None] never reaches the scale loop: after the feature extraction the
    assertion of line 97 takes [len] of the lists from left to right and
    raises [TypeError] at the first one that is [None], unless the first two
    are lists of different lengths, in which case the comparison has already
    failed with [AssertionError].  The state is the one the extraction
    left. *)
Theorem forward_image_none_lists :
  forall (World : Type) (self : GMFlow World) (env : Imports World)
    (img0 img1 : Tensor)
    (attn_splits_list corr_radius_list prop_radius_list : option (list Z))
    (pred_bidir_flow : bool) (st : State World),
    attn_splits_list = None \/ corr_radius_list = None \/
    prop_radius_list = None ->
    forward_image self env img0 img1 attn_splits_list corr_radius_list
      prop_radius_list pred_bidir_flow st
    = match extract_feature self img0 img1 st with
      | (Ok _, st1) =>
          (Err match attn_splits_list, corr_radius_list with
               | Some la, Some lc =>
                   if Nat.eqb (length la) (length lc) then TypeError
                   else AssertionError
               | _, _ => TypeError
               end, st1)
      | (Err e, st1) => (Err e, st1)
      end.
Proof.
  intros World self env img0 img1 a c p bidir st Hnone.
  unfold forward_image, bind at 1.
  destruct (extract_feature self img0 img1 st) as [[[f0l f1l]|e] st1];
    [|reflexivity].
  unfold forward_scales, bind at 1.
  assert (Hc : check_lengths self a c p st1
               = (Err match a, c with
                      | Some la, Some lc =>
                          if Nat.eqb (length la) (length lc) then TypeError
                          else AssertionError
                      | _, _ => TypeError
                      end, st1)).
  { unfold check_lengths, py_len, bind, ret, raise.
    destruct a as [la|]; [|reflexivity].
    destruct c as [lc|]; [|reflexivity].
    destruct p as [lp|]; [destruct Hnone as [H|[H|H]]; discriminate H|].
    destruct (Nat.eqb_spec (length la) (length lc)) as [E|E].
    - rewrite E, Z.eqb_refl. reflexivity.
    - destruct (Z.eqb_spec (Z.of_nat (length la)) (Z.of_nat (length lc)));
        [lia|reflexivity]. }
  now rewrite Hc.
Qed.

Lemma forward_image_none_lists_witness :
  (@None (list Z) = None \/ @None (list Z) = None \/ @None (list Z) = None) /\
  forward_image (Demo.model 1 2 false) Demo.imports Demo.image0 Demo.image1
    None None None false Demo.start
  = (Err TypeError, mkState 1 [EvStack; EvPermute; EvBackbone; EvChunk]).
Proof.
  split; [now left|].
  rewrite (forward_image_none_lists nat (Demo.model 1 2 false) Demo.imports
             Demo.image0 Demo.image1 None None None false Demo.start
             (or_introl eq_refl)).
  evaluate.
Defined.

(** ** A model without a backbone *)

Lemma stack1_images (img0 img1 : Tensor) (b c h w : nat) :
  shape img0 = [b; c; h; w] -> shape img1 = [b; c; h; w] ->
  exists stacked concat,
    stack1 img0 img1 = Ok stacked /\
    shape stacked = [b; 2; c; h; w] /\
    permute stacked [0; 1; 3; 4; 2] = Ok concat /\
    shape concat = [b; 2; h; w; c].
Proof.
  intros H0 H1. unfold stack1. rewrite H0, H1, shape_eqb_refl. cbn [negb].
  eexists. eexists. split; [reflexivity|]. split; [reflexivity|].
  unfold permute, rank. cbn [shape tabulate length].
  split; reflexivity.
Qed.

(** A model built without a backbone (the default of [__init__]) cannot
    extract features: every call to [forward_image] fails, and for two
    4-dimensional images of the same shape it fails with [TypeError] at line
    45, after the stack and the permutation and before any collaborator is
    called. *)
Theorem forward_image_without_backbone :
  forall (World : Type) (self : GMFlow World) (env : Imports World)
    (img0 img1 : Tensor)
    (attn_splits_list corr_radius_list prop_radius_list : option (list Z))
    (pred_bidir_flow : bool) (st : State World),
    backbone self = None ->
    (exists e st',
        forward_image self env img0 img1 attn_splits_list corr_radius_list
          prop_radius_list pred_bidir_flow st = (Err e, st')) /\
    (forall b c h w,
        shape img0 = [b; c; h; w] -> shape img1 = [b; c; h; w] ->
        forward_image self env img0 img1 attn_splits_list corr_radius_list
          prop_radius_list pred_bidir_flow st
        = (Err TypeError,
           mkState (world st) (trace st ++ [EvStack; EvPermute]))).
Proof.
  intros World self env img0 img1 a c p bidir st Hnone. split.
  - unfold forward_image, extract_feature, bind, torch. rewrite Hnone.
    destruct (stack1 img0 img1) as [stacked|e]; [|now eexists; eexists].
    destruct (permute stacked [0; 1; 3; 4; 2]) as [concat|e];
      now eexists; eexists.
  - intros b ch h w H0 H1.
    destruct (stack1_images img0 img1 b ch h w H0 H1)
      as (stacked & concat & Hs & _ & Hp & _).
    unfold forward_image, extract_feature, bind, torch, raise, log.
    rewrite Hnone, Hs, Hp. cbn [trace world]. now rewrite <- app_assoc.
Qed.

Lemma forward_image_without_backbone_witness :
  backbone (mkGMFlow 1 2 false None Demo.attention (Demo.network 2)) = None /\
  forward_image (mkGMFlow 1 2 false None Demo.attention (Demo.network 2))
    Demo.imports Demo.image0 Demo.image1 (Some [2%Z]) (Some [(-1)%Z])
    (Some [0%Z]) false Demo.start
  = (Err TypeError, mkState 0 [EvStack; EvPermute]).
Proof.
  split; [reflexivity|].
  exact (proj2 (forward_image_without_backbone nat
                  (mkGMFlow 1 2 false None Demo.attention (Demo.network 2))
                  Demo.imports Demo.image0 Demo.image1 (Some [2%Z])
                  (Some [(-1)%Z]) (Some [0%Z]) false Demo.start eq_refl)
           1 3 1 1 eq_refl eq_refl).
Defined.

(** ** No scale at all *)

Lemma check_lengths_state (World : Type) (self : GMFlow World)
  (a c p : option (list Z)) (st : State World) :
  snd (check_lengths self a c p st) = st.
Proof.
  unfold check_lengths, py_len, bind, ret, raise.
  destruct a as [la|]; [|reflexivity]. destruct c as [lc|]; [|reflexivity].
  destruct (Z.eqb _ _); [|reflexivity]. cbn [negb].
  destruct p as [lp|]; [|reflexivity].
  destruct (Z.eqb _ _); [|reflexivity]. cbn [negb].
  destruct (Z.eqb _ _); reflexivity.
Qed.

(** With [num_scales <= 0] the loop of line 99 has no iteration: lines 95-163
    make no call at all, and they return (the empty list of predictions) only
    when [num_scales] is 0 and the three parameter lists are empty; otherwise
    the assertion of line 97 fails. *)
Theorem forward_scales_without_scales :
  forall (World : Type) (self : GMFlow World) (env : Imports World)
    (feature0_list feature1_list : list Tensor)
    (attn_splits_list corr_radius_list prop_radius_list : option (list Z))
    (pred_bidir_flow : bool) (st : State World),
    (num_scales self <= 0)%Z ->
    let run := forward_scales self env feature0_list feature1_list
                 attn_splits_list corr_radius_list prop_radius_list
                 pred_bidir_flow st in
    snd run = st /\
    (forall preds, fst run = Ok preds ->
       preds = [] /\ num_scales self = 0%Z /\
       attn_splits_list = Some [] /\ corr_radius_list = Some [] /\
       prop_radius_list = Some []) /\
    (num_scales self = 0%Z -> attn_splits_list = Some [] ->
     corr_radius_list = Some [] -> prop_radius_list = Some [] ->
     fst run = Ok []).
Proof.
  intros World self env f0l f1l a c p bidir st HN run.
  assert (Hrange : scale_range self = []).
  { unfold scale_range. now replace (Z.to_nat (num_scales self)) with 0 by lia. }
  assert (Erun : run = match check_lengths self a c p st with
                       | (Ok _, s1) => (Ok [], s1)
                       | (Err e, s1) => (Err e, s1)
                       end).
  { unfold run, forward_scales. rewrite Hrange. cbn [scale_loop].
    unfold bind, ret. now destruct (check_lengths self a c p st) as [[[]|e] s1]. }
  pose proof (check_lengths_state World self a c p st) as Hst.
  split; [|split].
  - rewrite Erun. destruct (check_lengths self a c p st) as [[u|e] s1];
      exact Hst.
  - intros preds Hp. rewrite Erun in Hp.
    destruct (check_lengths self a c p st) as [[u|e] s1] eqn:Hc;
      [|discriminate Hp].
    injection Hp as <-.
    apply check_lengths_ok in Hc.
    destruct Hc as (_ & la & lc & lp & -> & -> & -> & Hl & Hlc & Hlp).
    assert (length la = 0) by lia.
    destruct la; [|discriminate]. destruct lc; [|discriminate].
    destruct lp; [|discriminate]. repeat split. simpl in Hl. lia.
  - intros H0 -> -> ->. rewrite Erun. unfold check_lengths. rewrite H0.
    reflexivity.
Qed.

Lemma forward_scales_without_scales_witness :
  (num_scales (Demo.model 0 2 false) <= 0)%Z /\
  forward_scales (Demo.model 0 2 false) Demo.imports [Demo.coarse0]
    [Demo.coarse1] (Some []) (Some []) (Some []) false Demo.start
  = (Ok [], Demo.start).
Proof.
  assert (H : (num_scales (Demo.model 0 2 false) <= 0)%Z) by (simpl; lia).
  split; [exact H|].
  destruct (forward_scales_without_scales nat (Demo.model 0 2 false)
              Demo.imports [Demo.coarse0] [Demo.coarse1] (Some []) (Some [])
              (Some []) false Demo.start H) as (Hs & _ & Hok).
  cbv zeta in Hs, Hok.
  specialize (Hok eq_refl eq_refl eq_refl eq_refl).
  destruct (forward_scales (Demo.model 0 2 false) Demo.imports
              [Demo.coarse0] [Demo.coarse1] (Some []) (Some []) (Some [])
              false Demo.start) as [r s].
  simpl in Hs, Hok. now subst.
Defined.

(** ** Images that cannot be stacked *)

(** Images that do not have the same shape, or are not 4-dimensional, are
    refused before the backbone is called, and the world is left as it was.
    [torch.stack] first checks the position 1 against the rank of the first
    image, so a 0-dimensional first image gives [IndexError] whatever the
    second; otherwise images of different shapes give [RuntimeError] in the
    stack; and images of one shape and of a rank other than 4 give
    [RuntimeError] in the permutation of five dimensions. *)
Theorem forward_image_rejects_images :
  forall (World : Type) (self : GMFlow World) (env : Imports World)
    (img0 img1 : Tensor)
    (attn_splits_list corr_radius_list prop_radius_list : option (list Z))
    (pred_bidir_flow : bool) (st : State World),
    shape img0 <> shape img1 \/ rank img0 <> 4 ->
    exists e evs,
      forward_image self env img0 img1 attn_splits_list corr_radius_list
        prop_radius_list pred_bidir_flow st
      = (Err e, mkState (world st) (trace st ++ evs)) /\
      (rank img0 = 0 -> e = IndexError /\ evs = [EvStack]) /\
      (rank img0 <> 0 -> shape img0 <> shape img1 ->
       e = RuntimeError /\ evs = [EvStack]) /\
      (rank img0 <> 0 -> shape img0 = shape img1 ->
       e = RuntimeError /\ evs = [EvStack; EvPermute]).
Proof.
  intros World self env img0 img1 a c p bidir st H.
  unfold forward_image, extract_feature, bind, torch, log, stack1.
  unfold rank in *.
  destruct (shape img0) as [|d0 rest] eqn:Es.
  - exists IndexError, [EvStack]. cbn [world trace length].
    split; [reflexivity|]. split; [now split|].
    split; intros Hr; now contradiction Hr.
  - destruct (shape_eqb (d0 :: rest) (shape img1)) eqn:E; cbn [negb].
    + apply shape_eqb_true in E.
      destruct H as [H|H]; [contradiction|].
      unfold permute, rank. cbn [shape tabulate length].
      assert (Hp : is_permutation (S (S (length rest))) [0; 1; 3; 4; 2]
                   = false).
      { unfold is_permutation. cbn [length].
        destruct (Nat.eqb_spec 5 (S (S (length rest)))) as [E5|E5];
          [|reflexivity].
        cbn [length] in H. lia. }
      rewrite Hp. cbn [negb world trace].
      exists RuntimeError, [EvStack; EvPermute].
      rewrite <- app_assoc.
      split; [reflexivity|]. split; [discriminate|].
      split; [intros _ Hne; contradiction|]. intros _ _. now split.
    + exists RuntimeError, [EvStack]. cbn [world trace].
      split; [reflexivity|]. split; [discriminate|].
      split; [intros _ _; now split|].
      intros _ Heq. rewrite Heq, shape_eqb_refl in E. discriminate E.
Qed.

Lemma forward_image_rejects_images_witness :
  (exists st',
      forward_image (Demo.model 1 2 false) Demo.imports Demo.image0 Demo.fine1
        (Some [2%Z]) (Some [(-1)%Z]) (Some [0%Z]) false Demo.start
      = (Err RuntimeError, st') /\ trace st' = [EvStack]) /\
  (exists st',
      forward_image (Demo.model 1 2 false) Demo.imports
        (mkTensor [] [1%R]) (mkTensor [2] [1%R; 2%R])
        (Some [2%Z]) (Some [(-1)%Z]) (Some [0%Z]) false Demo.start
      = (Err IndexError, st') /\ trace st' = [EvStack]).
Proof.
  split.
  - destruct (forward_image_rejects_images nat (Demo.model 1 2 false)
                Demo.imports Demo.image0 Demo.fine1 (Some [2%Z])
                (Some [(-1)%Z]) (Some [0%Z]) false Demo.start)
      as (e & evs & Hrun & _ & Hne & _); [left; discriminate|].
    destruct Hne as [-> ->]; [discriminate | discriminate|].
    eexists. split; [exact Hrun|reflexivity].
  - destruct (forward_image_rejects_images nat (Demo.model 1 2 false)
                Demo.imports (mkTensor [] [1%R]) (mkTensor [2] [1%R; 2%R])
                (Some [2%Z]) (Some [(-1)%Z]) (Some [0%Z]) false Demo.start)
      as (e & evs & Hrun & H0 & _); [left; discriminate|].
    destruct H0 as [-> ->]; [reflexivity|].
    eexists. split; [exact Hrun|reflexivity].
Defined.

(** ** The two halves of the backbone's output *)

Lemma length_set_nth (d x : nat) (l : list nat) :
  length (set_nth d x l) = length l.
Proof.
  revert d. induction l as [|y l IH]; intros [|d]; simpl; auto.
Qed.

(** A slice along dimension 1 reads the tensor at the shifted position. *)
Lemma get_narrow1 (start len d0 n : nat) (rest : list nat) (t : Tensor)
  (i j : nat) (r : list nat) :
  shape t = d0 :: n :: rest ->
  valid_index (d0 :: len :: rest) (i :: j :: r) ->
  get (narrow 1 start len t) (i :: j :: r) = get t (i :: start + j :: r).
Proof.
  intros Hs Hv. unfold narrow. rewrite Hs. cbn [set_nth].
  rewrite get_tabulate by exact Hv. reflexivity.
Qed.

Lemma get_stack_permute (img0 img1 stacked concat : Tensor) (b c h w : nat) :
  shape img0 = [b; c; h; w] -> shape img1 = [b; c; h; w] ->
  stack1 img0 img1 = Ok stacked ->
  permute stacked [0; 1; 3; 4; 2] = Ok concat ->
  shape concat = [b; 2; h; w; c] /\
  forall i t y x k,
    i < b -> t < 2 -> y < h -> x < w -> k < c ->
    get concat [i; t; y; x; k]
    = get (if Nat.eqb t 0 then img0 else img1) [i; k; y; x].
Proof.
  intros H0 H1 Hs Hp. unfold stack1 in Hs.
  rewrite H0, H1, shape_eqb_refl in Hs. cbn [negb] in Hs.
  injection Hs as <-.
  rewrite (permute_inv _ _ _ Hp). unfold rank. cbn [shape tabulate length].
  cbn [map nth seq]. split; [reflexivity|].
  intros i t y x k Hi Ht Hy Hx Hk.
  rewrite get_tabulate by valid_tac.
  cbn [index_of Nat.eqb nth].
  rewrite get_tabulate by valid_tac. reflexivity.
Qed.

Lemma extract_feature_after_backbone (World : Type) (self : GMFlow World)
  (net : Tensor -> Extern World Tensor) (img0 img1 : Tensor)
  (b c h w : nat) (st : State World) :
  backbone self = Some net ->
  shape img0 = [b; c; h; w] -> shape img1 = [b; c; h; w] ->
  exists concat,
    shape concat = [b; 2; h; w; c] /\
    (forall i t y x k,
        i < b -> t < 2 -> y < h -> x < w -> k < c ->
        get concat [i; t; y; x; k]
        = get (if Nat.eqb t 0 then img0 else img1) [i; k; y; x]) /\
    forall (features : Tensor) (wd' : World),
      net concat (world st) = (Ok features, wd') ->
      extract_feature self img0 img1 st
      = bind (torch EvChunk (chunk2_dim1 features))
          (fun chunks =>
             bind (py_index chunks 0) (fun c0 =>
             bind (py_index chunks 1) (fun c1 => ret ([c0], [c1]))))
          (mkState wd' (trace st ++ [EvStack; EvPermute; EvBackbone])).
Proof.
  intros Hnet H0 H1.
  destruct (stack1_images img0 img1 b c h w H0 H1)
    as (stacked & concat & Hs & _ & Hp & _).
  destruct (get_stack_permute _ _ _ _ _ _ _ _ H0 H1 Hs Hp) as [Hsc Hval].
  exists concat. split; [exact Hsc|]. split; [exact Hval|].
  intros features wd' Hrun.
  unfold extract_feature. rewrite Hnet.
  unfold bind at 1. unfold torch at 1. rewrite Hs.
  unfold bind at 1. unfold torch at 1. rewrite Hp.
  unfold bind at 1. unfold call at 1. cbn [world log]. rewrite Hrun.
  cbn [trace log]. now rewrite <- !app_assoc.
Qed.

Lemma chunk2_halves (features : Tensor) (d0 n : nat) (rest : list nat) :
  shape features = d0 :: n :: rest -> 2 <= n ->
  chunk2_dim1 features
  = Ok [narrow 1 0 ((n + 1) / 2) features;
        narrow 1 ((n + 1) / 2) (n - (n + 1) / 2) features].
Proof.
  intros Hs Hn. unfold chunk2_dim1. rewrite Hs.
  assert (Hhalf : (n + 1) / 2 < n).
  { apply Nat.Div0.div_lt_upper_bound. lia. }
  destruct (Nat.eqb_spec n 0) as [E0|_]; [lia|].
  destruct (Nat.ltb_spec ((n + 1) / 2) n) as [_|Hge]; [reflexivity|lia].
Qed.

(** [extract_feature] hands the backbone the two images stacked along a new
    dimension 1 with the channels moved last, so that entry [[i, t, y, x, k]]
    is entry [[i, k, y, x]] of image [t].  When the backbone answers a tensor
    with [n >= 2] entries along dimension 1, the two lists hold one tensor
    each: the first [ceil(n/2)] entries along that dimension and the remaining
    ones; the dimension is kept.  With a single entry there is no second
    chunk and line 50 raises [IndexError]. *)
Theorem extract_feature_halves :
  forall (World : Type) (self : GMFlow World)
    (net : Tensor -> Extern World Tensor) (img0 img1 : Tensor)
    (b c h w : nat) (st : State World),
    backbone self = Some net ->
    shape img0 = [b; c; h; w] -> shape img1 = [b; c; h; w] ->
    exists concat,
      shape concat = [b; 2; h; w; c] /\
      (forall i t y x k,
          i < b -> t < 2 -> y < h -> x < w -> k < c ->
          get concat [i; t; y; x; k]
          = get (if Nat.eqb t 0 then img0 else img1) [i; k; y; x]) /\
      forall (features : Tensor) (wd' : World) (d0 n : nat) (rest : list nat),
        net concat (world st) = (Ok features, wd') ->
        shape features = d0 :: n :: rest ->
        let st' := mkState wd'
                     (trace st ++ [EvStack; EvPermute; EvBackbone; EvChunk]) in
        let half := (n + 1) / 2 in
        (n = 1 ->
         extract_feature self img0 img1 st = (Err IndexError, st')) /\
        (2 <= n ->
         exists feature0 feature1,
           extract_feature self img0 img1 st
           = (Ok ([feature0], [feature1]), st') /\
           shape feature0 = d0 :: half :: rest /\
           shape feature1 = d0 :: n - half :: rest /\
           (forall i j r,
               valid_index (d0 :: half :: rest) (i :: j :: r) ->
               get feature0 (i :: j :: r) = get features (i :: j :: r)) /\
           (forall i j r,
               valid_index (d0 :: n - half :: rest) (i :: j :: r) ->
               get feature1 (i :: j :: r)
               = get features (i :: half + j :: r))).
Proof.
  intros World self net img0 img1 b c h w st Hnet H0 H1.
  destruct (extract_feature_after_backbone World self net img0 img1 b c h w
              st Hnet H0 H1) as (concat & Hsc & Hval & Hpre).
  exists concat. split; [exact Hsc|]. split; [exact Hval|].
  intros features wd' d0 n rest Hrun Hsf st' half.
  rewrite (Hpre features wd' Hrun). split.
  - intros ->. unfold chunk2_dim1. rewrite Hsf. subst st'.
    unfold bind, torch, py_index, raise, log. cbn -[narrow app].
    now rewrite <- app_assoc.
  - intros Hn. rewrite (chunk2_halves features d0 n rest Hsf Hn). fold half.
    eexists. eexists. split; [|split; [|split; [|split]]].
    + subst st'. unfold bind, torch, py_index, ret, log. cbn [nth_error].
      cbn [world trace]. now rewrite <- app_assoc.
    + unfold narrow. rewrite Hsf. reflexivity.
    + unfold narrow. rewrite Hsf. reflexivity.
    + intros i j r Hv. now rewrite (get_narrow1 0 half d0 n rest).
    + intros i j r Hv. now rewrite (get_narrow1 half (n - half) d0 n rest).
Qed.

Lemma extract_feature_halves_witness :
  exists feature0 feature1,
    extract_feature (Demo.model 1 2 false) Demo.image0 Demo.image1 Demo.start
    = (Ok ([feature0], [feature1]),
       mkState 1 [EvStack; EvPermute; EvBackbone; EvChunk]) /\
    shape feature0 = [1; 1; 1; 1] /\ shape feature1 = [1; 1; 1; 1] /\
    get feature0 [0; 0; 0; 0] = 1%R /\ get feature1 [0; 0; 0; 0] = 4%R.
Proof.
  destruct (extract_feature_halves nat (Demo.model 1 2 false) Demo.backbone
              Demo.image0 Demo.image1 1 3 1 1 Demo.start eq_refl eq_refl
              eq_refl) as (concat & Hsc & Hval & Hrest).
  assert (Hrun : Demo.backbone concat (world Demo.start)
                 = (Ok (tabulate [1; 2; 1; 1]
                          (fun idx => get concat (idx ++ [0]))), 1)).
  { unfold Demo.backbone. rewrite Hsc. reflexivity. }
  destruct (Hrest _ 1 1 2 [1; 1] Hrun eq_refl) as [_ H2].
  destruct (H2 (le_n 2)) as (f0 & f1 & Hex & Hs0 & Hs1 & Hv0 & Hv1).
  exists f0, f1. split; [exact Hex|]. split; [exact Hs0|].
  split; [exact Hs1|]. split.
  - rewrite (Hv0 0 0 [0; 0]) by (cbn; valid_tac).
    rewrite get_tabulate by valid_tac. cbn [app].
    rewrite (Hval 0 0 0 0 0) by lia. reflexivity.
  - rewrite (Hv1 0 0 [0; 0]) by (cbn; valid_tac).
    change ((2 + 1) / 2 + 0) with 1.
    rewrite get_tabulate by valid_tac. cbn [app].
    rewrite (Hval 0 1 0 0 0) by lia. reflexivity.
Defined.

(** ** The rank of the features a one-scale run needs *)

Lemma extract_feature_inv (World : Type) (self : GMFlow World)
  (img0 img1 c0 c1 : Tensor) (st st1 : State World) :
  extract_feature self img0 img1 st = (Ok ([c0], [c1]), st1) ->
  exists net concat features wd',
    backbone self = Some net /\
    net concat (world st) = (Ok features, wd') /\
    rank c0 = rank features /\ rank c1 = rank features /\
    2 <= rank features.
Proof.
  unfold extract_feature. intros H.
  destruct (backbone self) as [net|]; run_ok.
  repeat match goal with
  | Hi : py_index _ _ _ = (Ok _, _) |- _ =>
      apply py_index_ok in Hi; destruct Hi as [? ->]
  end.
  injection H as -> ->.
  match goal with
  | Hn : net ?t _ = (Ok ?f, ?w) |- _ => exists net, t, f, w
  end.
  split; [reflexivity|]. split; [eassumption|].
  match goal with
  | Hc : chunk2_dim1 ?f = Ok ?ch |- _ =>
      unfold chunk2_dim1 in Hc;
      destruct (shape f) as [|d0 [|n rest]] eqn:Es; try discriminate Hc;
      destruct (Nat.eqb n 0);
        [|destruct (Nat.ltb ((n + 1) / 2) n)];
      injection Hc as <-
  end;
  repeat match goal with
  | Hi : nth_error _ _ = Some _ |- _ =>
      cbn [nth_error] in Hi; try discriminate Hi; injection Hi as <-
  end.
  - unfold rank. rewrite Es. cbn [length]. repeat split. lia.
  - unfold narrow, rank. cbn [shape tabulate].
    rewrite !length_set_nth, Es. cbn [length]. repeat split. lia.
Qed.

(** A call to [forward_image] of a model with at least one scale returns
    only if the output of the backbone is 4-dimensional: the chunk taken from
    it is concatenated with the flow along dimension 1 on line 62, and the
    shape of that flow is unpacked into four sizes on line 65.  A backbone
    whose output has the five dimensions [B, T, H, W, d] of the comment on
    line 45 makes every such call fail. *)
Theorem forward_image_needs_4d_features :
  forall (World : Type) (self : GMFlow World) (env : Imports World)
    (img0 img1 : Tensor)
    (attn_splits_list corr_radius_list prop_radius_list : option (list Z))
    (pred_bidir_flow : bool) (st st' : State World) (preds : list Tensor),
    (1 <= num_scales self)%Z ->
    forward_image self env img0 img1 attn_splits_list corr_radius_list
      prop_radius_list pred_bidir_flow st = (Ok preds, st') ->
    exists net concat features wd',
      backbone self = Some net /\
      net concat (world st) = (Ok features, wd') /\
      rank features = 4.
Proof.
  intros World self env img0 img1 a c p bidir st st' preds HN H.
  destruct (forward_image_runs_forward_scales _ _ _ _ _ _ _ _ _ _ _ _ H)
    as (c0 & c1 & st1 & He & Hs).
  destruct (extract_feature_inv _ _ _ _ _ _ _ _ He)
    as (net & concat & features & wd' & Hnet & Hrun & Hr0 & _ & Hr2).
  exists net, concat, features, wd'.
  split; [exact Hnet|]. split; [exact Hrun|].
  rewrite <- Hr0 in Hr2 |- *. clear He Hrun Hr0 H.
  unfold forward_scales in Hs. run_ok.
  unfold scale_range in *.
  destruct (Z.to_nat (num_scales self)) as [|[|m]] eqn:En; [lia| |].
  - assert (E1 : num_scales self = 1%Z) by lia.
    cbn [seq scale_loop] in *. run_ok.
    match goal with
    | Hi : scale_iter _ _ _ _ _ _ _ _ _ _ _ = _ |- _ =>
        unfold scale_iter in Hi
    end.
    run_ok.
    match goal with
    | Hm : scale_match _ _ _ _ _ _ _ _ _ _ = _ |- _ =>
        apply scale_match_first in Hm;
        destruct Hm as (pl & cl & cr & wd1 & _ & _ & Hf0 & _)
    end.
    cbn [nth_error] in Hf0. injection Hf0 as <-.
    match goal with
    | Hu : upsample_before_propagation _ _ _ _ _ _ = _ |- _ =>
        unfold upsample_before_propagation, is_training_intermediate,
          is_last_scale in Hu;
        rewrite E1 in Hu; cbn [Z.of_nat Z.sub Z.ltb Z.eqb Z.compare] in Hu;
        change (1 - 1)%Z with 0%Z in Hu;
        cbn [Z.ltb Z.eqb Z.compare] in Hu;
        rewrite andb_false_r in Hu
    end.
    run_ok.
    match goal with
    | Hu : upsample_flow _ _ _ _ _ _ = _ |- _ =>
        apply upsample_flow_convex_inv in Hu;
        destruct Hu as (f & cc & raw & w1 & b & ch & h & w & viewed & mask &
                        unf & upv & prod & summed & perm & Hf & Hcat &
                        _ & Hflow & _)
    end.
    injection Hf as <-.
    destruct (cat_ok_rank4 1 _ c0 cc b ch h w Hflow Hcat)
      as [_ [[Hskip _]|[Hrank _]]]; [|exact Hrank].
    unfold rank in Hr2. rewrite Hskip in Hr2. cbn [length] in Hr2. lia.
  - exfalso. cbn [seq scale_loop] in *. run_ok.
    match goal with
    | Hi : scale_iter _ _ [c0] [c1] _ _ _ _ 1 _ _ = _ |- _ =>
        rewrite scale_iter_beyond_features in Hi; discriminate Hi
    end.
Qed.

Lemma forward_image_needs_4d_features_witness :
  exists preds st' features wd',
    forward_image (Demo.model 1 2 false) Demo.imports Demo.image0 Demo.image1
      (Some [2%Z]) (Some [(-1)%Z]) (Some [0%Z]) false Demo.start
    = (Ok preds, st') /\
    (exists concat, Demo.backbone concat 0 = (Ok features, wd')) /\
    rank features = 4.
Proof.
  eexists. eexists.
  edestruct forward_image_needs_4d_features
    with (self := Demo.model 1 2 false) (env := Demo.imports)
         (img0 := Demo.image0) (img1 := Demo.image1)
         (attn_splits_list := Some [2%Z]) (corr_radius_list := Some [(-1)%Z])
         (prop_radius_list := Some [0%Z]) (pred_bidir_flow := false)
         (st := Demo.start)
    as (net & concat & features & wd' & Hnet & Hrun & Hrank);
    [simpl; lia | evaluate |].
  injection Hnet as <-.
  exists features, wd'. split; [evaluate|].
  split; [now exists concat|exact Hrank].
Defined.

(** ** Convex upsampling returns *)

Lemma view_ok (t : Tensor) (dims : list Z) :
  Forall (fun d => (0 <= d)%Z) dims ->
  numel (map Z.to_nat dims) = numel (shape t) ->
  view t dims = Ok (mkTensor (map Z.to_nat dims) (data t)).
Proof.
  intros Hpos Hn. unfold view.
  assert (Hall : forallb (fun d => Z.leb 0 d) dims = true).
  { apply forallb_forall. intros d Hd. apply Z.leb_le.
    rewrite Forall_forall in Hpos. now apply Hpos. }
  rewrite Hall. cbn [negb]. apply Nat.eqb_eq in Hn. now rewrite Hn.
Qed.

Lemma cat_channels_ok (flow feature : Tensor) (b c C h w : nat) :
  shape flow = [b; c; h; w] -> shape feature = [b; C; h; w] ->
  exists concat, cat 1 flow feature = Ok concat /\
                 shape concat = [b; c + C; h; w].
Proof.
  intros Hf Hg.
  rewrite (cat_rank4 1 flow feature _ _ _ _ _ _ _ _ Hf Hg) by lia.
  unfold cat_compatible. rewrite Hf, Hg.
  cbn [length drop_nth Nat.eqb Nat.ltb Nat.leb andb].
  rewrite shape_eqb_refl. cbn [negb nth set_nth].
  eexists. split; reflexivity.
Qed.

Section ConvexReturns.

Variable World : Type.
Variable self : GMFlow World.

Lemma upsample_flow_convex_ok (flow feature concat raw : Tensor)
  (b c C h w : nat) (karg : Z) (st : State World) (wd' : World) :
  let k := upsample_factor self in
  let kn := Z.to_nat k in
  shape flow = [b; c; h; w] -> shape feature = [b; C; h; w] ->
  0 < c -> 0 < h -> 0 < w -> (1 <= k)%Z ->
  cat 1 flow feature = Ok concat ->
  upsampler self concat (world st) = (Ok raw, wd') ->
  shape raw = [b; 9 * kn * kn; h; w] ->
  exists out,
    upsample_flow self flow (Some feature) false karg st
    = (Ok out, mkState wd' (trace st ++ convex_events k)) /\
    shape out = [b; c; kn * h; kn * w].
Proof.
  intros k kn Hf Hg Hc Hh Hw Hk Hcat Hnet Hraw.
  assert (Hkn : Z.of_nat kn = k) by (unfold kn; lia).
  (* the mask *)
  assert (Hview1 : view raw [Z.of_nat b; 1; 9; k; k; Z.of_nat h; Z.of_nat w]%Z
                   = Ok (mkTensor [b; 1; 9; kn; kn; h; w] (data raw))).
  { rewrite view_ok.
    - cbn [map]. rewrite !Nat2Z.id. reflexivity.
    - repeat (constructor; [lia|]). constructor.
    - cbn [map]. rewrite !Nat2Z.id, Hraw. fold kn.
      change (Z.to_nat 1) with 1. change (Z.to_nat 9) with 9.
      cbn [numel]. ring. }
  assert (Hsoft : exists mask,
             softmax 2 (mkTensor [b; 1; 9; kn; kn; h; w] (data raw)) = Ok mask /\
             shape mask = [b; 1; 9; kn; kn; h; w]).
  { unfold softmax, rank. cbn [shape length Nat.ltb Nat.leb negb].
    eexists. split; reflexivity. }
  destruct Hsoft as (mask & Hsoft & Hsm).
  (* the neighbourhoods *)
  assert (Hunf : exists unf, unfold3 (scale k flow) = Ok unf /\
                             shape unf = [b; c * 9; h * w]).
  { apply unfold3_ok; [exact Hf|exact Hc|exact Hh|exact Hw]. }
  destruct Hunf as (unf & Hunf & Hsu).
  assert (Hview2 : view unf [Z.of_nat b; Z.of_nat c; 9; 1; 1; Z.of_nat h;
                             Z.of_nat w]%Z
                   = Ok (mkTensor [b; c; 9; 1; 1; h; w] (data unf))).
  { rewrite view_ok.
    - cbn [map]. rewrite !Nat2Z.id. reflexivity.
    - repeat (constructor; [lia|]). constructor.
    - cbn [map]. rewrite !Nat2Z.id, Hsu.
      change (Z.to_nat 1) with 1. change (Z.to_nat 9) with 9.
      cbn [numel]. ring. }
  (* the weighted sum *)
  assert (Hmul : exists prod,
             mul mask (mkTensor [b; c; 9; 1; 1; h; w] (data unf)) = Ok prod /\
             shape prod = [b; c; 9; kn; kn; h; w]).
  { unfold mul, binop, rank. rewrite Hsm.
    cbn [shape length Nat.max pad_shape Nat.sub repeat app].
    cbn -[Nat.eqb tabulate]. rewrite !Nat.eqb_refl.
    destruct (Nat.eqb_spec 1 c) as [Ec|Ec];
      destruct (Nat.eqb_spec kn 1) as [Ek|Ek];
      eexists; (split; [reflexivity|]); cbn [shape tabulate];
      rewrite ?Ek; try rewrite <- Ec; reflexivity. }
  destruct Hmul as (prod & Hmul & Hsp).
  assert (Hsum : exists summed, sum 2 prod = Ok summed /\
                                shape summed = [b; c; kn; kn; h; w]).
  { unfold sum, rank. rewrite Hsp. cbn [length Nat.ltb Nat.leb negb].
    eexists. split; reflexivity. }
  destruct Hsum as (summed & Hsum & Hss).
  assert (Hperm : exists perm,
             permute summed [0; 1; 4; 2; 5; 3] = Ok perm /\
             shape perm = [b; c; h; kn; w; kn]).
  { unfold permute, rank. rewrite Hss. cbn [length].
    eexists. split; reflexivity. }
  destruct Hperm as (perm & Hperm & Hsq).
  assert (Hview3 : view perm [Z.of_nat b; Z.of_nat c; k * Z.of_nat h;
                              k * Z.of_nat w]%Z
                   = Ok (mkTensor [b; c; kn * h; kn * w] (data perm))).
  { rewrite view_ok.
    - cbn [map]. rewrite !Z2Nat.inj_mul, !Nat2Z.id by lia. reflexivity.
    - repeat (constructor; [lia|]). constructor.
    - cbn [map]. rewrite !Z2Nat.inj_mul, !Nat2Z.id, Hsq by lia. fold kn.
      cbn [numel]. ring. }
  exists (mkTensor [b; c; kn * h; kn * w] (data perm)). split; [|reflexivity].
  unfold upsample_flow. fold k.
  unfold bind at 1. unfold torch at 1. rewrite Hcat.
  unfold bind at 1. unfold call at 1. cbn [world log]. rewrite Hnet.
  unfold bind at 1. unfold lift at 1. unfold shape4. rewrite Hf.
  unfold bind at 1. unfold torch at 1. rewrite Hview1.
  unfold bind at 1. unfold torch at 1. rewrite Hsoft.
  unfold bind at 1. unfold torch at 1.
  unfold bind at 1. unfold torch at 1. rewrite Hunf.
  unfold bind at 1. unfold torch at 1. rewrite Hview2.
  unfold bind at 1. unfold torch at 1. rewrite Hmul.
  unfold bind at 1. unfold torch at 1. rewrite Hsum.
  unfold bind at 1. unfold torch at 1. rewrite Hperm.
  unfold torch. rewrite Hview3. unfold log, convex_events.
  cbn [world trace]. rewrite <- !app_assoc. reflexivity.
Qed.

End ConvexReturns.

(** Convex upsampling returns.  For a flow of shape [B, c, H, W] and a
    feature map of shape [B, C, H, W] with [c, H, W > 0], a model with
    [upsample_factor = K >= 1] whose upsampler network answers, as the two
    convolutions of lines 39-41 do, [9 * K * K] channels at the resolution of
    its input, [upsample_flow] returns a field of shape [B, c, K*H, K*W]
    after exactly the eleven calls of lines 62-75. *)
Theorem convex_upsample_returns :
  forall (World : Type) (self : GMFlow World) (flow feature : Tensor)
    (b c C h w : nat) (karg : Z) (st : State World),
    let k := upsample_factor self in
    let kn := Z.to_nat k in
    shape flow = [b; c; h; w] -> shape feature = [b; C; h; w] ->
    0 < c -> 0 < h -> 0 < w -> (1 <= k)%Z ->
    (forall concat,
        shape concat = [b; c + C; h; w] ->
        exists raw wd',
          upsampler self concat (world st) = (Ok raw, wd') /\
          shape raw = [b; 9 * kn * kn; h; w]) ->
    exists out st',
      upsample_flow self flow (Some feature) false karg st = (Ok out, st') /\
      shape out = [b; c; kn * h; kn * w] /\
      trace st' = trace st ++ convex_events k.
Proof.
  intros World self flow feature b c C h w karg st k kn Hf Hg Hc Hh Hw Hk
    Hnet.
  destruct (cat_channels_ok flow feature b c C h w Hf Hg)
    as (concat & Hcat & Hsc).
  destruct (Hnet concat Hsc) as (raw & wd' & Hrun & Hraw).
  destruct (upsample_flow_convex_ok World self flow feature concat raw
              b c C h w karg st wd' Hf Hg Hc Hh Hw Hk Hcat Hrun Hraw)
    as (out & Hup & Hso).
  exists out. eexists. split; [exact Hup|]. split; [exact Hso|reflexivity].
Qed.

Lemma demo_network_shape (kn : nat) (t : Tensor) (b c h w : nat) (wd : nat) :
  shape t = [b; c; h; w] ->
  exists raw wd',
    Demo.network kn t wd = (Ok raw, wd') /\
    shape raw = [b; 9 * kn * kn; h; w].
Proof.
  intros Ht. unfold Demo.network. rewrite Ht.
  eexists. eexists. split; reflexivity.
Qed.

Lemma convex_upsample_returns_witness :
  exists out st',
    upsample_flow (Demo.model 1 2 false) Demo.flow0 (Some Demo.coarse0)
      false 8 Demo.start = (Ok out, st') /\
    shape out = [1; 2; 2; 2] /\
    trace st' = convex_events 2.
Proof.
  apply (convex_upsample_returns nat (Demo.model 1 2 false) Demo.flow0
           Demo.coarse0 1 2 1 1 1 8 Demo.start eq_refl eq_refl);
    [lia | lia | lia | simpl; lia |].
  intros concat Hc. exact (demo_network_shape 2 concat 1 3 1 1 0 Hc).
Defined.

(** ** What convex upsampling needs *)

(** What convex upsampling needs.  Whenever the convex branch of
    [upsample_flow] returns, a feature tensor was given; the flow was
    4-dimensional with at least one channel and a non-empty grid; the feature
    tensor was either a 4-dimensional map with the batch size and the grid of
    the flow, or the 1-dimensional empty tensor, which [torch.cat] leaves
    out, so that the upsampler network was called on the flow alone;
    [self.upsample_factor] was not negative; and the output of the upsampler
    network had exactly [B * 9 * K * K * H * W] elements. *)
Theorem convex_upsample_requirements :
  forall (World : Type) (self : GMFlow World) (flow : Tensor)
    (feature : option Tensor) (karg : Z) (st st' : State World)
    (out : Tensor),
    upsample_flow self flow feature false karg st = (Ok out, st') ->
    let k := upsample_factor self in
    exists (f concat raw : Tensor) (wd' : World) (b c h w : nat),
      feature = Some f /\
      shape flow = [b; c; h; w] /\
      0 < c /\ 0 < h /\ 0 < w /\ (0 <= k)%Z /\
      cat 1 flow f = Ok concat /\
      ((shape f = [0] /\ concat = flow) \/
       (exists C, shape f = [b; C; h; w] /\
                  shape concat = [b; c + C; h; w])) /\
      upsampler self concat (world st) = (Ok raw, wd') /\
      numel (shape raw) = b * (9 * Z.to_nat k * Z.to_nat k) * h * w.
Proof.
  intros World self flow feature karg st st' out Hrun k.
  destruct (upsample_flow_convex_inv _ _ _ _ _ _ _ _ Hrun)
    as (f & concat & raw & w1 & b & c & h & w & viewed & mask & unf & upv &
        prod & summed & perm & Hf & Hcat & Hnet & Hflow & Hviewed & Hmask &
        Hunf & Hupv & Hprod & Hsum & Hperm & Hout & _).
  fold k in Hviewed, Hunf, Hout.
  (* the feature tensor is left out, or agrees with the flow outside the
     channels *)
  assert (Hsf : (shape f = [0] /\ concat = flow) \/
                (exists C, shape f = [b; C; h; w] /\
                           shape concat = [b; c + C; h; w])).
  { destruct (cat_ok_rank4 1 flow f concat b c h w Hflow Hcat)
      as [_ [Hskip|(Hrank & Ec & Hsc)]]; [now left|right].
    unfold cat_compatible in Ec. rewrite Hflow in Ec.
    apply andb_true_iff in Ec. destruct Ec as [_ Ed].
    apply shape_eqb_true in Ed. unfold rank in Hrank.
    destruct (shape f) as [|b' [|C [|h' [|w' [|? ?]]]]];
      try discriminate Hrank.
    cbn [drop_nth] in Ed. injection Ed as <- <- <-.
    exists C. split; [reflexivity|]. rewrite Hsc, Hflow. reflexivity. }
  destruct (unfold3_inv (scale k flow) unf b c h w Hflow Hunf) as [Hhw _].
  pose proof (unfold3_channels (scale k flow) unf b c h w Hflow Hunf) as Hc.
  destruct (shape_view _ _ _ Hviewed) as (Hsv & Hn & Hpos).
  assert (HK : (0 <= k)%Z).
  { rewrite Forall_forall in Hpos. apply Hpos. simpl. tauto. }
  exists f, concat, raw, w1, b, c, h, w.
  split; [exact Hf|]. split; [exact Hflow|]. split; [exact Hc|].
  split; [nia|]. split; [nia|]. split; [exact HK|].
  split; [exact Hcat|]. split; [exact Hsf|]. split; [exact Hnet|].
  rewrite <- Hn, Hsv. cbn [map]. rewrite !Nat2Z.id.
  change (Z.to_nat 1) with 1. change (Z.to_nat 9) with 9.
  cbn [numel]. ring.
Qed.

Lemma convex_upsample_requirements_witness :
  (exists f C,
      Some Demo.coarse0 = Some f /\ shape f = [1; C; 1; 1] /\
      shape Demo.flow0 = [1; 2; 1; 1]) /\
  (exists out st',
      upsample_flow (Demo.model 1 2 false) Demo.flow0
        (Some (mkTensor [0] [])) false 8 Demo.start = (Ok out, st') /\
      cat 1 Demo.flow0 (mkTensor [0] []) = Ok Demo.flow0).
Proof.
  split.
  - edestruct (convex_upsample_requirements nat (Demo.model 1 2 false)
                 Demo.flow0 (Some Demo.coarse0) 8 Demo.start)
      as (f & concat & raw & wd' & b & c & h & w & Hf & Hflow & _ & _ & _ &
          _ & _ & [[Hskip _]|(C & Hsf & _)] & _); [evaluate| |].
    + injection Hf as <-. discriminate Hskip.
    + injection Hflow as <- <- <- <-.
      exists f, C. split; [exact Hf|]. split; [exact Hsf|reflexivity].
  - eexists. eexists. split; [evaluate|].
    edestruct (convex_upsample_requirements nat (Demo.model 1 2 false)
                 Demo.flow0 (Some (mkTensor [0] [])) 8 Demo.start)
      as (f & concat & raw & wd' & b & c & h & w & Hf & _ & _ & _ & _ &
          _ & Hcat & [[_ Hsame]|(C & Hsf & _)] & _); [evaluate| |].
    + injection Hf as <-. rewrite Hsame in Hcat. exact Hcat.
    + injection Hf as <-. discriminate Hsf.
Defined.

(** ** A run of one scale *)

Lemma one_scale_run_ok :
  forall (World : Type) (self : GMFlow World) (env : Imports World)
    (feature0 feature1 : Tensor) (attn_splits corr_radius prop_radius : Z)
    (b C h w : nat) (st : State World),
    let k := upsample_factor self in
    let kn := Z.to_nat k in
    num_scales self = 1%Z -> (1 <= k)%Z ->
    shape feature0 = [b; C; h; w] -> 0 < h -> 0 < w ->
    (forall wd, exists pred wd',
        (if Z.eqb corr_radius (-1)
         then global_correlation_softmax env feature0 feature1 false wd
         else local_correlation_softmax env feature0 feature1 corr_radius wd)
        = (Ok pred, wd') /\
        shape pred = [b; 2; h; w]) ->
    (forall flow wd,
        shape flow = [b; 2; h; w] ->
        exists out wd',
          feature_flow_attn self feature0 flow (Z.ltb 0 prop_radius)
            prop_radius wd = (Ok out, wd') /\
          shape out = [b; 2; h; w]) ->
    (forall concat wd,
        shape concat = [b; 2 + C; h; w] ->
        exists raw wd',
          upsampler self concat wd = (Ok raw, wd') /\
          shape raw = [b; 9 * kn * kn; h; w]) ->
    exists (pred propagated p1 p2 : Tensor) (wd1 wd2 wd3 : World)
      (s1 s2 s3 st' : State World),
      (if Z.eqb corr_radius (-1)
       then global_correlation_softmax env feature0 feature1 false (world st)
       else local_correlation_softmax env feature0 feature1 corr_radius
              (world st))
      = (Ok pred, wd1) /\
      upsample_flow self pred (Some feature0) false 8 s1 = (Ok p1, s2) /\
      world s1 = wd1 /\ world s2 = wd2 /\
      feature_flow_attn self feature0 pred (Z.ltb 0 prop_radius) prop_radius
        wd2 = (Ok propagated, wd3) /\
      upsample_flow self propagated (Some feature0) false 8 s3 = (Ok p2, st') /\
      world s3 = wd3 /\
      forward_scales self env [feature0] [feature1] (Some [attn_splits])
        (Some [corr_radius]) (Some [prop_radius]) false st
      = (Ok [p1; p2], st') /\
      shape p1 = [b; 2; kn * h; kn * w] /\
      shape p2 = [b; 2; kn * h; kn * w] /\
      trace st' = trace st ++ one_scale_events k corr_radius prop_radius.
Proof.
  intros World self env f0 f1 sp cr pr b C h w st k kn HN Hk Hf0 Hh Hw
    Hcorr Hattn Hnet.
  destruct (Hcorr (world st)) as (pred & wd1 & Hc & Hsp).
  set (s1 := mkState wd1 (trace st ++ [correlation_event cr false])).
  (* the first prediction *)
  destruct (cat_channels_ok pred f0 b 2 C h w Hsp Hf0) as (cc1 & Hcat1 & Hsc1).
  destruct (Hnet cc1 (world s1) Hsc1) as (raw1 & wd2 & Hn1 & Hr1).
  destruct (upsample_flow_convex_ok World self pred f0 cc1 raw1 b 2 C h w 8
              s1 wd2 Hsp Hf0 ltac:(lia) Hh Hw Hk Hcat1 Hn1 Hr1)
    as (p1 & Hu1 & Hs1).
  fold k in Hu1. fold kn in Hs1.
  set (s2 := mkState wd2 (trace s1 ++ convex_events k)) in *.
  (* the propagation *)
  destruct (Hattn pred wd2 Hsp) as (prop & wd3 & Ha & Hsa).
  set (s3 := mkState wd3 ((trace s2 ++ [EvDetach]) ++
                          [EvAttn (Z.ltb 0 pr) pr])).
  (* the second prediction *)
  destruct (cat_channels_ok prop f0 b 2 C h w Hsa Hf0) as (cc2 & Hcat2 & Hsc2).
  destruct (Hnet cc2 (world s3) Hsc2) as (raw2 & wd4 & Hn2 & Hr2).
  destruct (upsample_flow_convex_ok World self prop f0 cc2 raw2 b 2 C h w 8
              s3 wd4 Hsa Hf0 ltac:(lia) Hh Hw Hk Hcat2 Hn2 Hr2)
    as (p2 & Hu2 & Hs2).
  fold k in Hu2. fold kn in Hs2.
  exists pred, prop, p1, p2, wd1, wd2, wd3, s1, s2, s3.
  eexists.
  split; [exact Hc|]. split; [exact Hu1|]. split; [reflexivity|].
  split; [reflexivity|]. split; [exact Ha|]. split; [exact Hu2|].
  split; [reflexivity|].
  split; [|split; [exact Hs1|split; [exact Hs2|]]].
  - (* the steps of the iteration *)
    assert (Hmatch :
      scale_match env [f0] [f1] (Some [sp]) (Some [cr]) (Some [pr]) false 0
        None st = (Ok (f0, f1, pr, pred), s1)).
    { unfold scale_match, py_getitem, py_index, bind, ret.
      cbn [nth_error andb Nat.ltb Nat.leb].
      unfold s1, correlation_event.
      destruct (Z.eqb cr (-1)); unfold call; rewrite Hc; reflexivity. }
    assert (Hlast : is_last_scale self 0 = true).
    { unfold is_last_scale. rewrite HN. reflexivity. }
    assert (Hmid : is_training_intermediate self 0 = false).
    { unfold is_training_intermediate. rewrite HN. apply andb_false_r. }
    assert (Hbefore :
      upsample_before_propagation self 0 pred f0 [] s1 = (Ok [p1], s2)).
    { unfold upsample_before_propagation. rewrite Hmid, Hlast.
      unfold bind at 1. unfold ret at 1.
      rewrite (bind_eq_ok _ _ _ _ _ _ Hu1). reflexivity. }
    assert (Hprop :
      propagate self false 0 f0 f1 pr pred s2 = (Ok (f0, prop), s3)).
    { unfold propagate, detach, bind, ret, torch, call, log, s3, s2.
      cbn [andb world trace]. rewrite Ha. reflexivity. }
    assert (Hafter :
      upsample_after_propagation self 0 prop f0 [p1] s3
      = (Ok [p1; p2], mkState wd4 (trace s3 ++ convex_events k))).
    { unfold upsample_after_propagation. rewrite Hmid, Hlast.
      unfold bind at 1. unfold ret at 1.
      rewrite (bind_eq_ok _ _ _ _ _ _ Hu2). reflexivity. }
    assert (Hcheck :
      check_lengths self (Some [sp]) (Some [cr]) (Some [pr]) st = (Ok tt, st)).
    { unfold check_lengths, py_len, bind, ret. cbn [length Z.of_nat].
      rewrite HN. reflexivity. }
    unfold forward_scales, scale_range.
    rewrite (bind_eq_ok _ _ _ _ _ _ Hcheck).
    rewrite HN. change (Z.to_nat 1) with 1. cbn [seq scale_loop].
    unfold bind at 1. unfold bind at 1. unfold scale_iter.
    rewrite (bind_eq_ok _ _ _ _ _ _ Hmatch). cbv beta iota.
    rewrite (bind_eq_ok _ _ _ _ _ _ Hbefore).
    rewrite (bind_eq_ok _ _ _ _ _ _ Hprop). cbv beta iota.
    rewrite (bind_eq_ok _ _ _ _ _ _ Hafter).
    reflexivity.
  - unfold one_scale_events. cbn [trace s3 s2 s1].
    rewrite <- !app_assoc. reflexivity.
Qed.

(** A one-scale, one-directional call to [forward_image] returns.  Given two
    images of the same 4-dimensional shape, a backbone that answers features
    [B, n, h, w] with [n >= 2], a correlation and a propagation that answer a
    flow [B, 2, h, w], and an upsampler network that answers [9 * K * K]
    channels, the call returns exactly two predictions, both of shape
    [B, 2, K*h, K*w], after the feature extraction, one correlation, one
    convex upsampling, the propagation of the detached flow and a second
    convex upsampling, in this order: no warp, no interpolation and no
    addition take place. *)
Theorem forward_image_one_scale_returns :
  forall (World : Type) (self : GMFlow World) (env : Imports World)
    (net : Tensor -> Extern World Tensor) (img0 img1 : Tensor)
    (attn_splits corr_radius prop_radius : Z)
    (b c H W n h w : nat) (st : State World),
    let k := upsample_factor self in
    let kn := Z.to_nat k in
    let half := (n + 1) / 2 in
    num_scales self = 1%Z -> (1 <= k)%Z ->
    backbone self = Some net ->
    shape img0 = [b; c; H; W] -> shape img1 = [b; c; H; W] ->
    2 <= n -> 0 < h -> 0 < w ->
    (forall concat wd,
        shape concat = [b; 2; H; W; c] ->
        exists features wd',
          net concat wd = (Ok features, wd') /\
          shape features = [b; n; h; w]) ->
    (forall feature0 feature1 wd,
        shape feature0 = [b; half; h; w] ->
        shape feature1 = [b; n - half; h; w] ->
        exists pred wd',
          (if Z.eqb corr_radius (-1)
           then global_correlation_softmax env feature0 feature1 false wd
           else local_correlation_softmax env feature0 feature1 corr_radius
                  wd)
          = (Ok pred, wd') /\
          shape pred = [b; 2; h; w]) ->
    (forall feature0 flow wd,
        shape feature0 = [b; half; h; w] -> shape flow = [b; 2; h; w] ->
        exists out wd',
          feature_flow_attn self feature0 flow (Z.ltb 0 prop_radius)
            prop_radius wd = (Ok out, wd') /\
          shape out = [b; 2; h; w]) ->
    (forall concat wd,
        shape concat = [b; 2 + half; h; w] ->
        exists raw wd',
          upsampler self concat wd = (Ok raw, wd') /\
          shape raw = [b; 9 * kn * kn; h; w]) ->
    exists (p1 p2 : Tensor) (st' : State World),
      forward_image self env img0 img1 (Some [attn_splits])
        (Some [corr_radius]) (Some [prop_radius]) false st
      = (Ok [p1; p2], st') /\
      shape p1 = [b; 2; kn * h; kn * w] /\
      shape p2 = [b; 2; kn * h; kn * w] /\
      trace st'
      = trace st ++ [EvStack; EvPermute; EvBackbone; EvChunk] ++
        one_scale_events k corr_radius prop_radius.
Proof.
  intros World self env net img0 img1 sp cr pr b c H W n h w st k kn half
    HN Hk Hback H0 H1 Hn Hh Hw Hfeat Hcorr Hattn Hnet.
  destruct (extract_feature_after_backbone World self net img0 img1 b c H W
              st Hback H0 H1) as (concat & Hsc & _ & Hpre).
  destruct (Hfeat concat (world st) Hsc) as (features & wd0 & Hrun & Hsf).
  set (f0 := narrow 1 0 half features).
  set (f1 := narrow 1 half (n - half) features).
  set (st0 := mkState wd0
                (trace st ++ [EvStack; EvPermute; EvBackbone; EvChunk])).
  assert (Hex : extract_feature self img0 img1 st = (Ok ([f0], [f1]), st0)).
  { rewrite (Hpre features wd0 Hrun).
    rewrite (chunk2_halves features b n [h; w] Hsf Hn). fold half.
    unfold bind, torch, py_index, ret, log, st0. cbn [nth_error world trace].
    now rewrite <- app_assoc. }
  assert (Hs0 : shape f0 = [b; half; h; w]).
  { unfold f0, narrow. rewrite Hsf. reflexivity. }
  assert (Hs1 : shape f1 = [b; n - half; h; w]).
  { unfold f1, narrow. rewrite Hsf. reflexivity. }
  destruct (one_scale_run_ok World self env f0 f1 sp cr pr b half h w st0
              HN Hk Hs0 Hh Hw
              (fun wd => Hcorr f0 f1 wd Hs0 Hs1)
              (fun flow wd Hf => Hattn f0 flow wd Hs0 Hf)
              Hnet)
    as (pred & prop & p1 & p2 & wd1 & wd2 & wd3 & s1 & s2 & s3 & st' &
        _ & _ & _ & _ & _ & _ & _ & Hscales & Hp1 & Hp2 & Htr).
  exists p1, p2, st'.
  split; [|split; [exact Hp1|split; [exact Hp2|]]].
  - unfold forward_image. rewrite (bind_eq_ok _ _ _ _ _ _ Hex). exact Hscales.
  - rewrite Htr. unfold st0. cbn [trace]. now rewrite <- app_assoc.
Qed.

Lemma forward_image_one_scale_returns_witness :
  exists p1 p2 st',
    forward_image (Demo.model 1 2 false) Demo.imports Demo.image0 Demo.image1
      (Some [2%Z]) (Some [(-1)%Z]) (Some [0%Z]) false Demo.start
    = (Ok [p1; p2], st') /\
    shape p1 = [1; 2; 2; 2] /\ shape p2 = [1; 2; 2; 2] /\
    trace st'
    = [EvStack; EvPermute; EvBackbone; EvChunk] ++ one_scale_events 2 (-1) 0.
Proof.
  apply (forward_image_one_scale_returns nat (Demo.model 1 2 false)
           Demo.imports Demo.backbone Demo.image0 Demo.image1 2 (-1) 0
           1 3 1 1 2 1 1 Demo.start).
  - reflexivity.
  - simpl. lia.
  - reflexivity.
  - reflexivity.
  - reflexivity.
  - lia.
  - lia.
  - lia.
  - intros concat wd Hc. unfold Demo.backbone. rewrite Hc.
    eexists. eexists. split; reflexivity.
  - intros f0 f1 wd Hf0 Hf1. cbn [Z.eqb Pos.eqb].
    unfold Demo.imports, global_correlation_softmax, Demo.global_correlation,
      Demo.flow_between.
    cbn in Hf0. rewrite Hf0. eexists. eexists. split; reflexivity.
  - intros f0 flow wd Hf0 Hf. exists flow, (S wd).
    split; [reflexivity|exact Hf].
  - intros concat wd Hc.
    exact (demo_network_shape 2 concat 1 (2 + (2 + 1) / 2) 1 1 wd Hc).
Defined.

(** ** A run of two scales *)

Lemma broadcast_shapes_same (sh : list nat) : broadcast_shapes sh sh = Some sh.
Proof.
  induction sh as [|d sh IH]; [reflexivity|].
  cbn [broadcast_shapes]. now rewrite IH, Nat.eqb_refl.
Qed.

Lemma add_same_shape (a b : Tensor) (sh : list nat) :
  shape a = sh -> shape b = sh ->
  exists r, add a b = Ok r /\ shape r = sh.
Proof.
  intros Ha Hb. unfold add, binop, rank, pad_shape. rewrite Ha, Hb.
  rewrite Nat.max_id, Nat.sub_diag. cbn [repeat app].
  rewrite broadcast_shapes_same. eexists. split; reflexivity.
Qed.

Lemma upsample_flow_bilinear_ok (World : Type) (self : GMFlow World)
  (flow : Tensor) (feature : option Tensor) (k : Z) (st : State World)
  (b c h w : nat) :
  shape flow = [b; c; h; w] -> 0 < c -> 0 < h -> 0 < w -> (1 <= k)%Z ->
  exists out,
    upsample_flow self flow feature true k st
    = (Ok out, mkState (world st) (trace st ++ [EvInterpolate k; EvScale k]))
    /\ shape out = [b; c; h * Z.to_nat k; w * Z.to_nat k].
Proof.
  intros Hs Hc Hh Hw Hk.
  pose proof (interpolate_bilinear_ok flow k b c h w Hs Hc Hh Hw Hk) as Hi.
  eexists. split.
  - unfold upsample_flow, bind, torch, log. rewrite Hi. cbn [world trace].
    now rewrite <- app_assoc.
  - reflexivity.
Qed.

Section TwoScales.

Variable World : Type.
Variable self : GMFlow World.
Variable env : Imports World.
Variables coarse0 coarse1 fine0 fine1 : Tensor.
Variables attn0 attn1 corr0 corr1 prop0 prop1 : Z.
Variables b C0 C1 h w : nat.

Local Abbreviation k := (upsample_factor self).
Local Abbreviation kn := (Z.to_nat (upsample_factor self)).
Local Abbreviation full :=
  [b; 2; Z.to_nat (upsample_factor self) * (2 * h);
   Z.to_nat (upsample_factor self) * (2 * w)].

Hypothesis HN : num_scales self = 2%Z.
Hypothesis Hk : (1 <= k)%Z.
Hypothesis Hcoarse : shape coarse0 = [b; C0; h; w].
Hypothesis Hfine : shape fine0 = [b; C1; 2 * h; 2 * w].
Hypothesis Hh : 0 < h.
Hypothesis Hw : 0 < w.

Local Abbreviation correlation radius f0 f1 :=
  (if Z.eqb radius (-1) then global_correlation_softmax env f0 f1 false
   else local_correlation_softmax env f0 f1 radius).

Hypothesis Hcorr0 :
  forall wd, exists pred wd',
    correlation corr0 coarse0 coarse1 wd = (Ok pred, wd') /\
    shape pred = [b; 2; h; w].
Hypothesis Hattn0 :
  forall flow wd,
    shape flow = [b; 2; h; w] ->
    exists out wd',
      feature_flow_attn self coarse0 flow (Z.ltb 0 prop0) prop0 wd
      = (Ok out, wd') /\
      shape out = [b; 2; h; w].
Hypothesis Hwarp :
  forall flow wd,
    shape flow = [b; 2; 2 * h; 2 * w] ->
    exists warped wd', flow_warp env fine1 flow wd = (Ok warped, wd').
Hypothesis Hcorr1 :
  forall warped wd, exists pred wd',
    correlation corr1 fine0 warped wd = (Ok pred, wd') /\
    shape pred = [b; 2; 2 * h; 2 * w].
Hypothesis Hattn1 :
  forall flow wd,
    shape flow = [b; 2; 2 * h; 2 * w] ->
    exists out wd',
      feature_flow_attn self fine0 flow (Z.ltb 0 prop1) prop1 wd
      = (Ok out, wd') /\
      shape out = [b; 2; 2 * h; 2 * w].
Hypothesis Hnet :
  forall concat wd,
    shape concat = [b; 2 + C1; 2 * h; 2 * w] ->
    exists raw wd',
      upsampler self concat wd = (Ok raw, wd') /\
      shape raw = [b; 9 * kn * kn; 2 * h; 2 * w].

Local Abbreviation f0l := [coarse0; fine0].
Local Abbreviation f1l := [coarse1; fine1].
Local Abbreviation al := (Some [attn0; attn1]).
Local Abbreviation cl := (Some [corr0; corr1]).
Local Abbreviation pl := (Some [prop0; prop1]).

Lemma two_scales_match_first (st : State World) :
  exists pred st1,
    scale_match env f0l f1l al cl pl false 0 None st
    = (Ok (coarse0, coarse1, prop0, pred), st1) /\
    shape pred = [b; 2; h; w].
Proof.
  destruct (Hcorr0 (world st)) as (pred & wd1 & Hc & Hs).
  destruct (Z.eqb corr0 (-1)) eqn:E;
    (exists pred; eexists; split; [|exact Hs];
     unfold scale_match, py_getitem, py_index, bind, ret;
     cbn [nth_error andb Nat.ltb Nat.leb];
     rewrite E; unfold call; rewrite Hc; reflexivity).
Qed.

Lemma two_scales_flags :
  is_last_scale self 0 = false /\ is_last_scale self 1 = true /\
  is_training_intermediate self 0 = training self /\
  is_training_intermediate self 1 = false /\
  scale_upsample_factor self 0 = (2 * k)%Z.
Proof.
  unfold is_last_scale, is_training_intermediate, scale_upsample_factor.
  rewrite HN.
  split; [reflexivity|]. split; [reflexivity|].
  split; [apply andb_true_r|]. split; [apply andb_false_r|].
  change (2 ^ (2 - 1 - Z.of_nat 0))%Z with 2%Z. lia.
Qed.

(** The predictions of the first scale exist in training mode only, and are
    at the full resolution. *)
Lemma two_scales_bilinear (flow : Tensor) (feature : option Tensor)
  (st : State World) :
  shape flow = [b; 2; h; w] ->
  exists out st',
    upsample_flow self flow feature true (2 * k) st = (Ok out, st') /\
    shape out = full.
Proof.
  intros Hs.
  destruct (upsample_flow_bilinear_ok World self flow feature (2 * k) st
              b 2 h w Hs) as (out & Hu & Hso); [lia | exact Hh | exact Hw | lia |].
  exists out. eexists. split; [exact Hu|].
  rewrite Hso. f_equal. f_equal.
  rewrite Z2Nat.inj_mul by lia. change (Z.to_nat 2) with 2.
  f_equal; [|f_equal]; lia.
Qed.

Lemma two_scales_before_first (flow : Tensor) (preds : list Tensor)
  (st : State World) :
  shape flow = [b; 2; h; w] ->
  exists new st',
    upsample_before_propagation self 0 flow coarse0 preds st
    = (Ok (preds ++ new), st') /\
    length new = (if training self then 1 else 0) /\
    Forall (fun p => shape p = full) new.
Proof.
  intros Hs. destruct two_scales_flags as (Hl0 & _ & Hm0 & _ & Hf0).
  unfold upsample_before_propagation. rewrite Hl0, Hm0, Hf0.
  destruct (training self).
  - destruct (two_scales_bilinear flow None st Hs) as (out & st' & Hu & Ho).
    exists [out], st'. split; [|split; [reflexivity|now constructor]].
    unfold bind at 1. rewrite (bind_eq_ok _ _ _ _ _ _ Hu). reflexivity.
  - exists [], st. rewrite app_nil_r.
    split; [reflexivity|]. split; [reflexivity|constructor].
Qed.

Lemma two_scales_after_first (flow : Tensor) (preds : list Tensor)
  (st : State World) :
  shape flow = [b; 2; h; w] ->
  exists new st',
    upsample_after_propagation self 0 flow coarse0 preds st
    = (Ok (preds ++ new), st') /\
    length new = (if training self then 1 else 0) /\
    Forall (fun p => shape p = full) new.
Proof.
  intros Hs. destruct two_scales_flags as (Hl0 & _ & Hm0 & _ & Hf0).
  unfold upsample_after_propagation. rewrite Hl0, Hm0, Hf0.
  destruct (training self).
  - destruct (two_scales_bilinear flow (Some coarse0) st Hs)
      as (out & st' & Hu & Ho).
    exists [out], st'. split; [|split; [reflexivity|now constructor]].
    unfold bind at 1. rewrite (bind_eq_ok _ _ _ _ _ _ Hu). reflexivity.
  - exists [], st. rewrite app_nil_r.
    split; [reflexivity|]. split; [reflexivity|constructor].
Qed.

Lemma two_scales_propagate_first (flow : Tensor) (st : State World) :
  shape flow = [b; 2; h; w] ->
  exists out st',
    propagate self false 0 coarse0 coarse1 prop0 flow st
    = (Ok (coarse0, out), st') /\
    shape out = [b; 2; h; w].
Proof.
  intros Hs. destruct (Hattn0 flow (world st) Hs) as (out & wd' & Ha & Ho).
  exists out. eexists. split; [|exact Ho].
  unfold propagate, detach, bind, ret, torch, call, log.
  cbn [andb world trace]. rewrite Ha. reflexivity.
Qed.

Lemma two_scales_match_second (flow : Tensor) (st : State World) :
  shape flow = [b; 2; h; w] ->
  exists warped acc st',
    scale_match env f0l f1l al cl pl false 1 (Some flow) st
    = (Ok (fine0, warped, prop1, acc), st') /\
    shape acc = [b; 2; 2 * h; 2 * w].
Proof.
  intros Hs.
  pose proof (interpolate_bilinear_ok flow 2 b 2 h w Hs) as Hi.
  specialize (Hi ltac:(lia) Hh Hw ltac:(lia)).
  change (Z.to_nat 2) with 2 in Hi.
  set (up := tabulate [b; 2; h * 2; w * 2]
               (fun idx => match idx with
                           | [ib; ic; y; x] =>
                               bilinear_at flow h w (h * 2) (w * 2) ib ic y x
                           | _ => 0%R
                           end)) in Hi.
  assert (Hsu : shape (scale 2 up) = [b; 2; 2 * h; 2 * w]).
  { cbn [scale shape up tabulate]. f_equal. f_equal. f_equal; [|f_equal]; lia. }
  destruct (Hwarp (scale 2 up) (world st) Hsu) as (warped & wd1 & Hwp).
  destruct (Hcorr1 warped wd1) as (pred & wd2 & Hc & Hsp).
  destruct (add_same_shape (scale 2 up) pred _ Hsu Hsp) as (acc & Hadd & Hsa).
  destruct (Z.eqb corr1 (-1)) eqn:E;
    (exists warped, acc; eexists; split; [|exact Hsa];
     unfold scale_match, py_getitem, py_index, detach, bind, ret, torch, log;
     cbn [nth_error andb Nat.ltb Nat.leb]; rewrite Hi;
     unfold call at 1; cbn [world trace]; rewrite Hwp;
     rewrite E; unfold call; cbn [world trace]; rewrite Hc;
     rewrite Hadd; reflexivity).
Qed.

Lemma two_scales_convex (flow : Tensor) (st : State World) :
  shape flow = [b; 2; 2 * h; 2 * w] ->
  exists out st',
    upsample_flow self flow (Some fine0) false 8 st = (Ok out, st') /\
    shape out = full.
Proof.
  intros Hs.
  destruct (cat_channels_ok flow fine0 b 2 C1 (2 * h) (2 * w) Hs Hfine)
    as (cc & Hcat & Hsc).
  destruct (Hnet cc (world st) Hsc) as (raw & wd' & Hn & Hr).
  destruct (upsample_flow_convex_ok World self flow fine0 cc raw b 2 C1
              (2 * h) (2 * w) 8 st wd' Hs Hfine ltac:(lia) ltac:(lia)
              ltac:(lia) Hk Hcat Hn Hr) as (out & Hu & Ho).
  exists out. eexists. split; [exact Hu|exact Ho].
Qed.

Lemma two_scales_before_second (flow : Tensor) (preds : list Tensor)
  (st : State World) :
  shape flow = [b; 2; 2 * h; 2 * w] ->
  exists p st',
    upsample_before_propagation self 1 flow fine0 preds st
    = (Ok (preds ++ [p]), st') /\
    shape p = full.
Proof.
  intros Hs. destruct two_scales_flags as (_ & Hl1 & _ & Hm1 & _).
  destruct (two_scales_convex flow st Hs) as (out & st' & Hu & Ho).
  exists out, st'. split; [|exact Ho].
  unfold upsample_before_propagation. rewrite Hl1, Hm1.
  unfold bind at 1. unfold ret at 1.
  rewrite (bind_eq_ok _ _ _ _ _ _ Hu). reflexivity.
Qed.

Lemma two_scales_after_second (flow : Tensor) (preds : list Tensor)
  (st : State World) :
  shape flow = [b; 2; 2 * h; 2 * w] ->
  exists p st',
    upsample_after_propagation self 1 flow fine0 preds st
    = (Ok (preds ++ [p]), st') /\
    shape p = full.
Proof.
  intros Hs. destruct two_scales_flags as (_ & Hl1 & _ & Hm1 & _).
  destruct (two_scales_convex flow st Hs) as (out & st' & Hu & Ho).
  exists out, st'. split; [|exact Ho].
  unfold upsample_after_propagation. rewrite Hl1, Hm1.
  unfold bind at 1. unfold ret at 1.
  rewrite (bind_eq_ok _ _ _ _ _ _ Hu). reflexivity.
Qed.

Lemma two_scales_propagate_second (warped flow : Tensor) (st : State World) :
  shape flow = [b; 2; 2 * h; 2 * w] ->
  exists out st',
    propagate self false 1 fine0 warped prop1 flow st
    = (Ok (fine0, out), st') /\
    shape out = [b; 2; 2 * h; 2 * w].
Proof.
  intros Hs. destruct (Hattn1 flow (world st) Hs) as (out & wd' & Ha & Ho).
  exists out. eexists. split; [|exact Ho].
  unfold propagate, detach, bind, ret, torch, call, log.
  cbn [andb world trace]. rewrite Ha. reflexivity.
Qed.

Lemma two_scales_run (st : State World) :
  exists preds st',
    forward_scales self env f0l f1l al cl pl false st = (Ok preds, st') /\
    length preds = (if training self then 4 else 2) /\
    Forall (fun p => shape p = full) preds.
Proof.
  destruct (two_scales_match_first st) as (pred0 & sA & HA & Hs0).
  destruct (two_scales_before_first pred0 [] sA Hs0)
    as (newB & sB & HB & HnB & HfB).
  destruct (two_scales_propagate_first pred0 sB Hs0)
    as (flow0 & sC & HC & HsC).
  destruct (two_scales_after_first flow0 ([] ++ newB) sC HsC)
    as (newD & sD & HD & HnD & HfD).
  destruct (two_scales_match_second flow0 sD HsC)
    as (warped & acc & sE & HE & HsE).
  destruct (two_scales_before_second acc (([] ++ newB) ++ newD) sE HsE)
    as (p3 & sF & HF & Hp3).
  destruct (two_scales_propagate_second warped acc sF HsE)
    as (flow1 & sG & HG & HsG).
  destruct (two_scales_after_second flow1 ((([] ++ newB) ++ newD) ++ [p3])
              sG HsG) as (p4 & sH & HH & Hp4).
  exists (((([] ++ newB) ++ newD) ++ [p3]) ++ [p4]), sH.
  split; [|split].
  - assert (Hcheck : check_lengths self al cl pl st = (Ok tt, st)).
    { unfold check_lengths, py_len, bind, ret.
      cbn [length Z.of_nat]. rewrite HN. reflexivity. }
    unfold forward_scales, scale_range.
    rewrite (bind_eq_ok _ _ _ _ _ _ Hcheck).
    rewrite HN. change (Z.to_nat 2) with 2. cbn [seq scale_loop].
    unfold bind at 1. unfold bind at 1. unfold scale_iter at 1.
    rewrite (bind_eq_ok _ _ _ _ _ _ HA). cbv beta iota.
    rewrite (bind_eq_ok _ _ _ _ _ _ HB).
    rewrite (bind_eq_ok _ _ _ _ _ _ HC). cbv beta iota.
    rewrite (bind_eq_ok _ _ _ _ _ _ HD).
    unfold ret at 1. unfold bind at 1. unfold scale_iter at 1.
    rewrite (bind_eq_ok _ _ _ _ _ _ HE). cbv beta iota.
    rewrite (bind_eq_ok _ _ _ _ _ _ HF).
    rewrite (bind_eq_ok _ _ _ _ _ _ HG). cbv beta iota.
    rewrite (bind_eq_ok _ _ _ _ _ _ HH).
    reflexivity.
  - rewrite !length_app, HnB, HnD. cbn [length].
    destruct (training self); reflexivity.
  - repeat (apply Forall_app; split); try assumption;
      constructor; auto.
Qed.

End TwoScales.

(** A two-scale, one-directional run of lines 95-163 returns, and all its
    predictions have the same, full resolution.  Given fine features of twice
    the resolution of the coarse flow, collaborators that answer a flow of 2
    channels at the resolution of their inputs, and an upsampler network that
    answers [9 * K * K] channels, the run returns 4 predictions in training
    mode and 2 in inference mode, each of shape [B, 2, K*2h, K*2w]: the
    bilinear predictions of the first scale (factor [2 * K]) have the size of
    the convex predictions of the second.  The shape of the coarse feature
    maps is not constrained. *)
Theorem two_scale_run_returns :
  forall (World : Type) (self : GMFlow World) (env : Imports World)
    (coarse0 coarse1 fine0 fine1 : Tensor)
    (attn0 attn1 corr0 corr1 prop0 prop1 : Z) (b C1 h w : nat)
    (st : State World),
    let kn := Z.to_nat (upsample_factor self) in
    num_scales self = 2%Z -> (1 <= upsample_factor self)%Z ->
    shape fine0 = [b; C1; 2 * h; 2 * w] -> 0 < h -> 0 < w ->
    (forall wd, exists pred wd',
        (if Z.eqb corr0 (-1)
         then global_correlation_softmax env coarse0 coarse1 false
         else local_correlation_softmax env coarse0 coarse1 corr0) wd
        = (Ok pred, wd') /\
        shape pred = [b; 2; h; w]) ->
    (forall flow wd,
        shape flow = [b; 2; h; w] ->
        exists out wd',
          feature_flow_attn self coarse0 flow (Z.ltb 0 prop0) prop0 wd
          = (Ok out, wd') /\
          shape out = [b; 2; h; w]) ->
    (forall flow wd,
        shape flow = [b; 2; 2 * h; 2 * w] ->
        exists warped wd', flow_warp env fine1 flow wd = (Ok warped, wd')) ->
    (forall warped wd, exists pred wd',
        (if Z.eqb corr1 (-1)
         then global_correlation_softmax env fine0 warped false
         else local_correlation_softmax env fine0 warped corr1) wd
        = (Ok pred, wd') /\
        shape pred = [b; 2; 2 * h; 2 * w]) ->
    (forall flow wd,
        shape flow = [b; 2; 2 * h; 2 * w] ->
        exists out wd',
          feature_flow_attn self fine0 flow (Z.ltb 0 prop1) prop1 wd
          = (Ok out, wd') /\
          shape out = [b; 2; 2 * h; 2 * w]) ->
    (forall concat wd,
        shape concat = [b; 2 + C1; 2 * h; 2 * w] ->
        exists raw wd',
          upsampler self concat wd = (Ok raw, wd') /\
          shape raw = [b; 9 * kn * kn; 2 * h; 2 * w]) ->
    exists (preds : list Tensor) (st' : State World),
      forward_scales self env [coarse0; fine0] [coarse1; fine1]
        (Some [attn0; attn1]) (Some [corr0; corr1]) (Some [prop0; prop1])
        false st = (Ok preds, st') /\
      length preds = (if training self then 4 else 2) /\
      Forall (fun p => shape p = [b; 2; kn * (2 * h); kn * (2 * w)]) preds.
Proof.
  intros World self env coarse0 coarse1 fine0 fine1 attn0 attn1 corr0 corr1
    prop0 prop1 b C1 h w st kn HN Hk Hfine Hh Hw Hcorr0 Hattn0 Hwarp Hcorr1
    Hattn1 Hnet.
  exact (two_scales_run World self env coarse0 coarse1 fine0 fine1 attn0
           attn1 corr0 corr1 prop0 prop1 b C1 h w HN Hk Hfine Hh Hw Hcorr0
           Hattn0 Hwarp Hcorr1 Hattn1 Hnet st).
Qed.

Lemma two_scale_run_returns_witness :
  exists preds st',
    forward_scales (Demo.model 2 2 true) Demo.imports
      [Demo.coarse0; Demo.fine0] [Demo.coarse1; Demo.fine1]
      (Some [2; 8]%Z) (Some [-1; 4]%Z) (Some [0; 1]%Z) false Demo.start
    = (Ok preds, st') /\
    length preds = 4 /\
    Forall (fun p => shape p = [1; 2; 4; 4]) preds.
Proof.
  apply (two_scale_run_returns nat (Demo.model 2 2 true) Demo.imports
           Demo.coarse0 Demo.coarse1 Demo.fine0 Demo.fine1 2 8 (-1) 4 0 1
           1 1 1 1 Demo.start).
  - reflexivity.
  - simpl. lia.
  - reflexivity.
  - lia.
  - lia.
  - intros wd. eexists. eexists. split; reflexivity.
  - intros flow wd Hf. exists flow, (S wd). split; [reflexivity|exact Hf].
  - intros flow wd Hf. exists Demo.fine1, (S wd). reflexivity.
  - intros warped wd. eexists. eexists. split; reflexivity.
  - intros flow wd Hf. exists flow, (S wd). split; [reflexivity|exact Hf].
  - intros concat wd Hc. exact (demo_network_shape 2 concat 1 3 2 2 wd Hc).
Defined.

(** ** Bilinear upsampling stays within the range of the field *)

Lemma source_index_in_grid (n_in n_out i : nat) :
  0 < n_in -> i < n_out ->
  fst (source_index n_in n_out i) < n_in /\
  upper_index n_in (fst (source_index n_in n_out i)) < n_in /\
  (0 <= snd (source_index n_in n_out i) < 1)%R.
Proof.
  intros Hin Hi. unfold source_index.
  destruct (Nat.leb_spec n_out 1) as [Hle|Hgt]; cbn [fst snd].
  - unfold upper_index.
    destruct (Nat.ltb_spec 0 (n_in - 1)); repeat split; try lia; lra.
  - set (den := n_out - 1). set (num := i * (n_in - 1)).
    assert (Hden : 0 < den) by (unfold den; lia).
    assert (Hq : num / den <= n_in - 1).
    { apply Nat.Div0.div_le_upper_bound. unfold num, den. nia. }
    assert (Hr : num mod den < den) by (apply Nat.mod_upper_bound; lia).
    split; [lia|]. split.
    + unfold upper_index.
      destruct (Nat.ltb_spec (num / den) (n_in - 1)); lia.
    + assert (Hd : (0 < INR den)%R) by (apply lt_0_INR; exact Hden).
      split.
      * apply Rmult_le_pos; [apply pos_INR|].
        apply Rlt_le, Rinv_0_lt_compat, Hd.
      * apply (Rmult_lt_reg_r (INR den)); [exact Hd|].
        unfold Rdiv. rewrite Rmult_assoc, Rinv_l, Rmult_1_r, Rmult_1_l
          by lra.
        apply lt_INR. exact Hr.
Qed.

Lemma bilinear_at_range (t : Tensor) (h w ho wo b c y x : nat) (lo hi : R) :
  0 < h -> 0 < w -> y < ho -> x < wo ->
  (forall y' x', y' < h -> x' < w -> (lo <= get t [b; c; y'; x'] <= hi)%R) ->
  (lo <= bilinear_at t h w ho wo b c y x <= hi)%R.
Proof.
  intros Hh Hw Hy Hx Hr. unfold bilinear_at.
  destruct (source_index_in_grid h ho y Hh Hy) as (Hy0 & Hy1 & Hly).
  destruct (source_index_in_grid w wo x Hw Hx) as (Hx0 & Hx1 & Hlx).
  destruct (source_index h ho y) as [y0 ly].
  destruct (source_index w wo x) as [x0 lx].
  cbn [fst snd] in *.
  pose proof (Hr y0 x0 Hy0 Hx0) as H00.
  pose proof (Hr y0 (upper_index w x0) Hy0 Hx1) as H01.
  pose proof (Hr (upper_index h y0) x0 Hy1 Hx0) as H10.
  pose proof (Hr (upper_index h y0) (upper_index w x0) Hy1 Hx1) as H11.
  set (v00 := get t [b; c; y0; x0]) in *.
  set (v01 := get t [b; c; y0; upper_index w x0]) in *.
  set (v10 := get t [b; c; upper_index h y0; x0]) in *.
  set (v11 := get t [b; c; upper_index h y0; upper_index w x0]) in *.
  assert (Ha : (lo <= (1 - lx) * v00 + lx * v01 <= hi)%R) by (split; nra).
  assert (Hb : (lo <= (1 - lx) * v10 + lx * v11 <= hi)%R) by (split; nra).
  split; nra.
Qed.

(** Bilinear upsampling never leaves the range of the field.  If a channel
    of the flow lies between [lo] and [hi] everywhere, every value of the
    upsampled channel lies between [k * lo] and [k * hi]: the four samples are
    taken inside the grid and their weights are in [0, 1].  In particular a
    uniform field [v] is upsampled to the uniform field [k * v]. *)
Theorem bilinear_upsample_within_range :
  forall (World : Type) (self : GMFlow World) (flow : Tensor)
    (feature : option Tensor) (k : Z) (st : State World) (b c h w : nat)
    (ib ic : nat) (lo hi : R),
    shape flow = [b; c; h; w] -> 0 < c -> 0 < h -> 0 < w -> (1 <= k)%Z ->
    ib < b -> ic < c ->
    (forall y x, y < h -> x < w ->
                 (lo <= get flow [ib; ic; y; x] <= hi)%R) ->
    exists out,
      upsample_flow self flow feature true k st
      = (Ok out,
         mkState (world st) (trace st ++ [EvInterpolate k; EvScale k])) /\
      forall Y X,
        Y < h * Z.to_nat k -> X < w * Z.to_nat k ->
        (IZR k * lo <= get out [ib; ic; Y; X] <= IZR k * hi)%R.
Proof.
  intros World self flow feature k st b c h w ib ic lo hi
    Hs Hc Hh Hw Hk Hib Hic Hr.
  pose proof (interpolate_bilinear_ok flow k b c h w Hs Hc Hh Hw Hk) as Hi.
  eexists. split.
  - unfold upsample_flow, bind, torch, log. rewrite Hi. cbn [world trace].
    now rewrite <- app_assoc.
  - intros Y X HY HX.
    rewrite get_scale, get_tabulate by valid_tac.
    pose proof (bilinear_at_range flow h w (h * Z.to_nat k) (w * Z.to_nat k)
                  ib ic Y X lo hi Hh Hw HY HX Hr) as Hb.
    assert (Hk1 : (1 <= IZR k)%R) by (apply IZR_le; exact Hk).
    split; apply Rmult_le_compat_l; lra.
Qed.

Lemma bilinear_upsample_within_range_witness :
  exists out,
    upsample_flow (Demo.model 2 2 true) Demo.flow0 None true 4 Demo.start
    = (Ok out, mkState 0 [EvInterpolate 4; EvScale 4]) /\
    forall Y X, Y < 4 -> X < 4 -> get out [0; 1; Y; X] = 20%R.
Proof.
  destruct (bilinear_upsample_within_range nat (Demo.model 2 2 true)
              Demo.flow0 None 4 Demo.start 1 2 1 1 0 1 5 5)
    as (out & Hrun & Hval);
    [reflexivity | lia | lia | lia | lia | lia | lia | |].
  - intros y x Hy Hx.
    assert (y = 0) as -> by lia. assert (x = 0) as -> by lia.
    cbv -[Rle]. lra.
  - exists out. split; [exact Hrun|].
    intros Y X HY HX. specialize (Hval Y X HY HX). lra.
Defined.

(** ** What the scales before the last never do *)

Ltac emits_leaf :=
  first [ exact I | reflexivity | discriminate ].

Section Gates.

Variable World : Type.
Variable self : GMFlow World.
Variable env : Imports World.
Variables feature0_list feature1_list : list Tensor.
Variables attn_splits_list corr_radius_list prop_radius_list : option (list Z).
Variable pred_bidir_flow : bool.

Lemma scale_match_emits_no_upsampler (s : nat) (flow : option Tensor) :
  emits not_upsampler
    (scale_match env feature0_list feature1_list attn_splits_list
       corr_radius_list prop_radius_list pred_bidir_flow s flow).
Proof.
  unfold scale_match, py_getitem, py_index, not_upsampler.
  repeat emits_step; discriminate.
Qed.

Lemma scale_match_emits_by_two (s : nat) (flow : option Tensor) :
  emits interpolates_by_two
    (scale_match env feature0_list feature1_list attn_splits_list
       corr_radius_list prop_radius_list pred_bidir_flow s flow).
Proof.
  unfold scale_match, py_getitem, py_index.
  repeat emits_step; emits_leaf.
Qed.

Lemma propagate_emits (P : Event -> Prop) (s : nat) (f0 f1 : Tensor) (r : Z)
  (flow : Tensor) :
  P (EvCat 0) -> P EvDetach -> P (EvAttn (Z.ltb 0 r) r) ->
  emits P (propagate self pred_bidir_flow s f0 f1 r flow).
Proof.
  intros Hc Hd Ha. unfold propagate. repeat emits_step; assumption.
Qed.

Lemma upsample_flow_bilinear_emits_no_upsampler (flow : Tensor)
  (feature : option Tensor) (k : Z) :
  emits not_upsampler (upsample_flow self flow feature true k).
Proof.
  unfold upsample_flow, not_upsampler. repeat emits_step; discriminate.
Qed.

Lemma upsample_flow_convex_emits_by_two (flow : Tensor)
  (feature : option Tensor) (k : Z) :
  emits interpolates_by_two (upsample_flow self flow feature false k).
Proof.
  unfold upsample_flow. cbv zeta. repeat emits_step; emits_leaf.
Qed.

Lemma scale_iter_emits_no_upsampler (s : nat)
  (acc : option Tensor * list Tensor) :
  Z.of_nat s <> (num_scales self - 1)%Z ->
  emits not_upsampler
    (scale_iter self env feature0_list feature1_list attn_splits_list
       corr_radius_list prop_radius_list pred_bidir_flow s acc).
Proof.
  intros Hs.
  assert (Hlast : is_last_scale self s = false).
  { unfold is_last_scale. now apply Z.eqb_neq. }
  unfold scale_iter. destruct acc as [flow preds].
  apply emits_bind; [apply scale_match_emits_no_upsampler|].
  intros [[[f0 f1] r] fl].
  apply emits_bind.
  { unfold upsample_before_propagation. rewrite Hlast.
    apply emits_bind; [|intros; apply emits_ret].
    destruct (is_training_intermediate self s); [|apply emits_ret].
    apply emits_bind; [|intros; apply emits_ret].
    apply upsample_flow_bilinear_emits_no_upsampler. }
  intros preds1.
  apply emits_bind; [apply propagate_emits; discriminate|].
  intros [f0' fl'].
  apply emits_bind; [|intros; apply emits_ret].
  unfold upsample_after_propagation. rewrite Hlast.
  apply emits_bind; [|intros; apply emits_ret].
  destruct (is_training_intermediate self s); [|apply emits_ret].
  apply emits_bind; [|intros; apply emits_ret].
  apply upsample_flow_bilinear_emits_no_upsampler.
Qed.

Lemma scale_iter_emits_by_two (s : nat) (acc : option Tensor * list Tensor) :
  training self = false ->
  emits interpolates_by_two
    (scale_iter self env feature0_list feature1_list attn_splits_list
       corr_radius_list prop_radius_list pred_bidir_flow s acc).
Proof.
  intros Ht.
  assert (Hmid : is_training_intermediate self s = false).
  { unfold is_training_intermediate. now rewrite Ht. }
  unfold scale_iter. destruct acc as [flow preds].
  apply emits_bind; [apply scale_match_emits_by_two|].
  intros [[[f0 f1] r] fl].
  apply emits_bind.
  { unfold upsample_before_propagation. rewrite Hmid.
    apply emits_bind; [apply emits_ret|]. intros preds1.
    destruct (is_last_scale self s); [|apply emits_ret].
    apply emits_bind; [|intros; apply emits_ret].
    apply upsample_flow_convex_emits_by_two. }
  intros preds1.
  apply emits_bind; [apply propagate_emits; exact I|].
  intros [f0' fl'].
  apply emits_bind; [|intros; apply emits_ret].
  unfold upsample_after_propagation. rewrite Hmid.
  apply emits_bind; [apply emits_ret|]. intros preds2.
  destruct (is_last_scale self s); [|apply emits_ret].
  apply emits_bind; [|intros; apply emits_ret].
  apply upsample_flow_convex_emits_by_two.
Qed.

Lemma scale_loop_emits (P : Event -> Prop) (Q : nat -> Prop)
  (scales : list nat) :
  (forall s acc, Q s ->
     emits P
       (scale_iter self env feature0_list feature1_list attn_splits_list
          corr_radius_list prop_radius_list pred_bidir_flow s acc)) ->
  Forall Q scales ->
  forall acc,
    emits P
      (scale_loop self env feature0_list feature1_list attn_splits_list
         corr_radius_list prop_radius_list pred_bidir_flow scales acc).
Proof.
  intros Hiter Hall. induction Hall as [|s rest Hs _ IH]; intros acc.
  - cbn [scale_loop]. apply emits_ret.
  - cbn [scale_loop]. apply emits_bind; [now apply Hiter|]. exact IH.
Qed.

End Gates.

(** What the scales before the last never do, whatever the outcome of the
    run.  Iterations of the loop of line 99 at scale indices other than
    [num_scales - 1] never call the upsampler network; and in inference mode
    ([training = False]) the whole of lines 95-163 performs no bilinear
    interpolation other than the twofold one of line 111. *)
Theorem upsampling_is_gated :
  forall (World : Type) (self : GMFlow World) (env : Imports World)
    (feature0_list feature1_list : list Tensor)
    (attn_splits_list corr_radius_list prop_radius_list : option (list Z))
    (pred_bidir_flow : bool),
    (forall (scales : list nat) (acc : option Tensor * list Tensor),
        Forall (fun s => Z.of_nat s <> (num_scales self - 1)%Z) scales ->
        emits not_upsampler
          (scale_loop self env feature0_list feature1_list attn_splits_list
             corr_radius_list prop_radius_list pred_bidir_flow scales acc)) /\
    (training self = false ->
     emits interpolates_by_two
       (forward_scales self env feature0_list feature1_list attn_splits_list
          corr_radius_list prop_radius_list pred_bidir_flow)).
Proof.
  intros World self env f0l f1l a c p bidir. split.
  - intros scales acc Hall.
    apply (scale_loop_emits World self env f0l f1l a c p bidir not_upsampler
             (fun s => Z.of_nat s <> (num_scales self - 1)%Z)); [|exact Hall].
    intros s acc' Hs. now apply scale_iter_emits_no_upsampler.
  - intros Ht. unfold forward_scales.
    apply emits_bind.
    { unfold check_lengths, py_len. repeat emits_step. }
    intros _. apply emits_bind; [|intros; apply emits_ret].
    apply (scale_loop_emits World self env f0l f1l a c p bidir
             interpolates_by_two (fun _ => True)).
    + intros s acc' _. now apply scale_iter_emits_by_two.
    + apply Forall_forall. intros; exact I.
Qed.

Lemma upsampling_is_gated_witness :
  training (Demo.model 2 2 false) = false /\
  exists evs,
    trace (snd (forward_scales (Demo.model 2 2 false) Demo.imports
                  [Demo.coarse0; Demo.fine0] [Demo.coarse1; Demo.fine1]
                  (Some [2; 8]%Z) (Some [-1; 4]%Z) (Some [0; 1]%Z) false
                  Demo.start)) = evs /\
    Forall interpolates_by_two evs /\
    In (EvInterpolate 2) evs /\ In EvUpsampler evs.
Proof.
  split; [reflexivity|].
  destruct (upsampling_is_gated nat (Demo.model 2 2 false) Demo.imports
              [Demo.coarse0; Demo.fine0] [Demo.coarse1; Demo.fine1]
              (Some [2; 8]%Z) (Some [-1; 4]%Z) (Some [0; 1]%Z) false)
    as [_ Hrun].
  destruct (Hrun eq_refl Demo.start) as (evs & Htrace & Hall).
  change (trace Demo.start ++ evs) with evs in Htrace.
  exists evs. split; [exact Htrace|]. split; [exact Hall|].
  rewrite <- Htrace.
  split; cbv -[Rplus Rmult Rminus Rdiv Rinv Ropp exp IZR INR];
    repeat (first [left; reflexivity | right]).
Defined.

(** ** The values of [attn_splits_list] *)

Section Unused.

Variable World : Type.
Variable self : GMFlow World.
Variable env : Imports World.

Lemma bind_ext {A B : Type} (m : M World A) (f g : A -> M World B)
  (s : State World) :
  (forall a s', f a s' = g a s') -> bind m f s = bind m g s.
Proof.
  intros H. unfold bind. destruct (m s) as [[a|e] s']; [apply H|reflexivity].
Qed.

(** An element that is read and dropped: only the length of the list
    matters. *)
Lemma py_getitem_dropped {A B : Type} (l l' : list A) (i : nat)
  (k : M World B) (s : State World) :
  length l = length l' ->
  bind (py_getitem (Some l) i) (fun _ => k) s
  = bind (py_getitem (Some l') i) (fun _ => k) s.
Proof.
  intros Hlen. unfold bind, py_getitem, py_index.
  destruct (nth_error l i) as [x|] eqn:E, (nth_error l' i) as [x'|] eqn:E';
    try reflexivity.
  - apply nth_error_None in E'.
    assert (Hi : i < length l) by (apply nth_error_Some; congruence). lia.
  - apply nth_error_None in E.
    assert (Hi : i < length l') by (apply nth_error_Some; congruence). lia.
Qed.

Variables feature0_list feature1_list : list Tensor.
Variables corr_radius_list prop_radius_list : option (list Z).
Variable pred_bidir_flow : bool.
Variables la la' : list Z.
Hypothesis Hlen : length la = length la'.

Lemma scale_match_attn_splits (s : nat) (flow : option Tensor)
  (st : State World) :
  scale_match env feature0_list feature1_list (Some la) corr_radius_list
    prop_radius_list pred_bidir_flow s flow st
  = scale_match env feature0_list feature1_list (Some la') corr_radius_list
      prop_radius_list pred_bidir_flow s flow st.
Proof.
  unfold scale_match.
  apply bind_ext. intros f0 s1. apply bind_ext. intros f1 s2.
  apply bind_ext. intros [f0' f1'] s3. apply bind_ext. intros fl s4.
  apply bind_ext. intros [fl' f1''] s5.
  apply py_getitem_dropped. exact Hlen.
Qed.

Lemma scale_iter_attn_splits (s : nat) (acc : option Tensor * list Tensor)
  (st : State World) :
  scale_iter self env feature0_list feature1_list (Some la) corr_radius_list
    prop_radius_list pred_bidir_flow s acc st
  = scale_iter self env feature0_list feature1_list (Some la')
      corr_radius_list prop_radius_list pred_bidir_flow s acc st.
Proof.
  unfold scale_iter. destruct acc as [flow preds].
  unfold bind at 1. rewrite scale_match_attn_splits. reflexivity.
Qed.

Lemma scale_loop_attn_splits (scales : list nat) :
  forall (acc : option Tensor * list Tensor) (st : State World),
    scale_loop self env feature0_list feature1_list (Some la)
      corr_radius_list prop_radius_list pred_bidir_flow scales acc st
    = scale_loop self env feature0_list feature1_list (Some la')
        corr_radius_list prop_radius_list pred_bidir_flow scales acc st.
Proof.
  induction scales as [|s rest IH]; intros acc st; cbn [scale_loop].
  - reflexivity.
  - unfold bind. rewrite scale_iter_attn_splits.
    destruct (scale_iter _ _ _ _ _ _ _ _ _ _ _) as [[acc'|e] st'];
      [apply IH|reflexivity].
Qed.

Lemma forward_scales_attn_splits (st : State World) :
  forward_scales self env feature0_list feature1_list (Some la)
    corr_radius_list prop_radius_list pred_bidir_flow st
  = forward_scales self env feature0_list feature1_list (Some la')
      corr_radius_list prop_radius_list pred_bidir_flow st.
Proof.
  unfold forward_scales.
  assert (Hc : check_lengths self (Some la) corr_radius_list prop_radius_list
                 st
               = check_lengths self (Some la') corr_radius_list
                   prop_radius_list st).
  { unfold check_lengths, py_len. now rewrite Hlen. }
  unfold bind. rewrite Hc. clear Hc.
  destruct (check_lengths self (Some la') corr_radius_list prop_radius_list
              st) as [[u|e] s1]; [|reflexivity].
  now rewrite scale_loop_attn_splits.
Qed.

End Unused.

(** The values in [attn_splits_list] are never used: line 119 reads the entry
    of the scale and nothing refers to it afterwards.  Two calls to
    [forward_image] that differ only in the values of [attn_splits_list], the
    two lists having the same length, have the same result and leave the same
    state. *)
Theorem attn_splits_values_unused :
  forall (World : Type) (self : GMFlow World) (env : Imports World)
    (img0 img1 : Tensor) (la la' : list Z)
    (corr_radius_list prop_radius_list : option (list Z))
    (pred_bidir_flow : bool) (st : State World),
    length la = length la' ->
    forward_image self env img0 img1 (Some la) corr_radius_list
      prop_radius_list pred_bidir_flow st
    = forward_image self env img0 img1 (Some la') corr_radius_list
        prop_radius_list pred_bidir_flow st.
Proof.
  intros World self env img0 img1 la la' c p bidir st Hlen.
  unfold forward_image. apply bind_ext. intros [f0l f1l] s1.
  now apply forward_scales_attn_splits.
Qed.

Lemma attn_splits_values_unused_witness :
  length [2%Z] = length [5%Z] /\
  exists preds st',
    forward_image (Demo.model 1 2 false) Demo.imports Demo.image0 Demo.image1
      (Some [2%Z]) (Some [(-1)%Z]) (Some [0%Z]) false Demo.start
    = (Ok preds, st') /\
    forward_image (Demo.model 1 2 false) Demo.imports Demo.image0 Demo.image1
      (Some [5%Z]) (Some [(-1)%Z]) (Some [0%Z]) false Demo.start
    = (Ok preds, st').
Proof.
  split; [reflexivity|].
  eexists. eexists. split; [evaluate|].
  rewrite <- (attn_splits_values_unused nat (Demo.model 1 2 false)
                Demo.imports Demo.image0 Demo.image1 [2%Z] [5%Z]
                (Some [(-1)%Z]) (Some [0%Z]) false Demo.start eq_refl).
  evaluate.
Defined.
